(** * GRUB GPT library (grub-core/lib/gpt.c): a shallow embedding

    The development follows the C file function by function.  Header
    fields are kept as the numbers their little-endian bytes decode to,
    so the conversions [grub_le_to_cpu32], [grub_cpu_to_le64] and the
    like are the identity here, and a raw comparison of two fields in C
    is a comparison of the decoded numbers.  Fixed-width arithmetic is
    written out with its wrap-around.  [grub_size_t] is taken to be 64
    bits wide.  Debug output ([grub_dprintf]) is not modelled, and the
    queries on a partition device ([grub_gpt_part_label],
    [grub_gpt_part_uuid]) are left out. *)

From Stdlib Require Import ZArith List String Ascii Bool Lia.
From Stdlib Require Import Strings.Byte.
Import ListNotations.
Local Open Scope string_scope.
Local Open Scope list_scope.
Local Open Scope Z_scope.

(** ** Machine integers *)

Definition u32 (x : Z) : Z := x mod 2 ^ 32.
Definition u64 (x : Z) : Z := x mod 2 ^ 64.

Definition is_u16 (x : Z) : Prop := 0 <= x < 2 ^ 16.
Definition is_u32 (x : Z) : Prop := 0 <= x < 2 ^ 32.
Definition is_u64 (x : Z) : Prop := 0 <= x < 2 ^ 64.

(** [x << n] on a 64-bit unsigned operand. *)
Definition shl64 (x n : Z) : Z := u64 (Z.shiftl x n).

(** [1U << n] on a 32-bit unsigned operand. *)
Definition one_shl32 (n : Z) : Z := u32 (Z.shiftl 1 n).

(** ** Bytes and little-endian fields *)

Definition byte_val (b : byte) : Z := Z.of_N (Byte.to_N b).

Definition byte_of_Z (x : Z) : byte :=
  match Byte.of_N (Z.to_N (x mod 256)) with
  | Some b => b
  | None => "000"%byte
  end.

Fixpoint le_encode (width : nat) (x : Z) : list byte :=
  match width with
  | O => []
  | S k => byte_of_Z x :: le_encode k (x / 256)
  end.

Fixpoint le_decode (bs : list byte) : Z :=
  match bs with
  | [] => 0
  | b :: rest => byte_val b + 256 * le_decode rest
  end.

Definition slice (off len : nat) (bs : list byte) : list byte :=
  firstn len (skipn off bs).

Definition bytes_eqb (a b : list byte) : bool :=
  if list_eq_dec Byte.byte_eq_dec a b then true else false.

(** [grub_memcmp (a, b, n) == 0]: the first [n] bytes agree. *)
Definition grub_memcmp_eq (a b : list byte) (n : Z) : bool :=
  bytes_eqb (firstn (Z.to_nat n) a) (firstn (Z.to_nat n) b).

(** ** The error channel *)

Inductive grub_err_t : Set :=
| GRUB_ERR_NONE
| GRUB_ERR_OUT_OF_MEMORY
| GRUB_ERR_BAD_PART_TABLE
| GRUB_ERR_OUT_OF_RANGE
| GRUB_ERR_NOT_IMPLEMENTED_YET
| GRUB_ERR_BAD_ARGUMENT
| GRUB_ERR_READ_ERROR
| GRUB_ERR_WRITE_ERROR
| GRUB_ERR_IO
| GRUB_ERR_BUG.

Definition grub_err_eqb (a b : grub_err_t) : bool :=
  match a, b with
  | GRUB_ERR_NONE, GRUB_ERR_NONE
  | GRUB_ERR_OUT_OF_MEMORY, GRUB_ERR_OUT_OF_MEMORY
  | GRUB_ERR_BAD_PART_TABLE, GRUB_ERR_BAD_PART_TABLE
  | GRUB_ERR_OUT_OF_RANGE, GRUB_ERR_OUT_OF_RANGE
  | GRUB_ERR_NOT_IMPLEMENTED_YET, GRUB_ERR_NOT_IMPLEMENTED_YET
  | GRUB_ERR_BAD_ARGUMENT, GRUB_ERR_BAD_ARGUMENT
  | GRUB_ERR_READ_ERROR, GRUB_ERR_READ_ERROR
  | GRUB_ERR_WRITE_ERROR, GRUB_ERR_WRITE_ERROR
  | GRUB_ERR_IO, GRUB_ERR_IO
  | GRUB_ERR_BUG, GRUB_ERR_BUG => true
  | _, _ => false
  end.

(** A C truth test on an error code: [if (err)]. *)
Definition failed (e : grub_err_t) : bool := negb (grub_err_eqb e GRUB_ERR_NONE).

(** A message is kept as its format string and the arguments passed with
    it; the formatting itself belongs to [grub_vsnprintf]. *)
Definition grub_msg : Set := (string * list Z)%type.

Definition grub_error_t : Set := (grub_err_t * grub_msg)%type.

(** ** The block device and the rest of the environment *)

(** The fields of [struct grub_disk] that gpt.c reads. *)
Record grub_disk : Set := {
  disk_log_sector_size : Z;
  disk_total_sectors : Z
}.

(** What a driver can answer to a request it does not serve. *)
Inductive driver_fault : Set :=
| FaultOutOfRange
| FaultReadError
| FaultWriteError
| FaultIO.

Definition fault_error (f : driver_fault) : grub_error_t :=
  match f with
  | FaultOutOfRange => (GRUB_ERR_OUT_OF_RANGE, ("attempt to read or write outside of disk", []))
  | FaultReadError => (GRUB_ERR_READ_ERROR, ("failure reading sector", []))
  | FaultWriteError => (GRUB_ERR_WRITE_ERROR, ("failure writing sector", []))
  | FaultIO => (GRUB_ERR_IO, ("device error", []))
  end.

Inductive io_event : Set :=
| IoRead (sector offset size : Z)
| IoWrite (sector offset : Z) (data : list byte).

(** Everything the C code reaches through globals or through the device:
    the error slot and its stack, the console, the bytes of the medium,
    the verdicts of the driver and of the allocator, and the log of the
    requests sent to the device (oldest first).  The console holds what
    [grub_printf] prints; the lines [grub_dprintf] adds when the debug
    variable selects them are not part of it. *)
Record grub_world : Type := {
  grub_errno : grub_err_t;
  grub_errmsg : grub_msg;
  grub_error_stack : list grub_error_t;
  console : list grub_msg;
  medium : Z -> byte;
  io_log : list io_event;
  read_fault : Z -> Z -> Z -> option driver_fault;
  write_fault : Z -> Z -> Z -> option driver_fault;
  alloc_ok : Z -> bool;
  stray_memory : Z -> byte
}.

Definition with_error (e : grub_err_t) (m : grub_msg) (w : grub_world) : grub_world :=
  {| grub_errno := e; grub_errmsg := m;
     grub_error_stack := grub_error_stack w; console := console w;
     medium := medium w; io_log := io_log w;
     read_fault := read_fault w; write_fault := write_fault w;
     alloc_ok := alloc_ok w; stray_memory := stray_memory w |}.

Definition with_stack (s : list grub_error_t) (w : grub_world) : grub_world :=
  {| grub_errno := grub_errno w; grub_errmsg := grub_errmsg w;
     grub_error_stack := s; console := console w;
     medium := medium w; io_log := io_log w;
     read_fault := read_fault w; write_fault := write_fault w;
     alloc_ok := alloc_ok w; stray_memory := stray_memory w |}.

Definition with_console (c : list grub_msg) (w : grub_world) : grub_world :=
  {| grub_errno := grub_errno w; grub_errmsg := grub_errmsg w;
     grub_error_stack := grub_error_stack w; console := c;
     medium := medium w; io_log := io_log w;
     read_fault := read_fault w; write_fault := write_fault w;
     alloc_ok := alloc_ok w; stray_memory := stray_memory w |}.

Definition with_io (m : Z -> byte) (l : list io_event) (w : grub_world) : grub_world :=
  {| grub_errno := grub_errno w; grub_errmsg := grub_errmsg w;
     grub_error_stack := grub_error_stack w; console := console w;
     medium := m; io_log := l;
     read_fault := read_fault w; write_fault := write_fault w;
     alloc_ok := alloc_ok w; stray_memory := stray_memory w |}.

(** A small state monad over the environment. *)
Definition M (A : Type) : Type := grub_world -> A * grub_world.

Definition ret {A} (a : A) : M A := fun w => (a, w).

Definition bind {A B} (c : M A) (k : A -> M B) : M B :=
  fun w => let (a, w1) := c w in k a w1.

Declare Scope gpt_scope.
Delimit Scope gpt_scope with gpt.
Notation "x <- c ;; k" := (bind c (fun x => k))
  (at level 61, c at next level, right associativity) : gpt_scope.
Notation "c ;;; k" := (bind c (fun _ => k))
  (at level 61, right associativity) : gpt_scope.
Local Open Scope gpt_scope.

(** Modelled from the spec: the error reporter of the enclosing
    bootloader (kern/err.c is not part of these sources).  [grub_error]
    fills the process-wide slot and returns the code; the slot composes
    through push and pop: push saves the slot and resets it to no error,
    pop restores the most recently saved slot, or resets the slot when
    nothing is saved. *)
Definition grub_error (e : grub_err_t) (fmt : string) (args : list Z) : M grub_err_t :=
  fun w => (e, with_error e (fmt, args) w).

Definition get_errno : M grub_err_t := fun w => (grub_errno w, w).

Definition clear_errno : M unit :=
  fun w => (tt, with_error GRUB_ERR_NONE (grub_errmsg w) w).

Definition grub_error_push : M unit :=
  fun w => (tt, with_error GRUB_ERR_NONE (grub_errmsg w)
                  (with_stack ((grub_errno w, grub_errmsg w) :: grub_error_stack w) w)).

Definition grub_error_pop : M unit :=
  fun w => match grub_error_stack w with
           | (e, m) :: rest => (tt, with_error e m (with_stack rest w))
           | [] => (tt, with_error GRUB_ERR_NONE (grub_errmsg w) w)
           end.

Definition grub_printf (fmt : string) (args : list Z) : M unit :=
  fun w => (tt, with_console (console w ++ [(fmt, args)]) w).

(** Modelled from the spec: the block device, "sized reads and writes at
    logical-block addresses" in units of 512-byte blocks
    ([GRUB_DISK_SECTOR_BITS] is 9).  The driver decides whether a request
    fails; a failed request sets the error slot and moves no data. *)
Definition GRUB_DISK_SECTOR_BITS : Z := 9.

Fixpoint medium_range (m : Z -> byte) (a : Z) (n : nat) : list byte :=
  match n with
  | O => []
  | S k => m a :: medium_range m (a + 1) k
  end.

Definition medium_bytes (m : Z -> byte) (sector offset size : Z) : list byte :=
  medium_range m (sector * 512 + offset) (Z.to_nat size).

Definition medium_store (m : Z -> byte) (sector offset : Z) (data : list byte) : Z -> byte :=
  fun a =>
    let i := a - (sector * 512 + offset) in
    if (0 <=? i) && (i <? Z.of_nat (List.length data))
    then nth (Z.to_nat i) data "000"%byte
    else m a.

Definition grub_disk_read (disk : grub_disk) (sector offset size : Z)
  : M (grub_err_t * list byte) :=
  fun w =>
    let w1 := with_io (medium w) (io_log w ++ [IoRead sector offset size]) w in
    match read_fault w sector offset size with
    | Some f => ((fst (fault_error f), []),
                 with_error (fst (fault_error f)) (snd (fault_error f)) w1)
    | None => ((GRUB_ERR_NONE, medium_bytes (medium w) sector offset size), w1)
    end.

Definition grub_disk_write (disk : grub_disk) (sector offset size : Z) (buf : list byte)
  : M grub_err_t :=
  fun w =>
    let data := firstn (Z.to_nat size) buf in
    let l := io_log w ++ [IoWrite sector offset data] in
    match write_fault w sector offset size with
    | Some f => (fst (fault_error f),
                 with_error (fst (fault_error f)) (snd (fault_error f))
                            (with_io (medium w) l w))
    | None => (GRUB_ERR_NONE, with_io (medium_store (medium w) sector offset data) l w)
    end.

(** Modelled from the spec: the allocator ([grub_malloc], [grub_zalloc]);
    a refused request reports [OUT_OF_MEMORY]. *)
Definition grub_malloc (size : Z) : M bool :=
  fun w => if alloc_ok w size then (true, w)
           else (false, with_error GRUB_ERR_OUT_OF_MEMORY ("out of memory", []) w).

(** ** CRC-32 *)

(** Modelled from the spec: the CRC-32 primitive behind
    [grub_crypto_hash (GRUB_MD_CRC32, ...)], the IEEE polynomial in its
    reflected form.  The value is the number whose little-endian bytes
    are the on-medium field. *)
Definition crc32_shift (c : Z) : Z :=
  if Z.testbit c 0 then Z.lxor (Z.shiftr c 1) 0xEDB88320 else Z.shiftr c 1.

Definition crc32_byte (c : Z) (b : byte) : Z :=
  Nat.iter 8 crc32_shift (Z.lxor c (byte_val b)).

Definition grub_crypto_hash_crc32 (data : list byte) : Z :=
  Z.lxor (fold_left crc32_byte data 0xFFFFFFFF) 0xFFFFFFFF.

(** ** On-medium structures *)

Record grub_gpt_guid : Set := {
  data1 : Z;
  data2 : Z;
  data3 : Z;
  data4 : list byte
}.

(** [struct grub_gpt_header], packed, 92 bytes. *)
Record grub_gpt_header : Set := {
  magic : list byte;
  version : Z;
  headersize : Z;
  crc32 : Z;
  unused1 : Z;
  header_lba : Z;
  alternate_lba : Z;
  start : Z;
  end_ : Z;
  guid : grub_gpt_guid;
  partitions : Z;
  maxpart : Z;
  partentry_size : Z;
  partentry_crc32 : Z
}.

Definition sizeof_grub_gpt_header : Z := 92.

Definition guid_wf (g : grub_gpt_guid) : Prop :=
  is_u32 (data1 g) /\ is_u16 (data2 g) /\ is_u16 (data3 g) /\ List.length (data4 g) = 8%nat.

(** The fields hold values of their C types. *)
Definition header_wf (h : grub_gpt_header) : Prop :=
  List.length (magic h) = 8%nat /\
  is_u32 (version h) /\ is_u32 (headersize h) /\ is_u32 (crc32 h) /\
  is_u32 (unused1 h) /\
  is_u64 (header_lba h) /\ is_u64 (alternate_lba h) /\
  is_u64 (start h) /\ is_u64 (end_ h) /\
  guid_wf (guid h) /\
  is_u64 (partitions h) /\
  is_u32 (maxpart h) /\ is_u32 (partentry_size h) /\ is_u32 (partentry_crc32 h).

Definition is_u16b (x : Z) : bool := (0 <=? x) && (x <? 2 ^ 16).
Definition is_u32b (x : Z) : bool := (0 <=? x) && (x <? 2 ^ 32).
Definition is_u64b (x : Z) : bool := (0 <=? x) && (x <? 2 ^ 64).

Definition guid_wfb (g : grub_gpt_guid) : bool :=
  is_u32b (data1 g) && is_u16b (data2 g) && is_u16b (data3 g)
  && (List.length (data4 g) =? 8)%nat.

Definition header_wfb (h : grub_gpt_header) : bool :=
  (List.length (magic h) =? 8)%nat
  && is_u32b (version h) && is_u32b (headersize h) && is_u32b (crc32 h)
  && is_u32b (unused1 h)
  && is_u64b (header_lba h) && is_u64b (alternate_lba h)
  && is_u64b (start h) && is_u64b (end_ h)
  && guid_wfb (guid h)
  && is_u64b (partitions h)
  && is_u32b (maxpart h) && is_u32b (partentry_size h)
  && is_u32b (partentry_crc32 h).

Definition set_headersize (v : Z) (h : grub_gpt_header) : grub_gpt_header :=
  {| magic := magic h; version := version h; headersize := v; crc32 := crc32 h;
     unused1 := unused1 h; header_lba := header_lba h;
     alternate_lba := alternate_lba h; start := start h; end_ := end_ h;
     guid := guid h; partitions := partitions h; maxpart := maxpart h;
     partentry_size := partentry_size h; partentry_crc32 := partentry_crc32 h |}.

Definition set_crc32 (v : Z) (h : grub_gpt_header) : grub_gpt_header :=
  {| magic := magic h; version := version h; headersize := headersize h; crc32 := v;
     unused1 := unused1 h; header_lba := header_lba h;
     alternate_lba := alternate_lba h; start := start h; end_ := end_ h;
     guid := guid h; partitions := partitions h; maxpart := maxpart h;
     partentry_size := partentry_size h; partentry_crc32 := partentry_crc32 h |}.

Definition set_header_lba (v : Z) (h : grub_gpt_header) : grub_gpt_header :=
  {| magic := magic h; version := version h; headersize := headersize h;
     crc32 := crc32 h; unused1 := unused1 h; header_lba := v;
     alternate_lba := alternate_lba h; start := start h; end_ := end_ h;
     guid := guid h; partitions := partitions h; maxpart := maxpart h;
     partentry_size := partentry_size h; partentry_crc32 := partentry_crc32 h |}.

Definition set_alternate_lba (v : Z) (h : grub_gpt_header) : grub_gpt_header :=
  {| magic := magic h; version := version h; headersize := headersize h;
     crc32 := crc32 h; unused1 := unused1 h; header_lba := header_lba h;
     alternate_lba := v; start := start h; end_ := end_ h;
     guid := guid h; partitions := partitions h; maxpart := maxpart h;
     partentry_size := partentry_size h; partentry_crc32 := partentry_crc32 h |}.

Definition set_partitions (v : Z) (h : grub_gpt_header) : grub_gpt_header :=
  {| magic := magic h; version := version h; headersize := headersize h;
     crc32 := crc32 h; unused1 := unused1 h; header_lba := header_lba h;
     alternate_lba := alternate_lba h; start := start h; end_ := end_ h;
     guid := guid h; partitions := v; maxpart := maxpart h;
     partentry_size := partentry_size h; partentry_crc32 := partentry_crc32 h |}.

Definition set_partentry_crc32 (v : Z) (h : grub_gpt_header) : grub_gpt_header :=
  {| magic := magic h; version := version h; headersize := headersize h;
     crc32 := crc32 h; unused1 := unused1 h; header_lba := header_lba h;
     alternate_lba := alternate_lba h; start := start h; end_ := end_ h;
     guid := guid h; partitions := partitions h; maxpart := maxpart h;
     partentry_size := partentry_size h; partentry_crc32 := v |}.

(** The bytes of a header in memory and on the medium. *)
Definition guid_bytes (g : grub_gpt_guid) : list byte :=
  le_encode 4 (data1 g) ++ le_encode 2 (data2 g) ++ le_encode 2 (data3 g)
  ++ firstn 8 (data4 g).

Definition header_bytes (h : grub_gpt_header) : list byte :=
  firstn 8 (magic h)
  ++ le_encode 4 (version h) ++ le_encode 4 (headersize h)
  ++ le_encode 4 (crc32 h) ++ le_encode 4 (unused1 h)
  ++ le_encode 8 (header_lba h) ++ le_encode 8 (alternate_lba h)
  ++ le_encode 8 (start h) ++ le_encode 8 (end_ h)
  ++ guid_bytes (guid h)
  ++ le_encode 8 (partitions h)
  ++ le_encode 4 (maxpart h) ++ le_encode 4 (partentry_size h)
  ++ le_encode 4 (partentry_crc32 h).

Definition guid_of_bytes (bs : list byte) : grub_gpt_guid :=
  {| data1 := le_decode (slice 0 4 bs);
     data2 := le_decode (slice 4 2 bs);
     data3 := le_decode (slice 6 2 bs);
     data4 := slice 8 8 bs |}.

Definition header_of_bytes (bs : list byte) : grub_gpt_header :=
  {| magic := slice 0 8 bs;
     version := le_decode (slice 8 4 bs);
     headersize := le_decode (slice 12 4 bs);
     crc32 := le_decode (slice 16 4 bs);
     unused1 := le_decode (slice 20 4 bs);
     header_lba := le_decode (slice 24 8 bs);
     alternate_lba := le_decode (slice 32 8 bs);
     start := le_decode (slice 40 8 bs);
     end_ := le_decode (slice 48 8 bs);
     guid := guid_of_bytes (slice 56 16 bs);
     partitions := le_decode (slice 72 8 bs);
     maxpart := le_decode (slice 80 4 bs);
     partentry_size := le_decode (slice 84 4 bs);
     partentry_crc32 := le_decode (slice 88 4 bs) |}.

Definition zero_bytes (n : nat) : list byte := repeat "000"%byte n.

(** A header as [grub_zalloc] leaves it. *)
Definition zero_header : grub_gpt_header := header_of_bytes (zero_bytes 92).

(** Constants of the absent header gpt_partition.h, as the spec gives them. *)
Definition grub_gpt_magic : list byte :=
  ["E"; "F"; "I"; " "; "P"; "A"; "R"; "T"]%byte.
Definition GRUB_GPT_HEADER_VERSION : Z := 0x00010000.
Definition GRUB_GPT_DEFAULT_ENTRIES_SIZE : Z := 16384.

(** Modelled from the spec: the status bitmask, "independent bits" named
    [PROTECTIVE_MBR], [PRIMARY_HEADER_VALID], [PRIMARY_ENTRIES_VALID],
    [BACKUP_HEADER_VALID] and [BACKUP_ENTRIES_VALID] (the enum of
    gpt_partition.h is not part of these sources). *)
Definition GRUB_GPT_PROTECTIVE_MBR : Z := 0x01.
Definition GRUB_GPT_PRIMARY_HEADER_VALID : Z := 0x04.
Definition GRUB_GPT_PRIMARY_ENTRIES_VALID : Z := 0x08.
Definition GRUB_GPT_BACKUP_HEADER_VALID : Z := 0x10.
Definition GRUB_GPT_BACKUP_ENTRIES_VALID : Z := 0x20.

Definition GRUB_GPT_PRIMARY_VALID : Z :=
  Z.lor GRUB_GPT_PRIMARY_HEADER_VALID GRUB_GPT_PRIMARY_ENTRIES_VALID.
Definition GRUB_GPT_BACKUP_VALID : Z :=
  Z.lor GRUB_GPT_BACKUP_HEADER_VALID GRUB_GPT_BACKUP_ENTRIES_VALID.
Definition GRUB_GPT_BOTH_VALID : Z :=
  Z.lor GRUB_GPT_PRIMARY_VALID GRUB_GPT_BACKUP_VALID.

(** [struct grub_gpt], the handle. *)
Record grub_gpt : Set := {
  status : Z;
  mbr : list byte;
  primary : grub_gpt_header;
  backup : grub_gpt_header;
  entries : list byte;
  entries_size : Z;
  log_sector_size : Z
}.

Definition set_status (v : Z) (g : grub_gpt) : grub_gpt :=
  {| status := v; mbr := mbr g; primary := primary g; backup := backup g;
     entries := entries g; entries_size := entries_size g;
     log_sector_size := log_sector_size g |}.

Definition set_mbr (v : list byte) (g : grub_gpt) : grub_gpt :=
  {| status := status g; mbr := v; primary := primary g; backup := backup g;
     entries := entries g; entries_size := entries_size g;
     log_sector_size := log_sector_size g |}.

Definition set_primary (v : grub_gpt_header) (g : grub_gpt) : grub_gpt :=
  {| status := status g; mbr := mbr g; primary := v; backup := backup g;
     entries := entries g; entries_size := entries_size g;
     log_sector_size := log_sector_size g |}.

Definition set_backup (v : grub_gpt_header) (g : grub_gpt) : grub_gpt :=
  {| status := status g; mbr := mbr g; primary := primary g; backup := v;
     entries := entries g; entries_size := entries_size g;
     log_sector_size := log_sector_size g |}.

Definition set_entries (v : list byte) (n : Z) (g : grub_gpt) : grub_gpt :=
  {| status := status g; mbr := mbr g; primary := primary g; backup := backup g;
     entries := v; entries_size := n;
     log_sector_size := log_sector_size g |}.

Definition set_log_sector_size (v : Z) (g : grub_gpt) : grub_gpt :=
  {| status := status g; mbr := mbr g; primary := primary g; backup := backup g;
     entries := entries g; entries_size := entries_size g;
     log_sector_size := v |}.

(** [gpt->status & bit] as a C truth value. *)
Definition status_has (g : grub_gpt) (bit : Z) : bool :=
  negb (Z.land (status g) bit =? 0).

(** Modelled from the spec: the status helpers of gpt_partition.h; a copy
    is valid when its [_HEADER_VALID] and [_ENTRIES_VALID] bits are both
    set. *)
Definition grub_gpt_primary_valid (g : grub_gpt) : bool :=
  Z.land (status g) GRUB_GPT_PRIMARY_VALID =? GRUB_GPT_PRIMARY_VALID.

Definition grub_gpt_backup_valid (g : grub_gpt) : bool :=
  Z.land (status g) GRUB_GPT_BACKUP_VALID =? GRUB_GPT_BACKUP_VALID.

Definition grub_gpt_both_valid (g : grub_gpt) : bool :=
  Z.land (status g) GRUB_GPT_BOTH_VALID =? GRUB_GPT_BOTH_VALID.

(** Modelled from the spec: [grub_gpt_sector_to_addr] of gpt_partition.h.
    A sector of the handle is turned into the device's 512-byte block
    address, the rescaling [grub_gpt_disk_size_valid] below applies to
    the sector count; the byte offset of the request is then
    [sector * (1 << log_sector_size)]. *)
Definition grub_gpt_sector_to_addr (g : grub_gpt) (sector : Z) : Z :=
  shl64 sector (log_sector_size g - GRUB_DISK_SECTOR_BITS).

(** ** gpt.c *)

Definition hex_digit (d : Z) : ascii :=
  nth (Z.to_nat d)
      ["0"; "1"; "2"; "3"; "4"; "5"; "6"; "7"; "8"; "9";
       "a"; "b"; "c"; "d"; "e"; "f"]%char "0"%char.

(** [%0nx] for a value that fits [n] hexadecimal digits. *)
Fixpoint hex_fixed (n : nat) (x : Z) : string :=
  match n with
  | O => EmptyString
  | S k => (hex_fixed k (x / 16) ++ String (hex_digit (x mod 16)) EmptyString)%string
  end.

Definition hex_byte_at (bs : list byte) (i : nat) : string :=
  hex_fixed 2 (byte_val (nth i bs "000"%byte)).

(** [grub_gpt_guid_to_str]; [grub_xasprintf] allocates the result. *)
Definition grub_gpt_guid_to_str (g : grub_gpt_guid) : M (option string) :=
  let s := (hex_fixed 8 (data1 g) ++ "-" ++ hex_fixed 4 (data2 g) ++ "-"
            ++ hex_fixed 4 (data3 g) ++ "-"
            ++ hex_byte_at (data4 g) 0 ++ hex_byte_at (data4 g) 1 ++ "-"
            ++ hex_byte_at (data4 g) 2 ++ hex_byte_at (data4 g) 3
            ++ hex_byte_at (data4 g) 4 ++ hex_byte_at (data4 g) 5
            ++ hex_byte_at (data4 g) 6 ++ hex_byte_at (data4 g) 7)%string in
  ok <- grub_malloc (Z.of_nat (String.length s) + 1) ;;
  ret (if ok then Some s else None).

(** Which of the two header structs of the handle a pointer designates. *)
Inductive header_ref : Set := PrimaryHeader | BackupHeader.

Definition header_at (g : grub_gpt) (r : header_ref) : grub_gpt_header :=
  match r with
  | PrimaryHeader => primary g
  | BackupHeader => backup g
  end.

Definition grub_gpt_get_header (g : grub_gpt) : M (option header_ref) :=
  if status_has g GRUB_GPT_PRIMARY_HEADER_VALID then ret (Some PrimaryHeader)
  else if status_has g GRUB_GPT_BACKUP_HEADER_VALID then ret (Some BackupHeader)
  else
    _ <- grub_error GRUB_ERR_BUG "No valid GPT header" [] ;;
    ret None.

Definition grub_gpt_size_to_sectors (g : grub_gpt) (size : Z) : Z :=
  let sector_size := one_shl32 (log_sector_size g) in
  let sectors := size / sector_size in
  if negb (size mod sector_size =? 0) then u64 (sectors + 1) else sectors.

Definition grub_gpt_disk_size_valid (disk : grub_disk) : bool :=
  let total_sectors :=
    shl64 (disk_total_sectors disk) (disk_log_sector_size disk - GRUB_DISK_SECTOR_BITS) in
  if total_sectors >? Z.shiftl 1 51 then false else true.

(** [grub_crypto_hash] stores the digest most significant byte first and
    [grub_swap_bytes32] turns it round, so the field receives the
    little-endian bytes of the CRC: as a decoded number, the CRC itself. *)
Definition grub_gpt_lecrc32 (data : list byte) (len : Z) : Z :=
  grub_crypto_hash_crc32 (firstn (Z.to_nat len) data).

Definition grub_gpt_header_lecrc32 (header : grub_gpt_header) : Z :=
  grub_gpt_lecrc32 (header_bytes (set_crc32 0 header)) sizeof_grub_gpt_header.

(** Modelled from the spec: the layout of the legacy record, "signature
    0xAA55 at the last two bytes, containing four 16-byte primary
    entries", each with its type byte at offset 4.  The loop of
    [grub_gpt_pmbr_check] runs its index up to [sizeof (mbr->entries)],
    which is 64; what it finds past the fourth entry is whatever lies
    there in memory. *)
Definition GRUB_PC_PARTITION_SIGNATURE : Z := 0xaa55.
Definition GRUB_PC_PARTITION_TYPE_GPT_DISK : Z := 0xee.

Definition mbr_signature (m : list byte) : Z := le_decode (slice 510 2 m).

Definition mbr_entry_type (w : grub_world) (m : list byte) (i : nat) : Z :=
  if (i <? 4)%nat then byte_val (nth (446 + 16 * i + 4) m "000"%byte)
  else byte_val (stray_memory w (Z.of_nat (446 + 16 * i + 4))).

Definition grub_gpt_pmbr_check (m : list byte) : M grub_err_t :=
  fun w =>
    if negb (mbr_signature m =? GRUB_PC_PARTITION_SIGNATURE)
    then grub_error GRUB_ERR_BAD_PART_TABLE "invalid MBR signature" [] w
    else if existsb (fun i => mbr_entry_type w m i =? GRUB_PC_PARTITION_TYPE_GPT_DISK)
                    (seq 0 64)
    then (GRUB_ERR_NONE, w)
    else grub_error GRUB_ERR_BAD_PART_TABLE "invalid protective MBR" [] w.

Definition grub_gpt_entries_size (h : grub_gpt_header) : Z :=
  u64 (maxpart h * partentry_size h).

Definition grub_gpt_entries_sectors (h : grub_gpt_header) (log_sector_size : Z) : Z :=
  let sector_bytes := shl64 1 log_sector_size in
  let entries_bytes := grub_gpt_entries_size h in
  u64 (entries_bytes + sector_bytes - 1) / sector_bytes.

Definition is_pow2 (n : Z) : bool :=
  Z.land n (u32 (n - 1)) =? 0.

Definition grub_gpt_header_check (h : grub_gpt_header) (log_sector_size : Z)
  : M grub_err_t :=
  if negb (grub_memcmp_eq (magic h) grub_gpt_magic 8)
  then grub_error GRUB_ERR_BAD_PART_TABLE "invalid GPT signature" []
  else if negb (version h =? GRUB_GPT_HEADER_VERSION)
  then grub_error GRUB_ERR_BAD_PART_TABLE "unknown GPT version" []
  else if negb (crc32 h =? grub_gpt_header_lecrc32 h)
  then grub_error GRUB_ERR_BAD_PART_TABLE "invalid GPT header crc32" []
  else if (headersize h <? 92) || (headersize h >? one_shl32 log_sector_size)
  then grub_error GRUB_ERR_BAD_PART_TABLE "invalid GPT header size" []
  else if (partentry_size h <? 128)
          || negb (partentry_size h mod 128 =? 0)
          || negb (is_pow2 (partentry_size h / 128))
  then grub_error GRUB_ERR_BAD_PART_TABLE "invalid GPT entry size" []
  else if grub_gpt_entries_size h <? GRUB_GPT_DEFAULT_ENTRIES_SIZE
  then grub_error GRUB_ERR_BAD_PART_TABLE "invalid GPT entry table size" []
  else if start h >? end_ h
  then grub_error GRUB_ERR_BAD_PART_TABLE "invalid usable sectors" []
  else ret GRUB_ERR_NONE.

Definition guid_eqb (a b : grub_gpt_guid) : bool :=
  grub_memcmp_eq (guid_bytes a) (guid_bytes b) 16.

Definition grub_gpt_headers_equal (g : grub_gpt) : bool :=
  if negb (headersize (primary g) =? headersize (backup g))
     || negb (header_lba (primary g) =? alternate_lba (backup g))
     || negb (alternate_lba (primary g) =? header_lba (backup g))
     || negb (start (primary g) =? start (backup g))
     || negb (end_ (primary g) =? end_ (backup g))
     || negb (maxpart (primary g) =? maxpart (backup g))
     || negb (partentry_size (primary g) =? partentry_size (backup g))
     || negb (partentry_crc32 (primary g) =? partentry_crc32 (backup g))
  then false
  else guid_eqb (guid (primary g)) (guid (backup g)).

(** [grub_gpt_check_primary].  The six layout values are read first, as
    in the C code; the [grub_dprintf] that shows them is debug output and
    has no counterpart here. *)
Definition grub_gpt_check_primary (g : grub_gpt) : M grub_err_t :=
  let primary_lba := header_lba (primary g) in
  let backup_lba := alternate_lba (primary g) in
  let entries_lba := partitions (primary g) in
  let entries_len := grub_gpt_entries_sectors (primary g) (log_sector_size g) in
  let start_lba := start (primary g) in
  let end_lba := end_ (primary g) in
  e <- grub_gpt_header_check (primary g) (log_sector_size g) ;;
  if failed e then get_errno
  else if negb (primary_lba =? 1)
  then grub_error GRUB_ERR_BAD_PART_TABLE "invalid primary GPT LBA" []
  else if (entries_lba <=? 1) || (u64 (entries_lba + entries_len) >? start_lba)
  then grub_error GRUB_ERR_BAD_PART_TABLE "invalid entries location" []
  else if backup_lba <=? end_lba
  then grub_error GRUB_ERR_BAD_PART_TABLE "invalid backup GPT LBA" []
  else ret GRUB_ERR_NONE.

(** [grub_gpt_check_backup]; its [grub_dprintf] of the layout has no
    counterpart here either. *)
Definition grub_gpt_check_backup (g : grub_gpt) : M grub_err_t :=
  let backup_lba := header_lba (backup g) in
  let primary_lba := alternate_lba (backup g) in
  let entries_lba := partitions (backup g) in
  let entries_len := grub_gpt_entries_sectors (backup g) (log_sector_size g) in
  let start_lba := start (backup g) in
  let end_lba := end_ (backup g) in
  e <- grub_gpt_header_check (backup g) (log_sector_size g) ;;
  if failed e then get_errno
  else if negb (primary_lba =? 1)
  then grub_error GRUB_ERR_BAD_PART_TABLE "invalid primary GPT LBA" []
  else if (entries_lba <=? end_lba) || (u64 (entries_lba + entries_len) >? backup_lba)
  then grub_error GRUB_ERR_BAD_PART_TABLE "invalid entries location" []
  else if backup_lba <=? end_lba
  then grub_error GRUB_ERR_BAD_PART_TABLE "invalid backup GPT LBA" []
  else if status_has g GRUB_GPT_PRIMARY_HEADER_VALID && negb (grub_gpt_headers_equal g)
  then grub_error GRUB_ERR_BAD_PART_TABLE "backup GPT out of sync" []
  else ret GRUB_ERR_NONE.

Definition or_status (bits : Z) (g : grub_gpt) : grub_gpt :=
  set_status (Z.lor (status g) bits) g.

(** [grub_gpt_read_entries]; on success the buffer and its size are
    handed back through the two out-parameters. *)
Definition grub_gpt_read_entries (disk : grub_disk) (g : grub_gpt)
    (header : grub_gpt_header) : M (grub_err_t * option (list byte * Z)) :=
  let count := maxpart header in
  let size := partentry_size header in
  let entries_size := u32 (count * size) in
  if negb (size =? 0) && negb (entries_size / size =? count)
  then
    _ <- grub_error GRUB_ERR_OUT_OF_MEMORY "out of memory" [] ;;
    e <- get_errno ;; ret (e, None)
  else if entries_size <? GRUB_GPT_DEFAULT_ENTRIES_SIZE
  then
    e <- grub_error GRUB_ERR_BUG "invalid GPT entries table size" [] ;;
    ret (e, None)
  else
    ok <- grub_malloc entries_size ;;
    if negb ok then e <- get_errno ;; ret (e, None)
    else
      let sector := partitions header in
      let addr := grub_gpt_sector_to_addr g sector in
      r <- grub_disk_read disk addr 0 entries_size ;;
      if failed (fst r) then e <- get_errno ;; ret (e, None)
      else
        let buf := snd r in
        let crc := grub_gpt_lecrc32 buf entries_size in
        if negb (crc =? partentry_crc32 header)
        then
          _ <- grub_error GRUB_ERR_BAD_PART_TABLE "invalid GPT entry crc32" [] ;;
          e <- get_errno ;; ret (e, None)
        else ret (GRUB_ERR_NONE, Some (buf, entries_size)).

Definition grub_gpt_read_primary (disk : grub_disk) (g : grub_gpt)
  : M (grub_err_t * grub_gpt) :=
  let g := set_log_sector_size (disk_log_sector_size disk) g in
  let addr := grub_gpt_sector_to_addr g 1 in
  r <- grub_disk_read disk addr 0 sizeof_grub_gpt_header ;;
  if failed (fst r) then e <- get_errno ;; ret (e, g)
  else
    let g := set_primary (header_of_bytes (snd r)) g in
    c <- grub_gpt_check_primary g ;;
    if failed c then e <- get_errno ;; ret (e, g)
    else
      let g := or_status GRUB_GPT_PRIMARY_HEADER_VALID g in
      t <- grub_gpt_read_entries disk g (primary g) ;;
      match t with
      | (_, Some (buf, n)) =>
          ret (GRUB_ERR_NONE,
               or_status GRUB_GPT_PRIMARY_ENTRIES_VALID (set_entries buf n g))
      | (_, None) => e <- get_errno ;; ret (e, g)
      end.

(** The second half of [grub_gpt_read_backup], once the sector of the
    backup header is settled. *)
Definition grub_gpt_read_backup_at (disk : grub_disk) (g : grub_gpt) (sector : Z)
  : M (grub_err_t * grub_gpt) :=
  let addr := grub_gpt_sector_to_addr g sector in
  r <- grub_disk_read disk addr 0 sizeof_grub_gpt_header ;;
  if failed (fst r) then e <- get_errno ;; ret (e, g)
  else
    let g := set_backup (header_of_bytes (snd r)) g in
    c <- grub_gpt_check_backup g ;;
    if failed c then e <- get_errno ;; ret (e, g)
    else if negb (header_lba (backup g) =? sector)
    then
      e <- grub_error GRUB_ERR_BAD_PART_TABLE "invalid backup GPT LBA" [] ;;
      ret (e, g)
    else
      let g := or_status GRUB_GPT_BACKUP_HEADER_VALID g in
      t <- grub_gpt_read_entries disk g (backup g) ;;
      match t with
      | (_, None) => e <- get_errno ;; ret (e, g)
      | (_, Some (buf, n)) =>
          if status_has g GRUB_GPT_PRIMARY_ENTRIES_VALID
          then
            if negb (n =? entries_size g)
               || negb (grub_memcmp_eq buf (entries g) n)
            then
              e <- grub_error GRUB_ERR_BAD_PART_TABLE "backup GPT out of sync" [] ;;
              ret (e, g)
            else ret (GRUB_ERR_NONE, or_status GRUB_GPT_BACKUP_ENTRIES_VALID g)
          else
            ret (GRUB_ERR_NONE,
                 or_status GRUB_GPT_BACKUP_ENTRIES_VALID (set_entries buf n g))
      end.

Definition grub_gpt_read_backup (disk : grub_disk) (g : grub_gpt)
  : M (grub_err_t * grub_gpt) :=
  if status_has g GRUB_GPT_PRIMARY_HEADER_VALID
  then
    let sector := alternate_lba (primary g) in
    if grub_gpt_disk_size_valid disk && (sector >=? disk_total_sectors disk)
    then
      e <- grub_error GRUB_ERR_OUT_OF_RANGE
             "backup GPT located at 0x%llx, beyond last disk sector at 0x%llx"
             [sector; u64 (disk_total_sectors disk - 1)] ;;
      ret (e, g)
    else grub_gpt_read_backup_at disk g sector
  else if grub_gpt_disk_size_valid disk
  then grub_gpt_read_backup_at disk g (u64 (disk_total_sectors disk - 1))
  else
    e <- grub_error GRUB_ERR_OUT_OF_RANGE
           "size of disk unknown, cannot locate backup GPT" [] ;;
    ret (e, g).

Definition sizeof_grub_gpt : Z := 728.
Definition sizeof_mbr : Z := 512.

(** The handle [grub_zalloc] returns. *)
Definition zero_gpt : grub_gpt :=
  {| status := 0; mbr := zero_bytes 512; primary := zero_header;
     backup := zero_header; entries := []; entries_size := 0;
     log_sector_size := 0 |}.

(** The part of [grub_gpt_read] from the reading of the primary copy on. *)
Definition grub_gpt_read_copies (disk : grub_disk) (g : grub_gpt)
  : M (option grub_gpt) :=
  p <- grub_gpt_read_primary disk g ;;
  b <- (if failed (fst p)
        then
          _ <- grub_error_push ;;
          b <- grub_gpt_read_backup disk (snd p) ;;
          _ <- grub_error_pop ;;
          ret b
        else grub_gpt_read_backup disk (snd p)) ;;
  let g := snd b in
  if grub_gpt_primary_valid g || grub_gpt_backup_valid g
  then _ <- clear_errno ;; ret (Some g)
  else ret None.

(** The part of [grub_gpt_read] before the primary copy is read:
    allocation of the handle and the protective MBR. *)
Definition grub_gpt_read_mbr (disk : grub_disk) : M (option grub_gpt) :=
  ok <- grub_malloc sizeof_grub_gpt ;;
  if negb ok then ret None
  else
    r <- grub_disk_read disk 0 0 sizeof_mbr ;;
    if failed (fst r) then ret None
    else
      let g := set_mbr (snd r) zero_gpt in
      c <- grub_gpt_pmbr_check (mbr g) ;;
      if failed c then _ <- clear_errno ;; ret (Some g)
      else ret (Some (or_status GRUB_GPT_PROTECTIVE_MBR g)).

(** [grub_gpt_read], without the [grub_dprintf] lines of the reader and
    of the functions it calls. *)
Definition grub_gpt_read (disk : grub_disk) : M (option grub_gpt) :=
  og <- grub_gpt_read_mbr disk ;;
  match og with
  | None => ret None
  | Some g => grub_gpt_read_copies disk g
  end.

(** [grub_gpt_get_partentry]: the entry is returned as its byte offset
    into [gpt->entries]. *)
Definition grub_gpt_get_partentry (g : grub_gpt) (n : Z) : M (option Z) :=
  r <- grub_gpt_get_header g ;;
  match r with
  | None => ret None
  | Some r =>
      if n >=? maxpart (header_at g r) then ret None
      else ret (Some (u64 (partentry_size (header_at g r) * n)))
  end.

(** The part of [grub_gpt_disk_uuid] after the handle has been read. *)
Definition grub_gpt_disk_uuid_of (og : option grub_gpt)
  : M (grub_err_t * option string) :=
  match og with
  | None => e <- get_errno ;; ret (e, None)
  | Some g =>
      r <- grub_gpt_get_header g ;;
      match r with
      | None => e <- get_errno ;; ret (e, None)
      | Some r =>
          s <- grub_gpt_guid_to_str (guid (header_at g r)) ;;
          e <- get_errno ;; ret (e, s)
      end
  end.

Definition grub_gpt_disk_uuid (disk : grub_disk) : M (grub_err_t * option string) :=
  og <- grub_gpt_read disk ;;
  grub_gpt_disk_uuid_of og.

Definition clear_status (bits : Z) (g : grub_gpt) : grub_gpt :=
  set_status (Z.land (status g) (Z.lnot bits)) g.

Definition grub_gpt_update (g : grub_gpt) : M (grub_err_t * grub_gpt) :=
  let g := clear_status (Z.lor (Z.lor (Z.lor GRUB_GPT_PRIMARY_HEADER_VALID
                                               GRUB_GPT_PRIMARY_ENTRIES_VALID)
                                        GRUB_GPT_BACKUP_HEADER_VALID)
                                 GRUB_GPT_BACKUP_ENTRIES_VALID) g in
  let g := set_primary (set_headersize sizeof_grub_gpt_header (primary g)) g in
  let g := set_backup (set_headersize sizeof_grub_gpt_header (backup g)) g in
  let crc := grub_gpt_lecrc32 (entries g) (entries_size g) in
  let g := set_primary (set_partentry_crc32 crc (primary g)) g in
  let g := set_backup (set_partentry_crc32 crc (backup g)) g in
  let g := set_primary (set_crc32 (grub_gpt_header_lecrc32 (primary g)) (primary g)) g in
  let g := set_backup (set_crc32 (grub_gpt_header_lecrc32 (backup g)) (backup g)) g in
  c <- grub_gpt_check_primary g ;;
  if failed c
  then
    _ <- grub_error_push ;;
    e <- grub_error GRUB_ERR_BUG "Generated invalid GPT primary header" [] ;;
    ret (e, g)
  else
    let g := or_status (Z.lor GRUB_GPT_PRIMARY_HEADER_VALID
                              GRUB_GPT_PRIMARY_ENTRIES_VALID) g in
    c <- grub_gpt_check_backup g ;;
    if failed c
    then
      _ <- grub_error_push ;;
      e <- grub_error GRUB_ERR_BUG "Generated invalid GPT backup header" [] ;;
      ret (e, g)
    else
      ret (GRUB_ERR_NONE,
           or_status (Z.lor GRUB_GPT_BACKUP_HEADER_VALID
                            GRUB_GPT_BACKUP_ENTRIES_VALID) g).

(** The two branches of [grub_gpt_repair] that rebuild one copy from the
    other, before the updater runs. *)
Definition repair_from_primary (disk : grub_disk) (g : grub_gpt) : grub_gpt :=
  let backup_header := alternate_lba (primary g) in
  let relocate :=
    grub_gpt_disk_size_valid disk
    && (u64 (disk_total_sectors disk - 1) >? backup_header) in
  let backup_header :=
    if relocate then u64 (disk_total_sectors disk - 1) else backup_header in
  let g := if relocate
           then set_primary (set_alternate_lba backup_header (primary g)) g
           else g in
  let g := set_backup (primary g) g in
  let g := set_backup (set_header_lba (alternate_lba (primary g)) (backup g)) g in
  let g := set_backup (set_alternate_lba (header_lba (primary g)) (backup g)) g in
  set_backup
    (set_partitions
       (u64 (backup_header - grub_gpt_size_to_sectors g (entries_size g)))
       (backup g)) g.

Definition repair_from_backup (g : grub_gpt) : grub_gpt :=
  let g := set_primary (backup g) g in
  let g := set_primary (set_header_lba (alternate_lba (backup g)) (primary g)) g in
  let g := set_primary (set_alternate_lba (header_lba (backup g)) (primary g)) g in
  set_primary (set_partitions 2 (primary g)) g.

Definition grub_gpt_repair (disk : grub_disk) (g : grub_gpt)
  : M (grub_err_t * grub_gpt) :=
  if grub_gpt_both_valid g then ret (GRUB_ERR_NONE, g)
  else if negb (disk_log_sector_size disk =? log_sector_size g)
  then
    e <- grub_error GRUB_ERR_NOT_IMPLEMENTED_YET
           "GPT sector size must match disk sector size" [] ;;
    ret (e, g)
  else if grub_gpt_primary_valid g
  then
    u <- grub_gpt_update (repair_from_primary disk g) ;;
    if failed (fst u) then e <- get_errno ;; ret (e, snd u)
    else ret (GRUB_ERR_NONE, snd u)
  else if grub_gpt_backup_valid g
  then
    u <- grub_gpt_update (repair_from_backup g) ;;
    if failed (fst u) then e <- get_errno ;; ret (e, snd u)
    else ret (GRUB_ERR_NONE, snd u)
  else
    e <- grub_error GRUB_ERR_BUG "No valid GPT" [] ;;
    ret (e, g).

Definition grub_gpt_write_table (disk : grub_disk) (g : grub_gpt)
    (header : grub_gpt_header) : M grub_err_t :=
  if negb (headersize header =? sizeof_grub_gpt_header)
  then grub_error GRUB_ERR_NOT_IMPLEMENTED_YET "Header size is %u, must be %u"
         [headersize header; sizeof_grub_gpt_header]
  else
    let addr := grub_gpt_sector_to_addr g (header_lba header) in
    if addr =? 0
    then grub_error GRUB_ERR_BUG "Refusing to write GPT header to address 0x0" []
    else
      e <- grub_disk_write disk addr 0 sizeof_grub_gpt_header (header_bytes header) ;;
      if failed e then get_errno
      else
        let addr := grub_gpt_sector_to_addr g (partitions header) in
        if addr <? 2
        then grub_error GRUB_ERR_BUG
               "Refusing to write GPT entries to address 0x%llx" [addr]
        else
          e <- grub_disk_write disk addr 0 (entries_size g) (entries g) ;;
          if failed e then get_errno
          else ret GRUB_ERR_NONE.

Definition newline : string := String (ascii_of_nat 10) EmptyString.

Definition warning_backup_beyond : string :=
  ("warning: backup GPT located at 0x%llx, beyond last disk sector at 0x%llx"
   ++ newline)%string.
Definition warning_primary_only : string :=
  ("warning: only writing primary GPT, the backup GPT must be repaired from the OS"
   ++ newline)%string.

Definition grub_gpt_write (disk : grub_disk) (g : grub_gpt) : M grub_err_t :=
  let write_primary : M grub_err_t :=
    e <- grub_gpt_write_table disk g (primary g) ;;
    if failed e then get_errno else ret GRUB_ERR_NONE in
  if negb (grub_gpt_both_valid g)
  then grub_error GRUB_ERR_BAD_PART_TABLE "Invalid GPT data" []
  else
    let backup_header := header_lba (backup g) in
    if grub_gpt_disk_size_valid disk
       && (backup_header >=? disk_total_sectors disk)
    then
      _ <- grub_printf warning_backup_beyond
             [backup_header; u64 (disk_total_sectors disk - 1)] ;;
      _ <- grub_printf warning_primary_only [] ;;
      write_primary
    else
      e <- grub_gpt_write_table disk g (backup g) ;;
      if failed e then get_errno else write_primary.

(** ** A sample medium

    2048 sectors of 512 bytes: protective MBR, primary header at sector 1
    with its 128 entries of 128 bytes from sector 2, usable sectors 34 to
    2014, backup entries from sector 2015 and backup header at sector
    2047.  All entries are unused (zero). *)

Definition sample_guid : grub_gpt_guid :=
  {| data1 := 0x01234567; data2 := 0x89ab; data3 := 0xcdef;
     data4 := ["001"; "002"; "003"; "004"; "005"; "006"; "007"; "008"]%byte |}.

Definition sample_entries : list byte := zero_bytes (Z.to_nat 16384).

Definition seal (h : grub_gpt_header) : grub_gpt_header :=
  set_crc32 (grub_gpt_header_lecrc32 h) h.

Definition sample_primary : grub_gpt_header :=
  seal {| magic := grub_gpt_magic; version := GRUB_GPT_HEADER_VERSION;
          headersize := 92; crc32 := 0; unused1 := 0;
          header_lba := 1; alternate_lba := 2047; start := 34; end_ := 2014;
          guid := sample_guid; partitions := 2; maxpart := 128;
          partentry_size := 128;
          partentry_crc32 := grub_gpt_lecrc32 sample_entries 16384 |}.

Definition sample_backup : grub_gpt_header :=
  seal (set_partitions 2015
          (set_alternate_lba 1 (set_header_lba 2047 sample_primary))).

Definition sample_disk : grub_disk :=
  {| disk_log_sector_size := 9; disk_total_sectors := 2048 |}.

Definition byte_in (bs : list byte) (base a : Z) (otherwise : byte) : byte :=
  if (base <=? a) && (a <? base + Z.of_nat (List.length bs))
  then nth (Z.to_nat (a - base)) bs "000"%byte
  else otherwise.

Definition sample_mbr_byte (a : Z) : byte :=
  if a =? 450 then "238"%byte
  else if a =? 510 then "085"%byte
  else if a =? 511 then "170"%byte
  else "000"%byte.

Definition medium_of (p b : grub_gpt_header) : Z -> byte :=
  let pb := header_bytes p in
  let bb := header_bytes b in
  fun a => byte_in pb 512 a (byte_in bb (2047 * 512) a (sample_mbr_byte a)).

Definition world_of (m : Z -> byte) : grub_world :=
  {| grub_errno := GRUB_ERR_NONE; grub_errmsg := ("", []);
     grub_error_stack := []; console := [];
     medium := m; io_log := [];
     read_fault := fun _ _ _ => None; write_fault := fun _ _ _ => None;
     alloc_ok := fun _ => true; stray_memory := fun _ => "000"%byte |}.

Definition sample_world : grub_world := world_of (medium_of sample_primary sample_backup).

(** The handle a clean read of the sample medium produces. *)
Definition sample_gpt : grub_gpt :=
  {| status := 0x3d; mbr := medium_bytes (medium sample_world) 0 0 512;
     primary := sample_primary; backup := sample_backup;
     entries := sample_entries; entries_size := 16384;
     log_sector_size := 9 |}.


(** The same medium seen through 4096-byte sectors. *)
Definition sample_disk_4k : grub_disk :=
  {| disk_log_sector_size := 12; disk_total_sectors := 256 |}.

Definition sample_gpt_4k : grub_gpt := set_log_sector_size 12 sample_gpt.

(** A medium half the size the sample table was laid out for. *)
Definition sample_disk_small : grub_disk :=
  {| disk_log_sector_size := 9; disk_total_sectors := 1024 |}.

(** The sample handle with its backup header wiped. *)
Definition sample_gpt_no_backup : grub_gpt := set_backup zero_header sample_gpt.

(** The sample medium after it has grown to twice its size. *)
Definition sample_disk_grown : grub_disk :=
  {| disk_log_sector_size := 9; disk_total_sectors := 4096 |}.

(** Handles in which one copy only has validated. *)
Definition sample_gpt_primary_only : grub_gpt := set_status 0x0d sample_gpt.
Definition sample_gpt_backup_only : grub_gpt := set_status 0x31 sample_gpt.

(** A header that announces 65536 entries of 65536 bytes each. *)
Definition wide_header : grub_gpt_header :=
  seal {| magic := grub_gpt_magic; version := GRUB_GPT_HEADER_VERSION;
          headersize := 92; crc32 := 0; unused1 := 0;
          header_lba := 1; alternate_lba := 0x7fffffffffff;
          start := 0x1000000; end_ := 0x7fffff000000;
          guid := sample_guid; partitions := 2; maxpart := 65536;
          partentry_size := 65536;
          partentry_crc32 := 0 |}.

(** A device that does not report its size ([GRUB_DISK_SIZE_UNKNOWN]). *)
Definition sample_disk_unsized : grub_disk :=
  {| disk_log_sector_size := 9; disk_total_sectors := 0xffffffffffffffff |}.






(** The sample medium with no GPT header at either end, and with none at
    the start only. *)
Definition blank_world : grub_world := world_of (medium_of zero_header zero_header).
Definition backup_only_world : grub_world := world_of (medium_of zero_header sample_backup).

(** The handle as the MBR stage of [grub_gpt_read] leaves it on the
    sample media. *)
Definition sample_mbr_gpt : grub_gpt :=
  or_status GRUB_GPT_PROTECTIVE_MBR
    (set_mbr (medium_bytes (medium sample_world) 0 0 512) zero_gpt).

(** The sample medium with a damaged primary entry array: the first byte
    of sector 2 is not zero, so the array fails its CRC-32 while the
    primary header is intact. *)
Definition bad_entries_medium : Z -> byte :=
  let m := medium_of sample_primary sample_backup in
  fun a => if a =? 2 * 512 then "001"%byte else m a.

Definition bad_entries_world : grub_world := world_of bad_entries_medium.

(** The sample medium with sector 0 wiped: both copies of the table are
    in place and there is no protective MBR. *)
Definition no_mbr_medium : Z -> byte :=
  let m := medium_of sample_primary sample_backup in
  fun a => if a <? 512 then "000"%byte else m a.

Definition no_mbr_world : grub_world := world_of no_mbr_medium.
(** ** Notions of the specification *)

(** The seven defects of section 4.2, in the words of the specification. *)
Definition spec_header_invalid (h : grub_gpt_header) (log_sector_size : Z) : Prop :=
  magic h <> grub_gpt_magic
  \/ version h <> 0x00010000
  \/ grub_crypto_hash_crc32 (header_bytes (set_crc32 0 h)) <> crc32 h
  \/ (headersize h < 92 \/ headersize h > 2 ^ log_sector_size)
  \/ (partentry_size h < 128
      \/ partentry_size h mod 128 <> 0
      \/ ~ (exists k, 0 <= k /\ partentry_size h / 128 = 2 ^ k))
  \/ maxpart h * partentry_size h < 16384
  \/ start h > end_ h.

Definition is_prefix {A : Type} (p l : list A) : Prop := exists s, l = p ++ s.

(** The two requests that put one copy on the medium: its header, then
    the entry array. *)
Definition table_requests (g : grub_gpt) (h : grub_gpt_header) : list io_event :=
  [IoWrite (grub_gpt_sector_to_addr g (header_lba h)) 0
           (firstn (Z.to_nat sizeof_grub_gpt_header) (header_bytes h));
   IoWrite (grub_gpt_sector_to_addr g (partitions h)) 0
           (firstn (Z.to_nat (entries_size g)) (entries g))].

(** One copy passes the three refusals of [grub_gpt_write_table]: native
    header size, header not at block 0, entry array not below block 2. *)
Definition table_writable (g : grub_gpt) (h : grub_gpt_header) : Prop :=
  headersize h = sizeof_grub_gpt_header
  /\ grub_gpt_sector_to_addr g (header_lba h) <> 0
  /\ 2 <= grub_gpt_sector_to_addr g (partitions h).

(** The driver serves every write. *)
Definition no_write_fault (w : grub_world) : Prop :=
  forall sector offset size, write_fault w sector offset size = None.

Definition no_valid_header : grub_msg := ("No valid GPT header", []).

Definition ceil_div (a b : Z) : Z := (a + b - 1) / b.

(** "The medium's total-sector count is known": the count, shifted to
    512-byte blocks in a 64-bit register, does not exceed 2^51. *)
Definition spec_size_known (disk : grub_disk) : Prop :=
  u64 (Z.shiftl (disk_total_sectors disk) (disk_log_sector_size disk - 9)) <= 2 ^ 51.

(** The fields one copy takes over unchanged from the other in a repair. *)
Definition copied_fields (src dst : grub_gpt_header) : Prop :=
  magic dst = magic src /\ version dst = version src
  /\ unused1 dst = unused1 src
  /\ start dst = start src /\ end_ dst = end_ src
  /\ guid dst = guid src
  /\ maxpart dst = maxpart src /\ partentry_size dst = partentry_size src.

(** Two states of a header that differ at most in the fields the updater
    recomputes. *)
Definition same_layout (a b : grub_gpt_header) : Prop :=
  copied_fields a b
  /\ header_lba b = header_lba a /\ alternate_lba b = alternate_lba a
  /\ partitions b = partitions a.

(** The functions that read a table never write to the medium, never
    print, and never push or pop the error stack: they move the error
    slot and extend the request log, nothing else. *)
Definition reads_only (w w' : grub_world) : Prop :=
  grub_error_stack w' = grub_error_stack w
  /\ console w' = console w
  /\ medium w' = medium w
  /\ read_fault w' = read_fault w
  /\ write_fault w' = write_fault w
  /\ alloc_ok w' = alloc_ok w
  /\ stray_memory w' = stray_memory w
  /\ exists t, io_log w' = io_log w ++ t.

(** The first thing a call asks of the device is the header at [sector]. *)
Definition requests_header_at (g : grub_gpt) (sector : Z) (w w' : grub_world) : Prop :=
  exists rest,
    io_log w' = io_log w
                ++ IoRead (grub_gpt_sector_to_addr g sector) 0 sizeof_grub_gpt_header
                :: rest.

Definition backup_beyond_disk : string :=
  "backup GPT located at 0x%llx, beyond last disk sector at 0x%llx".
Definition size_unknown : string :=
  "size of disk unknown, cannot locate backup GPT".




(** The attempt on the backup copy inside [grub_gpt_read]: it follows the
    attempt on the primary, after a push of the error slot if that one
    failed. *)
Definition backup_attempt (disk : grub_disk) (g : grub_gpt) (w : grub_world)
  : (grub_err_t * grub_gpt) * grub_world :=
  let p := grub_gpt_read_primary disk g w in
  grub_gpt_read_backup disk (snd (fst p))
    (if failed (fst (fst p)) then snd (grub_error_push (snd p)) else snd p).


(** ** Notions used by the further properties *)

(** What a validation routine of gpt.c does to the environment: nothing
    when it accepts, and an error of kind BAD_PART_TABLE in the slot when
    it refuses. *)
Definition check_result (r : option grub_msg) (w : grub_world)
  : grub_err_t * grub_world :=
  match r with
  | None => (GRUB_ERR_NONE, w)
  | Some m => (GRUB_ERR_BAD_PART_TABLE, with_error GRUB_ERR_BAD_PART_TABLE m w)
  end.

(** The handle [grub_gpt_update] validates: status bits cleared, header
    sizes set and the three checksums recomputed. *)
Definition update_reseal (g : grub_gpt) : grub_gpt :=
  let g := clear_status (Z.lor (Z.lor (Z.lor GRUB_GPT_PRIMARY_HEADER_VALID
                                               GRUB_GPT_PRIMARY_ENTRIES_VALID)
                                        GRUB_GPT_BACKUP_HEADER_VALID)
                                 GRUB_GPT_BACKUP_ENTRIES_VALID) g in
  let g := set_primary (set_headersize sizeof_grub_gpt_header (primary g)) g in
  let g := set_backup (set_headersize sizeof_grub_gpt_header (backup g)) g in
  let crc := grub_gpt_lecrc32 (entries g) (entries_size g) in
  let g := set_primary (set_partentry_crc32 crc (primary g)) g in
  let g := set_backup (set_partentry_crc32 crc (backup g)) g in
  let g := set_primary (set_crc32 (grub_gpt_header_lecrc32 (primary g)) (primary g)) g in
  set_backup (set_crc32 (grub_gpt_header_lecrc32 (backup g)) (backup g)) g.

Definition primary_bits : Z :=
  Z.lor GRUB_GPT_PRIMARY_HEADER_VALID GRUB_GPT_PRIMARY_ENTRIES_VALID.
Definition backup_bits : Z :=
  Z.lor GRUB_GPT_BACKUP_HEADER_VALID GRUB_GPT_BACKUP_ENTRIES_VALID.

Definition invalid_primary_generated : grub_msg :=
  ("Generated invalid GPT primary header", []).
Definition invalid_backup_generated : grub_msg :=
  ("Generated invalid GPT backup header", []).

(** A request that leaves sector 0 alone: a write that starts at a block
    address of 1 or more. *)
Definition above_sector_zero (ev : io_event) : Prop :=
  match ev with
  | IoWrite sector offset _ => 1 <= sector /\ offset = 0
  | IoRead _ _ _ => False
  end.

(** The environment after a call agrees with the one before on the first
    512 bytes of the medium, and the call has only sent writes that start
    past them. *)
Definition spares_sector_zero (w w' : grub_world) : Prop :=
  (forall a, a < 512 -> medium w' a = medium w a)
  /\ exists t, io_log w' = io_log w ++ t /\ Forall above_sector_zero t.

(** The text [grub_gpt_guid_to_str] prints for a GUID. *)
Definition guid_text (g : grub_gpt_guid) : string :=
  (hex_fixed 8 (data1 g) ++ "-" ++ hex_fixed 4 (data2 g) ++ "-"
   ++ hex_fixed 4 (data3 g) ++ "-"
   ++ hex_byte_at (data4 g) 0 ++ hex_byte_at (data4 g) 1 ++ "-"
   ++ hex_byte_at (data4 g) 2 ++ hex_byte_at (data4 g) 3
   ++ hex_byte_at (data4 g) 4 ++ hex_byte_at (data4 g) 5
   ++ hex_byte_at (data4 g) 6 ++ hex_byte_at (data4 g) 7)%string.

(** Reading hexadecimal text back. *)
Fixpoint digit_index (c : ascii) (l : list ascii) (i : Z) : Z :=
  match l with
  | [] => i
  | x :: rest => if Ascii.eqb c x then i else digit_index c rest (i + 1)
  end.

Definition hex_digit_value (c : ascii) : Z :=
  digit_index c
    ["0"; "1"; "2"; "3"; "4"; "5"; "6"; "7"; "8"; "9";
     "a"; "b"; "c"; "d"; "e"; "f"]%char 0.

Fixpoint hex_value (s : string) (acc : Z) : Z :=
  match s with
  | EmptyString => acc
  | String c rest => hex_value rest (16 * acc + hex_digit_value c)
  end.

(** The entry array held by a handle is the one header [h] describes:
    its length is the product of the header's count and entry size, with
    no wrap, its checksum is the one the header records, and its size
    fits 32 bits. *)
Definition entries_fit (h : grub_gpt_header) (g : grub_gpt) : Prop :=
  128 <= partentry_size h
  /\ 0 <= maxpart h
  /\ entries_size g = maxpart h * partentry_size h
  /\ Z.of_nat (List.length (entries g)) = entries_size g
  /\ grub_crypto_hash_crc32 (entries g) = partentry_crc32 h
  /\ entries_size g < 2 ^ 32.

(** What the status bits of a handle promise about its other fields: an
    entries bit comes with the header bit of its copy and with an entry
    array that fits that header, and two valid headers mirror each other. *)
Definition handle_sound (g : grub_gpt) : Prop :=
  (status_has g GRUB_GPT_PRIMARY_ENTRIES_VALID = true ->
   status_has g GRUB_GPT_PRIMARY_HEADER_VALID = true /\ entries_fit (primary g) g)
  /\ (status_has g GRUB_GPT_BACKUP_ENTRIES_VALID = true ->
      status_has g GRUB_GPT_BACKUP_HEADER_VALID = true /\ entries_fit (backup g) g)
  /\ (status_has g GRUB_GPT_PRIMARY_HEADER_VALID = true ->
      status_has g GRUB_GPT_BACKUP_HEADER_VALID = true ->
      grub_gpt_headers_equal g = true).

(** No copy has been read into the handle yet. *)
Definition no_copy_read (g : grub_gpt) : Prop :=
  status_has g GRUB_GPT_PRIMARY_HEADER_VALID = false
  /\ status_has g GRUB_GPT_PRIMARY_ENTRIES_VALID = false
  /\ status_has g GRUB_GPT_BACKUP_HEADER_VALID = false
  /\ status_has g GRUB_GPT_BACKUP_ENTRIES_VALID = false.

(** The driver and the allocator refuse nothing. *)
Definition quiet (w : grub_world) : Prop :=
  (forall s o n, read_fault w s o n = None)
  /\ (forall s o n, write_fault w s o n = None)
  /\ (forall n, alloc_ok w n = true).

(** The sectors the two copies name lie below [bound]. *)
Definition table_below (g : grub_gpt) (bound : Z) : Prop :=
  partitions (primary g) < bound
  /\ partitions (backup g) < bound
  /\ header_lba (backup g) < bound.
(** * Properties *)

(** ** Fixed-width arithmetic *)

Lemma u32_small x : is_u32 x -> u32 x = x.
Proof. unfold is_u32, u32. intros H. apply Z.mod_small. exact H. Qed.

Lemma u64_small x : is_u64 x -> u64 x = x.
Proof. unfold is_u64, u64. intros H. apply Z.mod_small. exact H. Qed.

Lemma one_shl32_pow n : 0 <= n < 32 -> one_shl32 n = 2 ^ n.
Proof.
  intros H. unfold one_shl32, u32.
  rewrite Z.shiftl_1_l. apply Z.mod_small. split.
  - apply Z.pow_nonneg. lia.
  - apply Z.pow_lt_mono_r; lia.
Qed.

Lemma shl64_one_pow n : 0 <= n < 64 -> shl64 1 n = 2 ^ n.
Proof.
  intros H. unfold shl64, u64.
  rewrite Z.shiftl_1_l. apply Z.mod_small. split.
  - apply Z.pow_nonneg. lia.
  - apply Z.pow_lt_mono_r; lia.
Qed.

Lemma u32_product_is_u64 a b : is_u32 a -> is_u32 b -> is_u64 (a * b).
Proof. unfold is_u32, is_u64. intros Ha Hb. nia. Qed.

Lemma entries_size_exact h :
  header_wf h -> grub_gpt_entries_size h = maxpart h * partentry_size h.
Proof.
  intros Hwf. unfold grub_gpt_entries_size. apply u64_small.
  apply u32_product_is_u64; apply Hwf.
Qed.

(** The bit trick of [is_pow2] on a positive 32-bit number. *)
Lemma land_pred_zero_pow2 n :
  0 < n -> Z.land n (n - 1) = 0 -> n = 2 ^ Z.log2 n.
Proof.
  intros Hpos Hland.
  destruct (Z.log2_spec n Hpos) as [Hlo Hhi].
  destruct (Z.eq_dec n (2 ^ Z.log2 n)) as [E | NE]; [exact E | exfalso].
  assert (Hk : 0 <= Z.log2 n) by apply Z.log2_nonneg.
  assert (Hlog : Z.log2 (n - 1) = Z.log2 n).
  { apply Z.log2_unique; [exact Hk | ]. split; [lia | ].
    apply Z.lt_trans with n; [lia | exact Hhi]. }
  assert (Hb1 : Z.testbit n (Z.log2 n) = true) by (apply Z.bit_log2; exact Hpos).
  assert (Hb2 : Z.testbit (n - 1) (Z.log2 n) = true).
  { rewrite <- Hlog. apply Z.bit_log2.
    assert (0 < 2 ^ Z.log2 n) by (apply Z.pow_pos_nonneg; lia). lia. }
  assert (Hb : Z.testbit (Z.land n (n - 1)) (Z.log2 n) = true).
  { rewrite Z.land_spec, Hb1, Hb2. reflexivity. }
  rewrite Hland, Z.bits_0 in Hb. discriminate.
Qed.

Lemma pow2_land_pred_zero k : 0 <= k -> Z.land (2 ^ k) (2 ^ k - 1) = 0.
Proof.
  intros Hk.
  replace (2 ^ k - 1) with (Z.ones k) by (rewrite Z.ones_equiv; lia).
  rewrite Z.land_ones by exact Hk.
  apply Z.mod_same. apply Z.pow_nonzero; lia.
Qed.

Lemma is_pow2_spec n :
  0 < n < 2 ^ 32 ->
  is_pow2 n = true <-> exists k, 0 <= k /\ n = 2 ^ k.
Proof.
  intros Hn. unfold is_pow2.
  rewrite (u32_small (n - 1)) by (unfold is_u32; lia).
  rewrite Z.eqb_eq. split.
  - intros H. exists (Z.log2 n). split; [apply Z.log2_nonneg | ].
    apply land_pred_zero_pow2; [lia | exact H].
  - intros [k [Hk E]]. subst n. apply pow2_land_pred_zero. exact Hk.
Qed.

Lemma is_u16b_sound x : is_u16b x = true -> is_u16 x.
Proof. unfold is_u16b, is_u16. rewrite andb_true_iff, Z.leb_le, Z.ltb_lt. tauto. Qed.

Lemma is_u32b_sound x : is_u32b x = true -> is_u32 x.
Proof. unfold is_u32b, is_u32. rewrite andb_true_iff, Z.leb_le, Z.ltb_lt. tauto. Qed.

Lemma is_u64b_sound x : is_u64b x = true -> is_u64 x.
Proof. unfold is_u64b, is_u64. rewrite andb_true_iff, Z.leb_le, Z.ltb_lt. tauto. Qed.

Lemma guid_wfb_sound g : guid_wfb g = true -> guid_wf g.
Proof.
  unfold guid_wfb, guid_wf. rewrite !andb_true_iff, Nat.eqb_eq.
  intros [[[H1 H2] H3] H4].
  auto using is_u16b_sound, is_u32b_sound.
Qed.

Lemma header_wfb_sound h : header_wfb h = true -> header_wf h.
Proof.
  unfold header_wfb, header_wf. rewrite !andb_true_iff, Nat.eqb_eq.
  intros H. decompose [and] H.
  repeat match goal with |- _ /\ _ => split end;
    auto using is_u32b_sound, is_u64b_sound, guid_wfb_sound.
Qed.

(** ** Bytes *)

Lemma bytes_eqb_eq a b : bytes_eqb a b = true <-> a = b.
Proof.
  unfold bytes_eqb. destruct (list_eq_dec Byte.byte_eq_dec a b); split;
    intros H; try reflexivity; try assumption; try discriminate; contradiction.
Qed.

Lemma le_encode_length n x : List.length (le_encode n x) = n.
Proof.
  revert x. induction n as [| n IH]; intros x; simpl; [reflexivity | ].
  rewrite IH. reflexivity.
Qed.

Lemma header_bytes_length h :
  header_wf h -> List.length (header_bytes h) = 92%nat.
Proof.
  intros [Hm [_ [_ [_ [_ [_ [_ [_ [_ [[_ [_ [_ Hg]]] _]]]]]]]]]].
  unfold header_bytes, guid_bytes.
  repeat rewrite length_app. repeat rewrite le_encode_length.
  rewrite !firstn_all2 by lia. rewrite Hm, Hg. reflexivity.
Qed.

Lemma set_crc32_wf v h : header_wf h -> is_u32 v -> header_wf (set_crc32 v h).
Proof.
  unfold header_wf. simpl. intros H Hv. intuition.
Qed.

Lemma header_lecrc32_whole h :
  header_wf h ->
  grub_gpt_header_lecrc32 h = grub_crypto_hash_crc32 (header_bytes (set_crc32 0 h)).
Proof.
  intros Hwf. unfold grub_gpt_header_lecrc32, grub_gpt_lecrc32.
  rewrite firstn_all2; [reflexivity | ].
  rewrite header_bytes_length; [unfold sizeof_grub_gpt_header; simpl; lia | ].
  apply set_crc32_wf; [exact Hwf | unfold is_u32; lia].
Qed.

Lemma magic_test h :
  header_wf h ->
  grub_memcmp_eq (magic h) grub_gpt_magic 8 = true <-> magic h = grub_gpt_magic.
Proof.
  intros [Hm _]. unfold grub_memcmp_eq. rewrite bytes_eqb_eq.
  rewrite (firstn_all2 (magic h)) by (rewrite Hm; simpl; lia).
  reflexivity.
Qed.

(** ** Header validation *)

Ltac reject D := left; split; [exact D | reflexivity].

(** The checks of [grub_gpt_header_check], one after the other, against
    the defects of the specification. *)
Lemma header_check_cases h ls w :
  header_wf h -> 0 <= ls < 32 ->
  (spec_header_invalid h ls
   /\ fst (grub_gpt_header_check h ls w) = GRUB_ERR_BAD_PART_TABLE)
  \/ (~ spec_header_invalid h ls
      /\ grub_gpt_header_check h ls w = (GRUB_ERR_NONE, w)).
Proof.
  intros Hwf Hls.
  pose proof (magic_test h Hwf) as Hm.
  pose proof (header_lecrc32_whole h Hwf) as Hc.
  pose proof (one_shl32_pow ls Hls) as Hs.
  pose proof (entries_size_exact h Hwf) as He.
  assert (Hps : is_u32 (partentry_size h)) by apply Hwf.
  unfold grub_gpt_header_check, spec_header_invalid.
  destruct (grub_memcmp_eq (magic h) grub_gpt_magic 8) eqn:Em; simpl.
  2: { assert (D : magic h <> grub_gpt_magic)
         by (intros E; apply Hm in E; congruence).
       reject (or_introl D : spec_header_invalid h ls). }
  assert (Emagic : magic h = grub_gpt_magic) by (apply Hm; reflexivity).
  destruct (Z.eqb_spec (version h) GRUB_GPT_HEADER_VERSION) as [Ev | Ev]; simpl.
  2: { reject (or_intror (or_introl Ev) : spec_header_invalid h ls). }
  destruct (Z.eqb_spec (crc32 h) (grub_gpt_header_lecrc32 h)) as [Ec | Ec]; simpl.
  2: { assert (D : grub_crypto_hash_crc32 (header_bytes (set_crc32 0 h)) <> crc32 h)
         by (rewrite <- Hc; congruence).
       reject (or_intror (or_intror (or_introl D)) : spec_header_invalid h ls). }
  rewrite Hs.
  destruct (Z.ltb_spec (headersize h) 92) as [Eh1 | Eh1]; simpl.
  { reject (or_intror (or_intror (or_intror (or_introl (or_introl Eh1))))
            : spec_header_invalid h ls). }
  destruct (Z.gtb_spec (headersize h) (2 ^ ls)) as [Eh2 | Eh2]; simpl.
  { assert (D : headersize h > 2 ^ ls) by lia.
    reject (or_intror (or_intror (or_intror (or_introl (or_intror D))))
            : spec_header_invalid h ls). }
  destruct (Z.ltb_spec (partentry_size h) 128) as [Ep1 | Ep1]; simpl.
  { reject (or_intror (or_intror (or_intror (or_intror (or_introl (or_introl Ep1)))))
            : spec_header_invalid h ls). }
  destruct (Z.eqb_spec (partentry_size h mod 128) 0) as [Ep2 | Ep2]; simpl.
  2: { reject (or_intror (or_intror (or_intror (or_intror
                 (or_introl (or_intror (or_introl Ep2))))))
               : spec_header_invalid h ls). }
  assert (Hq : 0 < partentry_size h / 128 < 2 ^ 32).
  { unfold is_u32 in Hps. split.
    - apply Z.div_str_pos. lia.
    - apply Z.div_lt_upper_bound; lia. }
  pose proof (is_pow2_spec _ Hq) as Hp2.
  destruct (is_pow2 (partentry_size h / 128)) eqn:Ep3; simpl.
  2: { assert (D : ~ (exists k, 0 <= k /\ partentry_size h / 128 = 2 ^ k)).
       { intros Hex. apply Hp2 in Hex. discriminate. }
       reject (or_intror (or_intror (or_intror (or_intror
                 (or_introl (or_intror (or_intror D))))))
               : spec_header_invalid h ls). }
  rewrite He. unfold GRUB_GPT_DEFAULT_ENTRIES_SIZE.
  destruct (Z.ltb_spec (maxpart h * partentry_size h) 16384) as [Es | Es]; simpl.
  { reject (or_intror (or_intror (or_intror (or_intror (or_intror (or_introl Es)))))
            : spec_header_invalid h ls). }
  destruct (Z.gtb_spec (start h) (end_ h)) as [Eu | Eu]; simpl.
  { assert (D : start h > end_ h) by lia.
    reject (or_intror (or_intror (or_intror (or_intror (or_intror (or_intror D)))))
            : spec_header_invalid h ls). }
  assert (Hok : ~ spec_header_invalid h ls).
  { unfold spec_header_invalid, GRUB_GPT_HEADER_VERSION in *.
    intros [D | [D | [D | [[D | D] | [[D | [D | D]] | [D | D]]]]]];
      try contradiction; try lia; try congruence.
    apply D. apply Hp2. reflexivity. }
  right. split; [exact Hok | reflexivity].
Qed.


(** C2: [grub_gpt_header_check] fails with [BAD_PART_TABLE] exactly when
    one of the seven defects of the specification is present (wrong magic,
    wrong version, header CRC mismatch, header size out of range, bad
    entry size, entry table shorter than 16384 bytes, first usable sector
    past the last one); without a defect it succeeds and leaves the error
    slot alone. *)
Theorem header_check_iff_defect h ls w :
  header_wf h -> 0 <= ls < 32 ->
  (fst (grub_gpt_header_check h ls w) = GRUB_ERR_BAD_PART_TABLE
   <-> spec_header_invalid h ls)
  /\ (~ spec_header_invalid h ls ->
      grub_gpt_header_check h ls w = (GRUB_ERR_NONE, w)).
Proof.
  intros Hwf Hls.
  destruct (header_check_cases h ls w Hwf Hls) as [[D E] | [N E]].
  - split.
    + split; [intros _; exact D | intros _; exact E].
    + intros Hn. contradiction.
  - split.
    + rewrite E. split; [discriminate | contradiction].
    + intros _. exact E.
Qed.

Lemma header_check_iff_defect_witness :
  (fst (grub_gpt_header_check sample_primary 9 sample_world) = GRUB_ERR_BAD_PART_TABLE
   <-> spec_header_invalid sample_primary 9)
  /\ (~ spec_header_invalid sample_primary 9 ->
      grub_gpt_header_check sample_primary 9 sample_world
      = (GRUB_ERR_NONE, sample_world)).
Proof.
  apply (header_check_iff_defect sample_primary 9 sample_world).
  - apply header_wfb_sound. vm_compute. reflexivity.
  - lia.
Defined.

(** ** The status bitmask *)

Lemma land_bit s k :
  0 <= k -> Z.land s (2 ^ k) = if Z.testbit s k then 2 ^ k else 0.
Proof.
  intros Hk. apply Z.bits_inj'. intros n Hn.
  rewrite Z.land_spec, Z.pow2_bits_eqb by exact Hk.
  destruct (Z.eqb_spec k n) as [E | E].
  - subst n. destruct (Z.testbit s k).
    + rewrite Z.pow2_bits_true by exact Hk. reflexivity.
    + rewrite Z.bits_0. reflexivity.
  - rewrite andb_false_r. destruct (Z.testbit s k).
    + rewrite Z.pow2_bits_false by congruence. reflexivity.
    + rewrite Z.bits_0. reflexivity.
Qed.

Lemma status_has_testbit g k :
  0 <= k -> status_has g (2 ^ k) = Z.testbit (status g) k.
Proof.
  intros Hk. unfold status_has. rewrite land_bit by exact Hk.
  destruct (Z.testbit (status g) k); [ | reflexivity].
  assert (0 < 2 ^ k) by (apply Z.pow_pos_nonneg; lia).
  destruct (Z.eqb_spec (2 ^ k) 0); [lia | reflexivity].
Qed.

Lemma has_protective_mbr g :
  status_has g GRUB_GPT_PROTECTIVE_MBR = Z.testbit (status g) 0.
Proof. apply (status_has_testbit g 0). lia. Qed.

Lemma has_primary_header g :
  status_has g GRUB_GPT_PRIMARY_HEADER_VALID = Z.testbit (status g) 2.
Proof. apply (status_has_testbit g 2). lia. Qed.

Lemma has_primary_entries g :
  status_has g GRUB_GPT_PRIMARY_ENTRIES_VALID = Z.testbit (status g) 3.
Proof. apply (status_has_testbit g 3). lia. Qed.

Lemma has_backup_header g :
  status_has g GRUB_GPT_BACKUP_HEADER_VALID = Z.testbit (status g) 4.
Proof. apply (status_has_testbit g 4). lia. Qed.

Lemma has_backup_entries g :
  status_has g GRUB_GPT_BACKUP_ENTRIES_VALID = Z.testbit (status g) 5.
Proof. apply (status_has_testbit g 5). lia. Qed.

Lemma primary_valid_bits g :
  grub_gpt_primary_valid g = Z.testbit (status g) 2 && Z.testbit (status g) 3.
Proof.
  unfold grub_gpt_primary_valid.
  change GRUB_GPT_PRIMARY_VALID with (Z.lor (2 ^ 2) (2 ^ 3)).
  rewrite Z.land_lor_distr_r, !land_bit by lia.
  destruct (Z.testbit (status g) 2), (Z.testbit (status g) 3); reflexivity.
Qed.

Lemma backup_valid_bits g :
  grub_gpt_backup_valid g = Z.testbit (status g) 4 && Z.testbit (status g) 5.
Proof.
  unfold grub_gpt_backup_valid.
  change GRUB_GPT_BACKUP_VALID with (Z.lor (2 ^ 4) (2 ^ 5)).
  rewrite Z.land_lor_distr_r, !land_bit by lia.
  destruct (Z.testbit (status g) 4), (Z.testbit (status g) 5); reflexivity.
Qed.

Lemma both_valid_bits g :
  grub_gpt_both_valid g
  = Z.testbit (status g) 2 && Z.testbit (status g) 3
    && (Z.testbit (status g) 4 && Z.testbit (status g) 5).
Proof.
  unfold grub_gpt_both_valid.
  change GRUB_GPT_BOTH_VALID
    with (Z.lor (Z.lor (2 ^ 2) (2 ^ 3)) (Z.lor (2 ^ 4) (2 ^ 5))).
  rewrite !Z.land_lor_distr_r, !land_bit by lia.
  destruct (Z.testbit (status g) 2), (Z.testbit (status g) 3),
           (Z.testbit (status g) 4), (Z.testbit (status g) 5); reflexivity.
Qed.

Lemma or_status_testbit bits g k :
  Z.testbit (status (or_status bits g)) k
  = Z.testbit (status g) k || Z.testbit bits k.
Proof. unfold or_status. simpl. apply Z.lor_spec. Qed.

Lemma clear_status_testbit bits g k :
  0 <= k ->
  Z.testbit (status (clear_status bits g)) k
  = Z.testbit (status g) k && negb (Z.testbit bits k).
Proof.
  intros Hk. unfold clear_status. simpl.
  rewrite Z.land_spec, Z.lnot_spec by exact Hk. reflexivity.
Qed.

Ltac status_bits :=
  rewrite ?has_protective_mbr, ?has_primary_header, ?has_primary_entries,
    ?has_backup_header, ?has_backup_entries,
    ?primary_valid_bits, ?backup_valid_bits, ?both_valid_bits in *.

(** ** Partition queries *)

(** C10: with neither header bit set, [grub_gpt_get_partentry] returns
    NULL for every index and raises BUG "No valid GPT header", and so does
    the header lookup of [grub_gpt_disk_uuid]; with the primary header bit
    set the primary header is the one consulted, whatever the backup bits
    say. *)
Theorem header_lookup_prefers_primary g w :
  (status_has g GRUB_GPT_PRIMARY_HEADER_VALID = false ->
   status_has g GRUB_GPT_BACKUP_HEADER_VALID = false ->
   (forall n, grub_gpt_get_partentry g n w
              = (None, with_error GRUB_ERR_BUG no_valid_header w))
   /\ grub_gpt_disk_uuid_of (Some g) w
      = ((GRUB_ERR_BUG, None), with_error GRUB_ERR_BUG no_valid_header w))
  /\ (status_has g GRUB_GPT_PRIMARY_HEADER_VALID = true ->
      grub_gpt_get_header g w = (Some PrimaryHeader, w)
      /\ (forall n, grub_gpt_get_partentry g n w
                    = (if n >=? maxpart (primary g) then None
                       else Some (u64 (partentry_size (primary g) * n)), w))
      /\ grub_gpt_disk_uuid_of (Some g) w
         = (let (s, w') := grub_gpt_guid_to_str (guid (primary g)) w in
            ((grub_errno w', s), w'))).
Proof.
  split.
  - intros Hp Hb. split; [intros n | ].
    + unfold grub_gpt_get_partentry, grub_gpt_get_header, bind.
      rewrite Hp, Hb. reflexivity.
    + unfold grub_gpt_disk_uuid_of, grub_gpt_get_header, bind.
      rewrite Hp, Hb. reflexivity.
  - intros Hp. split; [ | split; [intros n | ]].
    + unfold grub_gpt_get_header. rewrite Hp. reflexivity.
    + unfold grub_gpt_get_partentry, grub_gpt_get_header, bind, ret.
      rewrite Hp. simpl.
      destruct (n >=? maxpart (primary g)); reflexivity.
    + unfold grub_gpt_disk_uuid_of, grub_gpt_get_header, bind, ret.
      rewrite Hp. simpl.
      destruct (grub_gpt_guid_to_str (guid (primary g)) w) as [s w'].
      reflexivity.
Qed.

Lemma header_lookup_prefers_primary_witness :
  ((forall n, grub_gpt_get_partentry zero_gpt n sample_world
              = (None, with_error GRUB_ERR_BUG no_valid_header sample_world))
   /\ grub_gpt_disk_uuid_of (Some zero_gpt) sample_world
      = ((GRUB_ERR_BUG, None), with_error GRUB_ERR_BUG no_valid_header sample_world))
  /\ grub_gpt_get_header sample_gpt sample_world = (Some PrimaryHeader, sample_world).
Proof.
  split.
  - apply (proj1 (header_lookup_prefers_primary zero_gpt sample_world));
      reflexivity.
  - apply (proj2 (header_lookup_prefers_primary sample_gpt sample_world)).
    reflexivity.
Defined.

(** ** Writing *)

Lemma failed_true e : failed e = true -> e <> GRUB_ERR_NONE.
Proof. destruct e; simpl; intros H; discriminate. Qed.

Lemma failed_false e : failed e = false -> e = GRUB_ERR_NONE.
Proof. destruct e; simpl; intros H; try discriminate; reflexivity. Qed.

Lemma sector_zero_addr g : grub_gpt_sector_to_addr g 0 = 0.
Proof.
  unfold grub_gpt_sector_to_addr, shl64, u64.
  rewrite Z.shiftl_0_l. reflexivity.
Qed.

Lemma is_prefix_nil {A} (l : list A) : is_prefix [] l.
Proof. exists l. reflexivity. Qed.

Lemma is_prefix_refl {A} (l : list A) : is_prefix l l.
Proof. exists []. symmetry. apply app_nil_r. Qed.

Lemma is_prefix_one {A} (a b : A) : is_prefix [a] [a; b].
Proof. exists [b]. reflexivity. Qed.

Ltac effect_done :=
  repeat match goal with |- _ /\ _ => split end;
  try reflexivity;
  try apply is_prefix_nil; try apply is_prefix_one; try apply is_prefix_refl;
  try (intros; discriminate); try (intros; congruence).

(** What one call of [grub_gpt_write_table] does to the environment: it
    sends a prefix of the copy's two requests, all of them on success,
    prints nothing, and a failure is left in the error slot. *)
Lemma write_table_effect disk g h w :
  exists t,
    io_log (snd (grub_gpt_write_table disk g h w)) = io_log w ++ t
    /\ is_prefix t (table_requests g h)
    /\ console (snd (grub_gpt_write_table disk g h w)) = console w
    /\ (fst (grub_gpt_write_table disk g h w) = GRUB_ERR_NONE ->
        t = table_requests g h)
    /\ (fst (grub_gpt_write_table disk g h w) <> GRUB_ERR_NONE ->
        grub_errno (snd (grub_gpt_write_table disk g h w))
        = fst (grub_gpt_write_table disk g h w)).
Proof.
  unfold grub_gpt_write_table, table_requests.
  destruct (headersize h =? sizeof_grub_gpt_header); simpl.
  2: { exists []. rewrite app_nil_r. effect_done. }
  destruct (grub_gpt_sector_to_addr g (header_lba h) =? 0); simpl.
  { exists []. rewrite app_nil_r. effect_done. }
  unfold bind, grub_disk_write.
  destruct (write_fault w (grub_gpt_sector_to_addr g (header_lba h)) 0
                        sizeof_grub_gpt_header) as [f | ] eqn:F1.
  { eexists [_]. destruct f; simpl; effect_done. }
  simpl.
  destruct (grub_gpt_sector_to_addr g (partitions h) <? 2); simpl.
  { eexists [_]. effect_done. }
  destruct (write_fault w (grub_gpt_sector_to_addr g (partitions h)) 0
                        (entries_size g)) as [f | ] eqn:F2.
  { eexists [_; _]. destruct f; simpl; rewrite <- app_assoc; simpl; effect_done. }
  simpl. eexists [_; _]. rewrite <- app_assoc. simpl. effect_done.
Qed.

(** C9, as the code has it: a header whose size is not the native 92
    bytes is refused with NOT_IMPLEMENTED_YET, and a header at sector 0
    with BUG, both before anything is written for that copy; the entry
    array is refused with BUG when the block address of its sector is
    below 2, and that refusal comes after the header of the copy has been
    written, so the log then holds the header write alone. *)
Theorem write_table_refusals disk g h w :
  (headersize h <> sizeof_grub_gpt_header ->
   grub_gpt_write_table disk g h w
   = (GRUB_ERR_NOT_IMPLEMENTED_YET,
      with_error GRUB_ERR_NOT_IMPLEMENTED_YET
        ("Header size is %u, must be %u", [headersize h; sizeof_grub_gpt_header]) w))
  /\ (headersize h = sizeof_grub_gpt_header -> header_lba h = 0 ->
      grub_gpt_write_table disk g h w
      = (GRUB_ERR_BUG,
         with_error GRUB_ERR_BUG
           ("Refusing to write GPT header to address 0x0", []) w))
  /\ (headersize h = sizeof_grub_gpt_header ->
      grub_gpt_sector_to_addr g (header_lba h) <> 0 ->
      write_fault w (grub_gpt_sector_to_addr g (header_lba h)) 0
                  sizeof_grub_gpt_header = None ->
      grub_gpt_sector_to_addr g (partitions h) < 2 ->
      fst (grub_gpt_write_table disk g h w) = GRUB_ERR_BUG
      /\ io_log (snd (grub_gpt_write_table disk g h w))
         = io_log w ++ [IoWrite (grub_gpt_sector_to_addr g (header_lba h)) 0
                          (firstn (Z.to_nat sizeof_grub_gpt_header) (header_bytes h))]).
Proof.
  unfold grub_gpt_write_table. split; [ | split].
  - intros Hs. destruct (Z.eqb_spec (headersize h) sizeof_grub_gpt_header);
      [contradiction | reflexivity].
  - intros Hs Hl. rewrite Hs, Z.eqb_refl, Hl, sector_zero_addr. reflexivity.
  - intros Hs Ha Hf Hp. rewrite Hs, Z.eqb_refl. simpl.
    destruct (Z.eqb_spec (grub_gpt_sector_to_addr g (header_lba h)) 0);
      [contradiction | ].
    unfold bind, grub_disk_write. rewrite Hf. simpl.
    destruct (Z.ltb_spec (grub_gpt_sector_to_addr g (partitions h)) 2); [ | lia].
    split; reflexivity.
Qed.

Lemma write_table_refusals_witness :
  grub_gpt_write_table sample_disk sample_gpt (set_headersize 512 sample_primary)
                       sample_world
  = (GRUB_ERR_NOT_IMPLEMENTED_YET,
     with_error GRUB_ERR_NOT_IMPLEMENTED_YET
       ("Header size is %u, must be %u", [512; sizeof_grub_gpt_header]) sample_world)
  /\ grub_gpt_write_table sample_disk sample_gpt (set_header_lba 0 sample_primary)
                          sample_world
     = (GRUB_ERR_BUG,
        with_error GRUB_ERR_BUG
          ("Refusing to write GPT header to address 0x0", []) sample_world)
  /\ fst (grub_gpt_write_table sample_disk sample_gpt
                               (set_partitions 1 sample_primary) sample_world)
     = GRUB_ERR_BUG.
Proof.
  split; [ | split].
  - apply (proj1 (write_table_refusals sample_disk sample_gpt
                    (set_headersize 512 sample_primary) sample_world)).
    vm_compute. discriminate.
  - apply (proj1 (proj2 (write_table_refusals sample_disk sample_gpt
                           (set_header_lba 0 sample_primary) sample_world)));
      reflexivity.
  - apply (proj2 (proj2 (write_table_refusals sample_disk sample_gpt
                           (set_partitions 1 sample_primary) sample_world)));
      vm_compute; congruence.
Defined.

(** C9 as stated fails twice.  On 512-byte sectors an entry array at
    sector 0 is refused with BUG only after the header of that copy has
    gone to the medium; and on 4096-byte sectors an entry array at sector
    1 is not refused at all: its block address is 8. *)
Lemma write_table_refusal_counterexample :
  (partitions (set_partitions 0 sample_primary) < 2
   /\ fst (grub_gpt_write_table sample_disk sample_gpt
             (set_partitions 0 sample_primary) sample_world) = GRUB_ERR_BUG
   /\ io_log (snd (grub_gpt_write_table sample_disk sample_gpt
                     (set_partitions 0 sample_primary) sample_world))
      = [IoWrite 1 0 (header_bytes (set_partitions 0 sample_primary))])
  /\ (partitions (set_partitions 1 sample_primary) < 2
      /\ fst (grub_gpt_write_table sample_disk_4k sample_gpt_4k
                (set_partitions 1 sample_primary) sample_world) = GRUB_ERR_NONE
      /\ io_log (snd (grub_gpt_write_table sample_disk_4k sample_gpt_4k
                        (set_partitions 1 sample_primary) sample_world))
         = [IoWrite 8 0 (header_bytes (set_partitions 1 sample_primary));
            IoWrite 8 0 sample_entries]).
Proof.
  vm_compute. repeat split.
Qed.

Lemma write_table_errno disk g h w :
  failed (fst (grub_gpt_write_table disk g h w)) = true ->
  grub_errno (snd (grub_gpt_write_table disk g h w))
  = fst (grub_gpt_write_table disk g h w).
Proof.
  intros F. destruct (write_table_effect disk g h w) as (t & _ & _ & _ & _ & E).
  apply E. intros N. rewrite N in F. discriminate.
Qed.

Lemma write_table_console_blind disk g h c w :
  grub_gpt_write_table disk g h (with_console c w)
  = (fst (grub_gpt_write_table disk g h w),
     with_console c (snd (grub_gpt_write_table disk g h w))).
Proof.
  unfold grub_gpt_write_table, bind, grub_error, get_errno, ret, grub_disk_write.
  cbv zeta.
  destruct (negb (headersize h =? sizeof_grub_gpt_header)); [reflexivity | ].
  destruct (grub_gpt_sector_to_addr g (header_lba h) =? 0); [reflexivity | ].
  cbv beta.
  change (write_fault (with_console c w)) with (write_fault w).
  destruct (write_fault w (grub_gpt_sector_to_addr g (header_lba h)) 0
                        sizeof_grub_gpt_header) as [f | ].
  { destruct f; reflexivity. }
  cbn [fst snd failed grub_err_eqb negb].
  destruct (grub_gpt_sector_to_addr g (partitions h) <? 2); [reflexivity | ].
  cbv beta.
  cbn [write_fault with_io with_console].
  destruct (write_fault w (grub_gpt_sector_to_addr g (partitions h)) 0
                        (entries_size g)) as [f | ].
  { destruct f; reflexivity. }
  reflexivity.
Qed.

Lemma write_table_keeps_faults disk g h w :
  no_write_fault w -> no_write_fault (snd (grub_gpt_write_table disk g h w)).
Proof.
  intros N.
  unfold grub_gpt_write_table, bind, grub_error, get_errno, ret, grub_disk_write.
  cbv zeta.
  destruct (negb (headersize h =? sizeof_grub_gpt_header)); [exact N | ].
  destruct (grub_gpt_sector_to_addr g (header_lba h) =? 0); [exact N | ].
  cbv beta.
  destruct (write_fault w (grub_gpt_sector_to_addr g (header_lba h)) 0
                        sizeof_grub_gpt_header) as [f | ].
  { destruct f; exact N. }
  cbn [fst snd failed grub_err_eqb negb].
  destruct (grub_gpt_sector_to_addr g (partitions h) <? 2); [exact N | ].
  cbv beta. cbn [write_fault with_io].
  destruct (write_fault w (grub_gpt_sector_to_addr g (partitions h)) 0
                        (entries_size g)) as [f | ].
  { destruct f; exact N. }
  exact N.
Qed.

Lemma write_table_succeeds disk g h w :
  no_write_fault w -> table_writable g h ->
  fst (grub_gpt_write_table disk g h w) = GRUB_ERR_NONE.
Proof.
  intros N (Hs & Ha & Hp). unfold no_write_fault in N.
  unfold grub_gpt_write_table, bind, grub_error, get_errno, ret, grub_disk_write.
  cbv zeta. rewrite Hs, Z.eqb_refl. cbn [negb].
  destruct (Z.eqb_spec (grub_gpt_sector_to_addr g (header_lba h)) 0);
    [contradiction | ].
  cbv beta. rewrite N. cbn [fst snd failed grub_err_eqb negb].
  destruct (Z.ltb_spec (grub_gpt_sector_to_addr g (partitions h)) 2); [lia | ].
  cbv beta. cbn [write_fault with_io]. rewrite N. reflexivity.
Qed.

(** C3: with all four bits set and the backup header within the medium
    (or the size of the medium unknown), [grub_gpt_write] first does what
    [grub_gpt_write_table] does for the backup copy; if that fails the
    call ends there, with that error and with the log and the medium as
    the backup attempt left them; if it succeeds the call goes on with
    [grub_gpt_write_table] for the primary copy and ends as that one does.
    So the requests of the backup copy come before those of the primary
    copy.  When the size of the medium is known and the backup header lies
    at or beyond it, the two warning lines are printed and the call does
    for the device what [grub_gpt_write_table] does for the primary copy
    alone.  In both cases a driver that serves every write and copies that
    pass the refusals of [grub_gpt_write_table] give success, with all the
    requests sent.  In any other state of the bitmask the call fails with
    BAD_PART_TABLE and sends no request. *)
Theorem write_backup_then_primary disk g w :
  let rb := grub_gpt_write_table disk g (backup g) w in
  let rp := grub_gpt_write_table disk g (primary g) (snd rb) in
  let ro := grub_gpt_write_table disk g (primary g) w in
  let r := grub_gpt_write disk g w in
  (status_has g GRUB_GPT_PRIMARY_HEADER_VALID = true ->
   status_has g GRUB_GPT_PRIMARY_ENTRIES_VALID = true ->
   status_has g GRUB_GPT_BACKUP_HEADER_VALID = true ->
   status_has g GRUB_GPT_BACKUP_ENTRIES_VALID = true ->
   (~ (grub_gpt_disk_size_valid disk = true
       /\ header_lba (backup g) >= disk_total_sectors disk) ->
    (failed (fst rb) = true ->
     fst r = fst rb /\ grub_errno (snd r) = fst rb
     /\ io_log (snd r) = io_log (snd rb) /\ medium (snd r) = medium (snd rb))
    /\ (failed (fst rb) = false ->
        fst r = fst rp
        /\ io_log (snd r) = io_log (snd rp) /\ medium (snd r) = medium (snd rp))
    /\ (exists tb tp,
          io_log (snd r) = io_log w ++ tb ++ tp
          /\ io_log (snd rb) = io_log w ++ tb
          /\ is_prefix tb (table_requests g (backup g))
          /\ is_prefix tp (table_requests g (primary g))
          /\ (fst rb <> GRUB_ERR_NONE -> tp = [] /\ fst r = fst rb)
          /\ (fst rb = GRUB_ERR_NONE -> tb = table_requests g (backup g))
          /\ (fst r = GRUB_ERR_NONE ->
              tb = table_requests g (backup g)
              /\ tp = table_requests g (primary g)))
    /\ (no_write_fault w ->
        table_writable g (backup g) -> table_writable g (primary g) ->
        fst r = GRUB_ERR_NONE
        /\ io_log (snd r)
           = io_log w ++ table_requests g (backup g)
                      ++ table_requests g (primary g)))
   /\ (grub_gpt_disk_size_valid disk = true ->
       header_lba (backup g) >= disk_total_sectors disk ->
       fst r = fst ro
       /\ io_log (snd r) = io_log (snd ro) /\ medium (snd r) = medium (snd ro)
       /\ (exists tp,
             io_log (snd r) = io_log w ++ tp
             /\ is_prefix tp (table_requests g (primary g))
             /\ (fst r = GRUB_ERR_NONE -> tp = table_requests g (primary g)))
       /\ (exists rest,
             console (snd r)
             = console w
               ++ [(warning_backup_beyond,
                    [header_lba (backup g); u64 (disk_total_sectors disk - 1)]);
                   (warning_primary_only, [])] ++ rest)
       /\ (no_write_fault w -> table_writable g (primary g) ->
           fst r = GRUB_ERR_NONE
           /\ io_log (snd r) = io_log w ++ table_requests g (primary g))))
  /\ (status_has g GRUB_GPT_PRIMARY_HEADER_VALID
      && status_has g GRUB_GPT_PRIMARY_ENTRIES_VALID
      && status_has g GRUB_GPT_BACKUP_HEADER_VALID
      && status_has g GRUB_GPT_BACKUP_ENTRIES_VALID = false ->
      r = (GRUB_ERR_BAD_PART_TABLE,
           with_error GRUB_ERR_BAD_PART_TABLE ("Invalid GPT data", []) w)).
Proof.
  cbv zeta. split.
  - intros H1 H2 H3 H4.
    assert (Hboth : grub_gpt_both_valid g = true).
    { status_bits. rewrite H1, H2, H3, H4. reflexivity. }
    unfold grub_gpt_write. rewrite Hboth. cbn [negb]. cbv zeta. split.
    + intros Hnot.
      assert (Hc : grub_gpt_disk_size_valid disk
                   && (header_lba (backup g) >=? disk_total_sectors disk) = false).
      { destruct (grub_gpt_disk_size_valid disk); [ | reflexivity]. simpl.
        destruct (Z.geb_spec (header_lba (backup g)) (disk_total_sectors disk));
          [ | reflexivity].
        exfalso. apply Hnot. split; [reflexivity | lia]. }
      rewrite Hc. unfold bind, get_errno, ret.
      destruct (write_table_effect disk g (backup g) w)
        as (tb & Lb & Pb & Cb & Sb & Eb).
      pose proof (write_table_errno disk g (backup g) w) as Nb.
      pose proof (write_table_keeps_faults disk g (backup g) w) as Kb.
      pose proof (write_table_succeeds disk g (backup g) w) as Vb.
      destruct (grub_gpt_write_table disk g (backup g) w) as [eb wb].
      cbn [fst snd] in *.
      destruct (failed eb) eqn:Fb; cbv beta iota.
      * pose proof (failed_true _ Fb) as Xb. cbn [fst snd].
        split; [intros _; rewrite (Nb eq_refl); repeat split | ].
        split; [intros D; discriminate | ].
        split.
        { exists tb, []. rewrite app_nil_r.
          repeat match goal with |- _ /\ _ => split end;
            auto using is_prefix_nil;
            try (intros Hn; contradiction);
            try (intros _; split; [reflexivity | apply (Nb eq_refl)]);
            try (intros Hn; rewrite (Nb eq_refl) in Hn; contradiction). }
        intros Nw Tb Tp. rewrite (Vb Nw Tb) in Fb. discriminate.
      * pose proof (failed_false _ Fb) as Xb. subst eb.
        destruct (write_table_effect disk g (primary g) wb)
          as (tp & Lp & Pp & Cp & Sp & Ep).
        pose proof (write_table_errno disk g (primary g) wb) as Np.
        pose proof (write_table_succeeds disk g (primary g) wb) as Vp.
        destruct (grub_gpt_write_table disk g (primary g) wb) as [ep wp].
        cbn [fst snd] in *.
        assert (Hlog : io_log wp = io_log w ++ tb ++ tp).
        { rewrite Lp, Lb, app_assoc. reflexivity. }
        destruct (failed ep) eqn:Fp; cbv beta iota; cbn [fst snd].
        -- rewrite (Np eq_refl).
          split; [intros D; discriminate | ].
          split; [intros _; repeat split | ].
          split.
          { exists tb, tp.
            repeat match goal with |- _ /\ _ => split end; auto;
              try (intros Hn; contradiction);
              try (intros Hn; split; [apply Sb; reflexivity | apply Sp; exact Hn]). }
          intros Nw Tb Tp.
          assert (Ep0 : ep = GRUB_ERR_NONE) by (apply Vp; [apply Kb; exact Nw | exact Tp]).
          split; [exact Ep0 | ].
          rewrite Hlog, (Sb eq_refl), (Sp Ep0). reflexivity.
        -- pose proof (failed_false _ Fp) as Xp. subst ep.
          split; [intros D; discriminate | ].
          split; [intros _; repeat split | ].
          split.
          { exists tb, tp.
            repeat match goal with |- _ /\ _ => split end; auto;
              try (intros Hn; contradiction);
              try (intros Hn; split; [apply Sb; reflexivity | apply Sp; exact Hn]). }
          intros Nw Tb Tp.
          assert (Ep0 : GRUB_ERR_NONE = GRUB_ERR_NONE) by (apply Vp; [apply Kb; exact Nw | exact Tp]).
          split; [exact Ep0 | ].
          rewrite Hlog, (Sb eq_refl), (Sp Ep0). reflexivity.
    + intros Hv Hge.
      assert (Hc : grub_gpt_disk_size_valid disk
                   && (header_lba (backup g) >=? disk_total_sectors disk) = true).
      { rewrite Hv. simpl. apply Z.geb_le. lia. }
      rewrite Hc. unfold bind, grub_printf, get_errno, ret. cbn [fst snd].
      cbn [console with_console].
      rewrite !write_table_console_blind. cbn [fst snd].
      destruct (write_table_effect disk g (primary g) w)
        as (tp & Lp & Pp & Cp & Sp & Ep).
      pose proof (write_table_errno disk g (primary g) w) as Np.
      pose proof (write_table_succeeds disk g (primary g) w) as Vp.
      destruct (grub_gpt_write_table disk g (primary g) w) as [ep wp].
      cbn [fst snd] in *.
      destruct (failed ep) eqn:Fp; cbv beta iota; cbn [fst snd grub_errno with_console].
      * rewrite (Np eq_refl).
        cbn [io_log medium console with_console].
        repeat match goal with |- _ /\ _ => split end; try reflexivity.
        -- exists tp. repeat split; assumption.
        -- exists []. rewrite app_nil_r, <- app_assoc. reflexivity.
        -- intros Nw Tp. split; [apply Vp; assumption | ].
           rewrite Lp, (Sp (Vp Nw Tp)). reflexivity.
      * pose proof (failed_false _ Fp) as Xp. subst ep.
        cbn [io_log medium console with_console].
        repeat match goal with |- _ /\ _ => split end; try reflexivity.
        -- exists tp. repeat split; assumption.
        -- exists []. rewrite app_nil_r, <- app_assoc. reflexivity.
        -- intros Nw Tp. split; [apply Vp; assumption | ].
           rewrite Lp, (Sp (Vp Nw Tp)). reflexivity.
  - intros Hs.
    assert (Hboth : grub_gpt_both_valid g = false).
    { status_bits. rewrite <- Hs.
      destruct (Z.testbit (status g) 2), (Z.testbit (status g) 3),
               (Z.testbit (status g) 4), (Z.testbit (status g) 5); reflexivity. }
    unfold grub_gpt_write. rewrite Hboth. reflexivity.
Qed.

Lemma write_backup_then_primary_witness :
  (fst (grub_gpt_write sample_disk sample_gpt sample_world) = GRUB_ERR_NONE
   /\ io_log (snd (grub_gpt_write sample_disk sample_gpt sample_world))
      = io_log sample_world ++ table_requests sample_gpt (backup sample_gpt)
                            ++ table_requests sample_gpt (primary sample_gpt))
  /\ (fst (grub_gpt_write sample_disk_small sample_gpt sample_world) = GRUB_ERR_NONE
      /\ io_log (snd (grub_gpt_write sample_disk_small sample_gpt sample_world))
         = io_log sample_world ++ table_requests sample_gpt (primary sample_gpt))
  /\ grub_gpt_write sample_disk zero_gpt sample_world
     = (GRUB_ERR_BAD_PART_TABLE,
        with_error GRUB_ERR_BAD_PART_TABLE ("Invalid GPT data", []) sample_world).
Proof.
  assert (Nw : no_write_fault sample_world) by (intros s o n; reflexivity).
  assert (Tb : table_writable sample_gpt (backup sample_gpt)).
  { unfold table_writable. repeat split; vm_compute; discriminate. }
  assert (Tp : table_writable sample_gpt (primary sample_gpt)).
  { unfold table_writable. repeat split; vm_compute; discriminate. }
  split; [ | split].
  - apply (proj1 (write_backup_then_primary sample_disk sample_gpt sample_world)
             eq_refl eq_refl eq_refl eq_refl); try assumption.
    vm_compute. intros [_ H]. apply H. reflexivity.
  - apply (proj1 (write_backup_then_primary sample_disk_small sample_gpt sample_world)
             eq_refl eq_refl eq_refl eq_refl); try assumption.
    + reflexivity.
    + vm_compute. discriminate.
  - apply (proj2 (write_backup_then_primary sample_disk zero_gpt sample_world)).
    reflexivity.
Defined.

(** ** The validation routines as functions of the handle *)

Lemma header_check_shape h ls :
  exists r, forall w, grub_gpt_header_check h ls w = check_result r w.
Proof.
  unfold grub_gpt_header_check, grub_error, ret.
  repeat match goal with
         | |- context [if ?c then _ else _] => destruct c
         end;
    try (eexists (Some _); intros w; reflexivity).
  exists None. intros w. reflexivity.
Qed.

Lemma check_primary_shape g :
  exists r, forall w, grub_gpt_check_primary g w = check_result r w.
Proof.
  unfold grub_gpt_check_primary, bind, grub_error, get_errno, ret. cbv zeta.
  destruct (header_check_shape (primary g) (log_sector_size g)) as [[m | ] Hh].
  - exists (Some m). intros w. rewrite Hh. reflexivity.
  - repeat match goal with
           | |- context [if ?c then _ else _] => destruct c
           end;
      try (eexists (Some _); intros w; rewrite Hh; reflexivity).
    exists None. intros w. rewrite Hh. reflexivity.
Qed.

Lemma check_backup_shape g :
  exists r, forall w, grub_gpt_check_backup g w = check_result r w.
Proof.
  unfold grub_gpt_check_backup, bind, grub_error, get_errno, ret. cbv zeta.
  destruct (header_check_shape (backup g) (log_sector_size g)) as [[m | ] Hh].
  - exists (Some m). intros w. rewrite Hh. reflexivity.
  - repeat match goal with
           | |- context [if ?c then _ else _] => destruct c
           end;
      try (eexists (Some _); intros w; rewrite Hh; reflexivity).
    exists None. intros w. rewrite Hh. reflexivity.
Qed.

Lemma update_unfold g w :
  grub_gpt_update g w
  = (let gs := update_reseal g in
     let (c1, w1) := grub_gpt_check_primary gs w in
     if failed c1
     then ((GRUB_ERR_BUG, gs),
           with_error GRUB_ERR_BUG invalid_primary_generated
             (snd (grub_error_push w1)))
     else
       let gp := or_status primary_bits gs in
       let (c2, w2) := grub_gpt_check_backup gp w1 in
       if failed c2
       then ((GRUB_ERR_BUG, gp),
             with_error GRUB_ERR_BUG invalid_backup_generated
               (snd (grub_error_push w2)))
       else ((GRUB_ERR_NONE, or_status backup_bits gp), w2)).
Proof.
  unfold grub_gpt_update, bind. cbv zeta.
  change (grub_gpt_check_primary _ w)
    with (grub_gpt_check_primary (update_reseal g) w).
  destruct (grub_gpt_check_primary (update_reseal g) w) as [c1 w1].
  destruct (failed c1); [reflexivity | ].
  change (grub_gpt_check_backup _ w1)
    with (grub_gpt_check_backup (or_status primary_bits (update_reseal g)) w1).
  destruct (grub_gpt_check_backup (or_status primary_bits (update_reseal g)) w1)
    as [c2 w2].
  destruct (failed c2); reflexivity.
Qed.

Lemma check_result_code r w w' : fst (check_result r w) = fst (check_result r w').
Proof. destruct r; reflexivity. Qed.

Lemma check_result_pass r w :
  failed (fst (check_result r w)) = false -> forall w', check_result r w' = (GRUB_ERR_NONE, w').
Proof. destruct r; simpl; intros H w'; [discriminate | reflexivity]. Qed.

(** ** The updater *)

(** C4, as the code has it: [grub_gpt_update] clears the four bits, so
    the handle it re-validates ([update_reseal]) has none of them, and
    then sets them in two steps.  When [grub_gpt_check_primary] refuses
    that handle the call ends with BUG and none of the four bits set;
    when it accepts and [grub_gpt_check_backup] refuses the handle with
    the two primary bits set, the call ends with BUG, the two primary
    bits set and the two backup bits clear; when both accept, the call
    succeeds with all four set.  The protective-MBR bit is never
    touched. *)
Theorem update_rearms_status g w :
  let gs := update_reseal g in
  let gp := or_status primary_bits gs in
  let r := grub_gpt_update g w in
  status_has (snd (fst r)) GRUB_GPT_PROTECTIVE_MBR
  = status_has g GRUB_GPT_PROTECTIVE_MBR
  /\ (status_has gs GRUB_GPT_PRIMARY_HEADER_VALID = false
      /\ status_has gs GRUB_GPT_PRIMARY_ENTRIES_VALID = false
      /\ status_has gs GRUB_GPT_BACKUP_HEADER_VALID = false
      /\ status_has gs GRUB_GPT_BACKUP_ENTRIES_VALID = false)
  /\ (failed (fst (grub_gpt_check_primary gs w)) = true ->
      fst (fst r) = GRUB_ERR_BUG
      /\ grub_errmsg (snd r) = ("Generated invalid GPT primary header", [])
      /\ status_has (snd (fst r)) GRUB_GPT_PRIMARY_HEADER_VALID = false
      /\ status_has (snd (fst r)) GRUB_GPT_PRIMARY_ENTRIES_VALID = false
      /\ status_has (snd (fst r)) GRUB_GPT_BACKUP_HEADER_VALID = false
      /\ status_has (snd (fst r)) GRUB_GPT_BACKUP_ENTRIES_VALID = false)
  /\ (failed (fst (grub_gpt_check_primary gs w)) = false ->
      failed (fst (grub_gpt_check_backup gp w)) = true ->
      fst (fst r) = GRUB_ERR_BUG
      /\ grub_errmsg (snd r) = ("Generated invalid GPT backup header", [])
      /\ status_has (snd (fst r)) GRUB_GPT_PRIMARY_HEADER_VALID = true
      /\ status_has (snd (fst r)) GRUB_GPT_PRIMARY_ENTRIES_VALID = true
      /\ status_has (snd (fst r)) GRUB_GPT_BACKUP_HEADER_VALID = false
      /\ status_has (snd (fst r)) GRUB_GPT_BACKUP_ENTRIES_VALID = false)
  /\ (failed (fst (grub_gpt_check_primary gs w)) = false ->
      failed (fst (grub_gpt_check_backup gp w)) = false ->
      fst (fst r) = GRUB_ERR_NONE
      /\ status_has (snd (fst r)) GRUB_GPT_PRIMARY_HEADER_VALID = true
      /\ status_has (snd (fst r)) GRUB_GPT_PRIMARY_ENTRIES_VALID = true
      /\ status_has (snd (fst r)) GRUB_GPT_BACKUP_HEADER_VALID = true
      /\ status_has (snd (fst r)) GRUB_GPT_BACKUP_ENTRIES_VALID = true).
Proof.
  cbv zeta. rewrite update_unfold. cbv zeta.
  set (gs := update_reseal g).
  assert (Hs : status gs = Z.land (status g) (Z.lnot 60)) by reflexivity.
  assert (T : forall k, 0 <= k ->
                Z.testbit (status gs) k = Z.testbit (status g) k && negb (Z.testbit 60 k)).
  { intros k Hk. rewrite Hs, Z.land_spec, Z.lnot_spec by exact Hk. reflexivity. }
  set (gp := or_status primary_bits gs).
  assert (Tp : forall k, 0 <= k ->
                 Z.testbit (status gp) k
                 = Z.testbit (status g) k && negb (Z.testbit 60 k) || Z.testbit 12 k).
  { intros k Hk. unfold gp. rewrite or_status_testbit, T by exact Hk. reflexivity. }
  destruct (check_primary_shape gs) as [r1 H1].
  destruct (check_backup_shape gp) as [r2 H2].
  rewrite !H1, !H2.
  split; [ | split].
  - destruct r1 as [m1 | ]; cbn [check_result failed grub_err_eqb negb fst snd].
    + status_bits. rewrite T by lia. simpl. apply andb_true_r.
    + rewrite H2.
      destruct r2 as [m2 | ]; cbn [check_result failed grub_err_eqb negb fst snd];
        status_bits; rewrite ?or_status_testbit, Tp by lia; simpl;
        rewrite ?orb_false_r; apply andb_true_r.
  - status_bits. rewrite !T by lia. simpl. rewrite !andb_false_r. repeat split.
  - destruct r1 as [m1 | ]; cbn [check_result failed grub_err_eqb negb fst snd].
    + split; [intros _ | split; intros D; discriminate].
      status_bits. rewrite !T by lia. simpl. rewrite !andb_false_r. repeat split.
    + split; [intros D; discriminate | ].
      rewrite H2.
      destruct r2 as [m2 | ]; cbn [check_result failed grub_err_eqb negb fst snd].
      * split; [intros _ _ | intros _ D; discriminate].
        status_bits. rewrite !Tp by lia. simpl.
        rewrite !andb_false_r, ?orb_false_r, ?orb_true_r. repeat split.
      * split; [intros _ D; discriminate | intros _ _].
        status_bits. rewrite !or_status_testbit, !Tp by lia. simpl.
        rewrite !andb_false_r, ?orb_false_r, ?orb_true_r. repeat split.
Qed.

Example update_succeeds_on_sample :
  fst (fst (grub_gpt_update sample_gpt sample_world)) = GRUB_ERR_NONE.
Proof. vm_compute. reflexivity. Qed.

Example update_rejects_blank_primary :
  fst (fst (grub_gpt_update (set_primary zero_header sample_gpt) sample_world))
  = GRUB_ERR_BUG
  /\ status (snd (fst (grub_gpt_update (set_primary zero_header sample_gpt)
                                       sample_world)))
     = GRUB_GPT_PROTECTIVE_MBR.
Proof. vm_compute. split; reflexivity. Qed.

(** C4 as stated fails: a handle whose backup header is blank passes the
    re-validation of the primary and fails that of the backup, and leaves
    the updater with BUG and both primary bits set. *)
Lemma update_failure_keeps_primary_bits :
  fst (fst (grub_gpt_update sample_gpt_no_backup sample_world)) = GRUB_ERR_BUG
  /\ status_has (snd (fst (grub_gpt_update sample_gpt_no_backup sample_world)))
                GRUB_GPT_PRIMARY_HEADER_VALID = true
  /\ status_has (snd (fst (grub_gpt_update sample_gpt_no_backup sample_world)))
                GRUB_GPT_PRIMARY_ENTRIES_VALID = true.
Proof.
  vm_compute. repeat split.
Qed.

Lemma update_keeps_layout g w :
  same_layout (primary g) (primary (snd (fst (grub_gpt_update g w))))
  /\ same_layout (backup g) (backup (snd (fst (grub_gpt_update g w))))
  /\ entries (snd (fst (grub_gpt_update g w))) = entries g
  /\ entries_size (snd (fst (grub_gpt_update g w))) = entries_size g
  /\ log_sector_size (snd (fst (grub_gpt_update g w))) = log_sector_size g.
Proof.
  unfold grub_gpt_update, bind. cbv beta zeta.
  match goal with
  | |- context [grub_gpt_check_primary ?g1 w] => set (gs := g1)
  end.
  destruct (grub_gpt_check_primary gs w) as [c1 w1].
  destruct (failed c1).
  - unfold same_layout, copied_fields. repeat split.
  - match goal with
    | |- context [grub_gpt_check_backup ?g2 w1] => set (gp := g2)
    end.
    destruct (grub_gpt_check_backup gp w1) as [c2 w2].
    destruct (failed c2); unfold same_layout, copied_fields; repeat split.
Qed.

(** ** The repairer *)

Lemma disk_size_valid_known disk :
  grub_gpt_disk_size_valid disk = true <-> spec_size_known disk.
Proof.
  unfold grub_gpt_disk_size_valid, spec_size_known, shl64, GRUB_DISK_SECTOR_BITS.
  rewrite Z.shiftl_1_l.
  destruct (Z.gtb_spec
              (u64 (Z.shiftl (disk_total_sectors disk) (disk_log_sector_size disk - 9)))
              (2 ^ 51)) as [G | G];
    split; intros K; try reflexivity; try discriminate; lia.
Qed.

(** Without wrap-around the rescaled count is the plain product. *)
Lemma size_known_exact disk :
  9 <= disk_log_sector_size disk ->
  0 <= disk_total_sectors disk * 2 ^ (disk_log_sector_size disk - 9) < 2 ^ 64 ->
  spec_size_known disk
  <-> disk_total_sectors disk * 2 ^ (disk_log_sector_size disk - 9) <= 2 ^ 51.
Proof.
  intros Hls Hfit. unfold spec_size_known.
  rewrite Z.shiftl_mul_pow2 by lia.
  rewrite u64_small by exact Hfit. reflexivity.
Qed.

Lemma size_to_sectors_ceil g size :
  0 <= log_sector_size g < 32 -> is_u64 size ->
  grub_gpt_size_to_sectors g size = ceil_div size (2 ^ log_sector_size g).
Proof.
  intros Hls Hsz. unfold grub_gpt_size_to_sectors, ceil_div, is_u64 in *.
  rewrite one_shl32_pow by exact Hls.
  set (b := 2 ^ log_sector_size g).
  assert (Hb : 0 < b) by (apply Z.pow_pos_nonneg; lia).
  pose proof (Z.div_mod size b ltac:(lia)) as Hdm.
  pose proof (Z.mod_pos_bound size b Hb) as Hr.
  destruct (Z.eqb_spec (size mod b) 0) as [E | E]; simpl.
  - apply Z.div_unique with (r := b - 1); lia.
  - assert (Hq : 0 <= size / b) by (apply Z.div_pos; lia).
    assert (Hb2 : 2 <= b).
    { destruct (Z.eq_dec b 1) as [B1 | B1]; [ | lia].
      rewrite B1, Z.mod_1_r in E. contradiction. }
    rewrite u64_small by (unfold is_u64; nia).
    apply Z.div_unique with (r := size mod b - 1); lia.
Qed.

Lemma repair_from_primary_fields disk g :
  alternate_lba (primary (repair_from_primary disk g))
  = (if grub_gpt_disk_size_valid disk
        && (u64 (disk_total_sectors disk - 1) >? alternate_lba (primary g))
     then u64 (disk_total_sectors disk - 1)
     else alternate_lba (primary g))
  /\ header_lba (primary (repair_from_primary disk g)) = header_lba (primary g)
  /\ partitions (primary (repair_from_primary disk g)) = partitions (primary g)
  /\ copied_fields (primary g) (backup (repair_from_primary disk g))
  /\ header_lba (backup (repair_from_primary disk g))
     = alternate_lba (primary (repair_from_primary disk g))
  /\ alternate_lba (backup (repair_from_primary disk g)) = header_lba (primary g)
  /\ partitions (backup (repair_from_primary disk g))
     = u64 (alternate_lba (primary (repair_from_primary disk g))
            - grub_gpt_size_to_sectors g (entries_size g))
  /\ entries_size (repair_from_primary disk g) = entries_size g
  /\ log_sector_size (repair_from_primary disk g) = log_sector_size g.
Proof.
  unfold repair_from_primary, copied_fields. cbv zeta.
  destruct (grub_gpt_disk_size_valid disk
            && (u64 (disk_total_sectors disk - 1) >? alternate_lba (primary g)));
    repeat split.
Qed.

Lemma repair_from_backup_fields g :
  copied_fields (backup g) (primary (repair_from_backup g))
  /\ header_lba (primary (repair_from_backup g)) = alternate_lba (backup g)
  /\ alternate_lba (primary (repair_from_backup g)) = header_lba (backup g)
  /\ partitions (primary (repair_from_backup g)) = 2
  /\ backup (repair_from_backup g) = backup g.
Proof. unfold repair_from_backup, copied_fields. repeat split. Qed.

Lemma repair_result_primary disk g w :
  grub_gpt_both_valid g = false ->
  disk_log_sector_size disk = log_sector_size g ->
  grub_gpt_primary_valid g = true ->
  snd (fst (grub_gpt_repair disk g w))
  = snd (fst (grub_gpt_update (repair_from_primary disk g) w)).
Proof.
  intros Hb Hs Hp. unfold grub_gpt_repair.
  rewrite Hb, Hs, Z.eqb_refl, Hp. simpl. unfold bind.
  destruct (grub_gpt_update (repair_from_primary disk g) w) as [[e g1] w1].
  simpl. destruct (failed e); reflexivity.
Qed.

Lemma repair_result_backup disk g w :
  grub_gpt_both_valid g = false ->
  disk_log_sector_size disk = log_sector_size g ->
  grub_gpt_primary_valid g = false ->
  grub_gpt_backup_valid g = true ->
  snd (fst (grub_gpt_repair disk g w))
  = snd (fst (grub_gpt_update (repair_from_backup g) w)).
Proof.
  intros Hb Hs Hp Hk. unfold grub_gpt_repair.
  rewrite Hb, Hs, Z.eqb_refl, Hp, Hk. simpl. unfold bind.
  destruct (grub_gpt_update (repair_from_backup g) w) as [[e g1] w1].
  simpl. destruct (failed e); reflexivity.
Qed.

(** C1: when repair runs (not all four bits set, sector sizes equal) and
    the primary copy is valid, the backup header moves to
    [total_sectors - 1] if the size of the medium is known and that
    sector lies beyond [primary.alternate_lba], which is then updated;
    the backup takes over the fields of the primary, with
    [header_lba = primary.alternate_lba],
    [alternate_lba = primary.header_lba] and
    [partitions = backup_header - ceil (entries_size / sector_size)].
    When only the backup copy is valid, the primary takes over the fields
    of the backup, with [header_lba = backup.alternate_lba],
    [alternate_lba = backup.header_lba] and [partitions = 2].
    Subtractions are those of a 64-bit register. *)
Theorem repair_rebuilds_other_copy disk g w :
  let g' := snd (fst (grub_gpt_repair disk g w)) in
  status_has g GRUB_GPT_PRIMARY_HEADER_VALID
  && status_has g GRUB_GPT_PRIMARY_ENTRIES_VALID
  && status_has g GRUB_GPT_BACKUP_HEADER_VALID
  && status_has g GRUB_GPT_BACKUP_ENTRIES_VALID = false ->
  disk_log_sector_size disk = log_sector_size g ->
  0 <= log_sector_size g < 32 ->
  is_u64 (entries_size g) ->
  (status_has g GRUB_GPT_PRIMARY_HEADER_VALID = true ->
   status_has g GRUB_GPT_PRIMARY_ENTRIES_VALID = true ->
   (spec_size_known disk
    /\ u64 (disk_total_sectors disk - 1) > alternate_lba (primary g) ->
    alternate_lba (primary g') = u64 (disk_total_sectors disk - 1))
   /\ (~ (spec_size_known disk
          /\ u64 (disk_total_sectors disk - 1) > alternate_lba (primary g)) ->
       alternate_lba (primary g') = alternate_lba (primary g))
   /\ header_lba (primary g') = header_lba (primary g)
   /\ copied_fields (primary g) (backup g')
   /\ header_lba (backup g') = alternate_lba (primary g')
   /\ alternate_lba (backup g') = header_lba (primary g')
   /\ partitions (backup g')
      = u64 (alternate_lba (primary g')
             - ceil_div (entries_size g) (2 ^ log_sector_size g)))
  /\ (status_has g GRUB_GPT_PRIMARY_HEADER_VALID
      && status_has g GRUB_GPT_PRIMARY_ENTRIES_VALID = false ->
      status_has g GRUB_GPT_BACKUP_HEADER_VALID = true ->
      status_has g GRUB_GPT_BACKUP_ENTRIES_VALID = true ->
      copied_fields (backup g) (primary g')
      /\ header_lba (primary g') = alternate_lba (backup g')
      /\ alternate_lba (primary g') = header_lba (backup g')
      /\ partitions (primary g') = 2
      /\ same_layout (backup g) (backup g')).
Proof.
  intros g' Hnot Hsec Hls Hsz.
  assert (Hboth : grub_gpt_both_valid g = false).
  { status_bits. rewrite <- Hnot.
    destruct (Z.testbit (status g) 2), (Z.testbit (status g) 3),
             (Z.testbit (status g) 4), (Z.testbit (status g) 5); reflexivity. }
  split.
  - intros H1 H2.
    assert (Hp : grub_gpt_primary_valid g = true).
    { status_bits. rewrite H1, H2. reflexivity. }
    unfold g'. rewrite (repair_result_primary disk g w Hboth Hsec Hp).
    destruct (update_keeps_layout (repair_from_primary disk g) w)
      as [[[Cm [Cv [Cu [Cs [Ce [Cg [Cx Cz]]]]]]] [Lh [La Lp]]]
            [[[Bm [Bv [Bu [Bs [Be [Bg [Bx Bz]]]]]]] [Kh [Ka Kp]]] _]].
    destruct (repair_from_primary_fields disk g)
      as [Fa [Fh [_ [[Rm [Rv [Ru [Rs [Re [Rg [Rx Rz]]]]]]] [Gh [Ga [Gp _]]]]]]].
    rewrite La, Lh, Kh, Ka, Kp, Gh, Ga, Gp, Fa, Fh.
    rewrite (size_to_sectors_ceil g (entries_size g) Hls Hsz).
    repeat match goal with |- _ /\ _ => split end; try reflexivity.
    + intros [Hk Hgt]. apply disk_size_valid_known in Hk. rewrite Hk. simpl.
      destruct (Z.gtb_spec (u64 (disk_total_sectors disk - 1))
                           (alternate_lba (primary g))); [reflexivity | lia].
    + intros Hn.
      destruct (grub_gpt_disk_size_valid disk) eqn:Hv; [ | reflexivity]. simpl.
      destruct (Z.gtb_spec (u64 (disk_total_sectors disk - 1))
                           (alternate_lba (primary g))); [ | reflexivity].
      exfalso. apply Hn. split; [apply disk_size_valid_known; exact Hv | lia].
    + unfold copied_fields.
      repeat match goal with |- _ /\ _ => split end; congruence.
  - intros Hnp H3 H4.
    assert (Hp : grub_gpt_primary_valid g = false).
    { status_bits. exact Hnp. }
    assert (Hk : grub_gpt_backup_valid g = true).
    { status_bits. rewrite H3, H4. reflexivity. }
    unfold g'. rewrite (repair_result_backup disk g w Hboth Hsec Hp Hk).
    destruct (update_keeps_layout (repair_from_backup g) w)
      as [[[Cm [Cv [Cu [Cs [Ce [Cg [Cx Cz]]]]]]] [Lh [La Lp]]]
            [[[Bm [Bv [Bu [Bs [Be [Bg [Bx Bz]]]]]]] [Kh [Ka Kp]]] _]].
    destruct (repair_from_backup_fields g)
      as [[Rm [Rv [Ru [Rs [Re [Rg [Rx Rz]]]]]]] [Fh [Fa [Fp Fb]]]].
    rewrite Fb in *.
    unfold same_layout, copied_fields.
    repeat match goal with |- _ /\ _ => split end; congruence.
Qed.

Lemma repair_rebuilds_other_copy_witness :
  alternate_lba
    (primary (snd (fst (grub_gpt_repair sample_disk_grown sample_gpt_primary_only
                                        sample_world))))
  = u64 (disk_total_sectors sample_disk_grown - 1)
  /\ partitions
       (primary (snd (fst (grub_gpt_repair sample_disk sample_gpt_backup_only
                                           sample_world))))
     = 2.
Proof.
  split.
  - destruct (repair_rebuilds_other_copy sample_disk_grown sample_gpt_primary_only
                sample_world) as [P _].
    + reflexivity.
    + reflexivity.
    + change (0 <= 9 < 32). lia.
    + apply is_u64b_sound. reflexivity.
    + destruct (P eq_refl eq_refl) as [R _]. apply R. split.
      * unfold spec_size_known. vm_compute. discriminate.
      * vm_compute. reflexivity.
  - destruct (repair_rebuilds_other_copy sample_disk sample_gpt_backup_only
                sample_world) as [_ B].
    + reflexivity.
    + reflexivity.
    + change (0 <= 9 < 32). lia.
    + apply is_u64b_sound. reflexivity.
    + destruct (B eq_refl eq_refl eq_refl) as [_ [_ [_ [T _]]]]. exact T.
Defined.

(** ** What the reading functions leave alone *)

Lemma reads_only_refl w : reads_only w w.
Proof.
  unfold reads_only. repeat split. exists []. symmetry. apply app_nil_r.
Qed.

Lemma reads_only_trans w1 w2 w3 :
  reads_only w1 w2 -> reads_only w2 w3 -> reads_only w1 w3.
Proof.
  unfold reads_only.
  intros [A1 [A2 [A3 [A4 [A5 [A6 [A7 [t1 A8]]]]]]]]
         [B1 [B2 [B3 [B4 [B5 [B6 [B7 [t2 B8]]]]]]]].
  repeat split; try congruence.
  exists (t1 ++ t2). rewrite B8, A8, app_assoc. reflexivity.
Qed.

Lemma reads_only_error e m w w' : reads_only w w' -> reads_only w (with_error e m w').
Proof.
  intros H. apply (reads_only_trans w w' _ H).
  unfold reads_only. simpl. repeat split. exists []. symmetry. apply app_nil_r.
Qed.

Lemma reads_only_request ev w w' :
  reads_only w w' -> reads_only w (with_io (medium w') (io_log w' ++ [ev]) w').
Proof.
  intros H. apply (reads_only_trans w w' _ H).
  unfold reads_only. simpl. repeat split. exists [ev]. reflexivity.
Qed.

Create HintDb frame.
#[local] Hint Resolve reads_only_refl reads_only_error reads_only_request : frame.

Lemma grub_disk_read_reads_only disk sector offset size w :
  reads_only w (snd (grub_disk_read disk sector offset size w)).
Proof.
  unfold grub_disk_read.
  destruct (read_fault w sector offset size); simpl; auto with frame.
Qed.

Lemma grub_malloc_reads_only size w : reads_only w (snd (grub_malloc size w)).
Proof.
  unfold grub_malloc. destruct (alloc_ok w size); simpl; auto with frame.
Qed.

Lemma header_check_reads_only h ls w :
  reads_only w (snd (grub_gpt_header_check h ls w)).
Proof.
  unfold grub_gpt_header_check, grub_error, ret.
  repeat match goal with
         | |- context [if ?c then _ else _] => destruct c
         end; simpl; auto with frame.
Qed.

(** Run a call whose effect on the environment is known: name its result
    and keep the fact. *)
Ltac run_call L :=
  let H := fresh "RO" in
  pose proof L as H;
  match type of H with
  | reads_only _ (snd ?c) =>
      let r := fresh "r" in
      let w := fresh "w" in
      destruct c as [r w]; simpl in H
  end.

Ltac frame_cases :=
  repeat match goal with
         | |- context [if ?c then _ else _] => destruct c
         end;
  simpl; eauto using reads_only_trans with frame.

Lemma check_primary_reads_only g w :
  reads_only w (snd (grub_gpt_check_primary g w)).
Proof.
  unfold grub_gpt_check_primary, bind, grub_error, get_errno, ret. cbv zeta.
  run_call (header_check_reads_only (primary g) (log_sector_size g) w).
  frame_cases.
Qed.

Lemma check_backup_reads_only g w :
  reads_only w (snd (grub_gpt_check_backup g w)).
Proof.
  unfold grub_gpt_check_backup, bind, grub_error, get_errno, ret. cbv zeta.
  run_call (header_check_reads_only (backup g) (log_sector_size g) w).
  frame_cases.
Qed.

Lemma read_entries_reads_only disk g h w :
  reads_only w (snd (grub_gpt_read_entries disk g h w)).
Proof.
  unfold grub_gpt_read_entries, bind, grub_error, get_errno, ret. cbv zeta.
  destruct (negb (partentry_size h =? 0)
            && negb (u32 (maxpart h * partentry_size h) / partentry_size h =? maxpart h));
    [simpl; auto with frame | ].
  destruct (u32 (maxpart h * partentry_size h) <? GRUB_GPT_DEFAULT_ENTRIES_SIZE);
    [simpl; auto with frame | ].
  run_call (grub_malloc_reads_only (u32 (maxpart h * partentry_size h)) w).
  destruct (negb r); [simpl; exact RO | ].
  run_call (grub_disk_read_reads_only disk
              (grub_gpt_sector_to_addr g (partitions h)) 0
              (u32 (maxpart h * partentry_size h)) w0).
  frame_cases.
Qed.

Lemma read_primary_reads_only disk g w :
  reads_only w (snd (grub_gpt_read_primary disk g w)).
Proof.
  unfold grub_gpt_read_primary, bind, get_errno, ret. cbv zeta.
  match goal with
  | |- context [grub_disk_read disk ?a 0 ?n w] =>
      run_call (grub_disk_read_reads_only disk a 0 n w)
  end.
  destruct (failed (fst r)); [simpl; exact RO | ].
  match goal with
  | |- context [grub_gpt_check_primary ?g1 w0] =>
      run_call (check_primary_reads_only g1 w0)
  end.
  destruct (failed r0); [simpl; eauto using reads_only_trans | ].
  match goal with
  | |- context [grub_gpt_read_entries disk ?g1 ?h1 w1] =>
      run_call (read_entries_reads_only disk g1 h1 w1)
  end.
  destruct r1 as [e [[buf n] | ]]; simpl; eauto using reads_only_trans.
Qed.

Lemma grub_disk_read_log disk sector offset size w :
  io_log (snd (grub_disk_read disk sector offset size w))
  = io_log w ++ [IoRead sector offset size].
Proof.
  unfold grub_disk_read.
  destruct (read_fault w sector offset size); reflexivity.
Qed.

Lemma read_backup_at_after_read disk g sector w :
  reads_only
    (snd (grub_disk_read disk (grub_gpt_sector_to_addr g sector) 0
                         sizeof_grub_gpt_header w))
    (snd (grub_gpt_read_backup_at disk g sector w)).
Proof.
  unfold grub_gpt_read_backup_at, bind, get_errno, grub_error, ret. cbv zeta.
  destruct (grub_disk_read disk (grub_gpt_sector_to_addr g sector) 0
                           sizeof_grub_gpt_header w) as [r w0].
  cbv beta iota delta [fst snd].
  destruct (failed (let (e, _) := r in e)); [simpl; auto with frame | ].
  match goal with
  | |- context [grub_gpt_check_backup ?g1 w0] =>
      run_call (check_backup_reads_only g1 w0)
  end.
  destruct (failed r0); [simpl; eauto using reads_only_trans | ].
  match goal with
  | |- context [if negb (header_lba ?h =? sector) then _ else _] =>
      destruct (negb (header_lba h =? sector));
        [simpl; eauto using reads_only_trans with frame | ]
  end.
  match goal with
  | |- context [grub_gpt_read_entries disk ?g1 ?h1 w1] =>
      run_call (read_entries_reads_only disk g1 h1 w1)
  end.
  assert (R : reads_only w0 w2) by eauto using reads_only_trans.
  destruct r1 as [e [[buf n] | ]]; simpl; [ | exact R].
  frame_cases.
Qed.

Lemma read_backup_at_reads_only disk g sector w :
  reads_only w (snd (grub_gpt_read_backup_at disk g sector w)).
Proof.
  eapply reads_only_trans;
    [apply grub_disk_read_reads_only | apply read_backup_at_after_read].
Qed.

Lemma read_backup_at_first_request disk g sector w :
  requests_header_at g sector w (snd (grub_gpt_read_backup_at disk g sector w)).
Proof.
  destruct (read_backup_at_after_read disk g sector w)
    as [_ [_ [_ [_ [_ [_ [_ [t Ht]]]]]]]].
  exists t. rewrite Ht, grub_disk_read_log, <- app_assoc. reflexivity.
Qed.

Lemma read_backup_reads_only disk g w :
  reads_only w (snd (grub_gpt_read_backup disk g w)).
Proof.
  unfold grub_gpt_read_backup, bind, grub_error, ret.
  pose proof (read_backup_at_reads_only disk g) as R.
  frame_cases.
Qed.

(** ** Locating the backup copy *)

(** C7, as the code has it: the choice rests on the primary header
    alone (the bit PRIMARY_HEADER_VALID), not on the whole primary copy.
    The reader looks for the backup header at
    [primary.alternate_lba] when the primary header has validated, and
    fails with OUT_OF_RANGE if the size of the medium is known and that
    sector is at or past [total_sectors]; otherwise it looks at
    [total_sectors - 1] when the size is known and fails with
    OUT_OF_RANGE when it is not.  "Known" is [spec_size_known]: the count
    shifted to 512-byte blocks does not exceed 2^51. *)
Theorem backup_sector_choice disk g w :
  (status_has g GRUB_GPT_PRIMARY_HEADER_VALID = true ->
   (spec_size_known disk ->
    alternate_lba (primary g) >= disk_total_sectors disk ->
    grub_gpt_read_backup disk g w
    = ((GRUB_ERR_OUT_OF_RANGE, g),
       with_error GRUB_ERR_OUT_OF_RANGE
         (backup_beyond_disk,
          [alternate_lba (primary g); u64 (disk_total_sectors disk - 1)]) w))
   /\ (~ (spec_size_known disk
          /\ alternate_lba (primary g) >= disk_total_sectors disk) ->
       grub_gpt_read_backup disk g w
       = grub_gpt_read_backup_at disk g (alternate_lba (primary g)) w
       /\ requests_header_at g (alternate_lba (primary g)) w
            (snd (grub_gpt_read_backup disk g w))))
  /\ (status_has g GRUB_GPT_PRIMARY_HEADER_VALID = false ->
      (spec_size_known disk ->
       grub_gpt_read_backup disk g w
       = grub_gpt_read_backup_at disk g (u64 (disk_total_sectors disk - 1)) w
       /\ requests_header_at g (u64 (disk_total_sectors disk - 1)) w
            (snd (grub_gpt_read_backup disk g w)))
      /\ (~ spec_size_known disk ->
          grub_gpt_read_backup disk g w
          = ((GRUB_ERR_OUT_OF_RANGE, g),
             with_error GRUB_ERR_OUT_OF_RANGE (size_unknown, []) w))).
Proof.
  unfold grub_gpt_read_backup. split; intros Hp; rewrite Hp; split.
  - intros Hk Hge. apply disk_size_valid_known in Hk. rewrite Hk. simpl.
    destruct (Z.geb_spec (alternate_lba (primary g)) (disk_total_sectors disk));
      [reflexivity | lia].
  - intros Hn.
    assert (Hc : grub_gpt_disk_size_valid disk
                 && (alternate_lba (primary g) >=? disk_total_sectors disk) = false).
    { destruct (grub_gpt_disk_size_valid disk) eqn:Hv; [ | reflexivity]. simpl.
      destruct (Z.geb_spec (alternate_lba (primary g)) (disk_total_sectors disk));
        [ | reflexivity].
      exfalso. apply Hn. split; [apply disk_size_valid_known; exact Hv | lia]. }
    rewrite Hc. split; [reflexivity | apply read_backup_at_first_request].
  - intros Hk. apply disk_size_valid_known in Hk. rewrite Hk.
    split; [reflexivity | apply read_backup_at_first_request].
  - intros Hn.
    destruct (grub_gpt_disk_size_valid disk) eqn:Hv; [ | reflexivity].
    exfalso. apply Hn. apply disk_size_valid_known. exact Hv.
Qed.

Lemma backup_sector_choice_witness :
  fst (fst (grub_gpt_read_backup sample_disk_small sample_gpt sample_world))
  = GRUB_ERR_OUT_OF_RANGE
  /\ requests_header_at sample_gpt 2047 sample_world
       (snd (grub_gpt_read_backup sample_disk sample_gpt sample_world))
  /\ requests_header_at zero_gpt (u64 (disk_total_sectors sample_disk - 1)) sample_world
       (snd (grub_gpt_read_backup sample_disk zero_gpt sample_world))
  /\ fst (fst (grub_gpt_read_backup sample_disk_unsized zero_gpt sample_world))
     = GRUB_ERR_OUT_OF_RANGE.
Proof.
  assert (Ksmall : spec_size_known sample_disk_small)
    by (unfold spec_size_known; vm_compute; discriminate).
  assert (Ksample : spec_size_known sample_disk)
    by (unfold spec_size_known; vm_compute; discriminate).
  repeat match goal with |- _ /\ _ => split end.
  - rewrite (proj1 (proj1 (backup_sector_choice sample_disk_small sample_gpt
                             sample_world) eq_refl) Ksmall).
    + reflexivity.
    + vm_compute. discriminate.
  - apply (proj2 (proj1 (backup_sector_choice sample_disk sample_gpt sample_world)
                     eq_refl)).
    intros [_ H]. vm_compute in H. apply H. reflexivity.
  - apply (proj1 (proj2 (backup_sector_choice sample_disk zero_gpt sample_world)
                     eq_refl)).
    exact Ksample.
  - rewrite (proj2 (proj2 (backup_sector_choice sample_disk_unsized zero_gpt
                             sample_world) eq_refl)).
    + reflexivity.
    + unfold spec_size_known. vm_compute. intros H. apply H. reflexivity.
Defined.

(** C7 as stated fails when the primary header is good and its entry
    array is not.  On the sample medium with a damaged primary entry
    array, seen as a device of 4096 sectors, the primary copy does not
    validate and the size is known, yet the reader asks for the backup
    header at [primary.alternate_lba], sector 2047, and not at
    [total_sectors - 1], sector 4095; it finds the backup copy there. *)
Lemma backup_sought_at_alternate_lba :
  let p := grub_gpt_read_primary sample_disk_grown sample_mbr_gpt bad_entries_world in
  let b := grub_gpt_read_backup sample_disk_grown (snd (fst p)) (snd p) in
  fst (fst p) = GRUB_ERR_BAD_PART_TABLE
  /\ grub_gpt_primary_valid (snd (fst p)) = false
  /\ status_has (snd (fst p)) GRUB_GPT_PRIMARY_HEADER_VALID = true
  /\ grub_gpt_disk_size_valid sample_disk_grown = true
  /\ alternate_lba (primary (snd (fst p))) = 2047
  /\ u64 (disk_total_sectors sample_disk_grown - 1) = 4095
  /\ io_log (snd b)
     = io_log (snd p)
       ++ [IoRead (grub_gpt_sector_to_addr (snd (fst p)) 2047) 0 sizeof_grub_gpt_header;
           IoRead (grub_gpt_sector_to_addr (snd (fst p)) 2015) 0 16384]
  /\ fst (fst b) = GRUB_ERR_NONE
  /\ grub_gpt_backup_valid (snd (fst b)) = true.
Proof.
  vm_compute. repeat split.
Qed.

(** ** Reading the entry array *)

Lemma medium_range_length m a n : List.length (medium_range m a n) = n.
Proof.
  revert a. induction n as [| n IH]; intros a; simpl; [reflexivity | ].
  rewrite IH. reflexivity.
Qed.

Lemma medium_bytes_length m sector offset size :
  0 <= size ->
  Z.of_nat (List.length (medium_bytes m sector offset size)) = size.
Proof.
  intros H. unfold medium_bytes. rewrite medium_range_length. lia.
Qed.

(** The inverse-division test of [grub_gpt_read_entries] is exact for the
    32-bit product. *)
Lemma overflow_test_exact count size :
  is_u32 count -> is_u32 size -> size <> 0 ->
  (u32 (count * size) / size =? count) = (count * size <? 2 ^ 32).
Proof.
  unfold is_u32, u32. intros Hc Hs Hz.
  destruct (Z.ltb_spec (count * size) (2 ^ 32)) as [Hlt | Hge].
  - rewrite Z.mod_small by nia. rewrite Z.div_mul by exact Hz. apply Z.eqb_refl.
  - apply Z.eqb_neq. intros E.
    assert (Hm : 0 <= (count * size) mod 2 ^ 32 < 2 ^ 32)
      by (apply Z.mod_pos_bound; lia).
    pose proof (Z.mul_div_le ((count * size) mod 2 ^ 32) size ltac:(lia)) as Hd.
    rewrite E in Hd. nia.
Qed.

(** C8, as the code has it: the entry-array read multiplies [maxpart] by
    [partentry_size] in 32 bits and tests the product by dividing it
    back; it fails with OUT_OF_MEMORY exactly when the true product does
    not fit 32 bits, before any request.  A product below 16384 is
    refused as BUG.  Otherwise, memory permitting, the one request is a
    read of exactly that many bytes at the block address of
    [partitions]; a buffer whose CRC-32 differs from [partentry_crc32]
    gives BAD_PART_TABLE, a matching one is handed back with its size. *)
Theorem read_entries_checks disk g h w :
  is_u32 (maxpart h) -> is_u32 (partentry_size h) ->
  (partentry_size h <> 0 -> 2 ^ 32 <= maxpart h * partentry_size h ->
   grub_gpt_read_entries disk g h w
   = ((GRUB_ERR_OUT_OF_MEMORY, None),
      with_error GRUB_ERR_OUT_OF_MEMORY ("out of memory", []) w))
  /\ (maxpart h * partentry_size h < 16384 ->
      grub_gpt_read_entries disk g h w
      = ((GRUB_ERR_BUG, None),
         with_error GRUB_ERR_BUG ("invalid GPT entries table size", []) w))
  /\ (16384 <= maxpart h * partentry_size h < 2 ^ 32 ->
      alloc_ok w (maxpart h * partentry_size h) = true ->
      io_log (snd (grub_gpt_read_entries disk g h w))
      = io_log w ++ [IoRead (grub_gpt_sector_to_addr g (partitions h)) 0
                            (maxpart h * partentry_size h)]
      /\ (read_fault w (grub_gpt_sector_to_addr g (partitions h)) 0
                     (maxpart h * partentry_size h) = None ->
          forall buf,
            buf = medium_bytes (medium w) (grub_gpt_sector_to_addr g (partitions h)) 0
                               (maxpart h * partentry_size h) ->
            Z.of_nat (List.length buf) = maxpart h * partentry_size h
            /\ (grub_crypto_hash_crc32 buf <> partentry_crc32 h ->
                fst (grub_gpt_read_entries disk g h w) = (GRUB_ERR_BAD_PART_TABLE, None)
                /\ grub_errmsg (snd (grub_gpt_read_entries disk g h w))
                   = ("invalid GPT entry crc32", []))
            /\ (grub_crypto_hash_crc32 buf = partentry_crc32 h ->
                fst (grub_gpt_read_entries disk g h w)
                = (GRUB_ERR_NONE, Some (buf, maxpart h * partentry_size h))))).
Proof.
  intros Hc Hs.
  assert (Hc' := Hc). assert (Hs' := Hs). unfold is_u32 in Hc', Hs'.
  unfold grub_gpt_read_entries. cbv zeta.
  split; [ | split].
  - intros Hz Hov.
    rewrite (overflow_test_exact _ _ Hc Hs Hz).
    destruct (Z.eqb_spec (partentry_size h) 0); [contradiction | ].
    destruct (Z.ltb_spec (maxpart h * partentry_size h) (2 ^ 32)); [lia | ].
    reflexivity.
  - intros Hlt.
    assert (Hsmall : u32 (maxpart h * partentry_size h) = maxpart h * partentry_size h).
    { apply u32_small. unfold is_u32. nia. }
    assert (Htest : negb (partentry_size h =? 0)
                    && negb (u32 (maxpart h * partentry_size h) / partentry_size h
                             =? maxpart h) = false).
    { destruct (Z.eqb_spec (partentry_size h) 0) as [E | E]; [reflexivity | ].
      rewrite (overflow_test_exact _ _ Hc Hs E).
      destruct (Z.ltb_spec (maxpart h * partentry_size h) (2 ^ 32)); [reflexivity | lia]. }
    rewrite Htest, Hsmall. unfold GRUB_GPT_DEFAULT_ENTRIES_SIZE.
    destruct (Z.ltb_spec (maxpart h * partentry_size h) 16384); [reflexivity | lia].
  - intros Hrange Halloc.
    assert (Hsmall : u32 (maxpart h * partentry_size h) = maxpart h * partentry_size h).
    { apply u32_small. unfold is_u32. lia. }
    assert (Hz : partentry_size h <> 0) by nia.
    rewrite (overflow_test_exact _ _ Hc Hs Hz), Hsmall.
    destruct (Z.eqb_spec (partentry_size h) 0); [contradiction | ].
    destruct (Z.ltb_spec (maxpart h * partentry_size h) (2 ^ 32)); [ | lia].
    unfold GRUB_GPT_DEFAULT_ENTRIES_SIZE.
    destruct (Z.ltb_spec (maxpart h * partentry_size h) 16384); [lia | ].
    simpl. unfold bind, grub_malloc. rewrite Halloc. simpl.
    unfold grub_disk_read.
    destruct (read_fault w (grub_gpt_sector_to_addr g (partitions h)) 0
                         (maxpart h * partentry_size h)) as [f | ].
    + split; [destruct f; reflexivity | discriminate].
    + simpl. unfold grub_gpt_lecrc32.
      assert (Hlen : Z.of_nat (List.length
                       (medium_bytes (medium w)
                          (grub_gpt_sector_to_addr g (partitions h)) 0
                          (maxpart h * partentry_size h)))
                     = maxpart h * partentry_size h)
        by (apply medium_bytes_length; lia).
      rewrite firstn_all2 by lia.
      split.
      * destruct (Z.eqb_spec
                    (grub_crypto_hash_crc32
                       (medium_bytes (medium w)
                          (grub_gpt_sector_to_addr g (partitions h)) 0
                          (maxpart h * partentry_size h)))
                    (partentry_crc32 h)); reflexivity.
      * intros _ buf Hbuf. subst buf. split; [exact Hlen | ].
        destruct (Z.eqb_spec
                    (grub_crypto_hash_crc32
                       (medium_bytes (medium w)
                          (grub_gpt_sector_to_addr g (partitions h)) 0
                          (maxpart h * partentry_size h)))
                    (partentry_crc32 h)) as [E | E]; simpl;
          split; intros Hcrc; try contradiction; try (split; reflexivity); reflexivity.
Qed.

Lemma read_entries_checks_witness :
  grub_gpt_read_entries sample_disk sample_gpt wide_header sample_world
  = ((GRUB_ERR_OUT_OF_MEMORY, None),
     with_error GRUB_ERR_OUT_OF_MEMORY ("out of memory", []) sample_world)
  /\ grub_gpt_read_entries sample_disk sample_gpt zero_header sample_world
     = ((GRUB_ERR_BUG, None),
        with_error GRUB_ERR_BUG ("invalid GPT entries table size", []) sample_world)
  /\ io_log (snd (grub_gpt_read_entries sample_disk sample_gpt sample_primary
                                        sample_world))
     = io_log sample_world
       ++ [IoRead (grub_gpt_sector_to_addr sample_gpt (partitions sample_primary)) 0
                  (maxpart sample_primary * partentry_size sample_primary)].
Proof.
  split; [ | split].
  - apply (proj1 (read_entries_checks sample_disk sample_gpt wide_header sample_world
                    ltac:(apply is_u32b_sound; reflexivity)
                    ltac:(apply is_u32b_sound; reflexivity))).
    + vm_compute. discriminate.
    + vm_compute. discriminate.
  - apply (proj1 (proj2 (read_entries_checks sample_disk sample_gpt zero_header
                           sample_world
                           ltac:(apply is_u32b_sound; reflexivity)
                           ltac:(apply is_u32b_sound; reflexivity)))).
    vm_compute. reflexivity.
  - apply (proj2 (proj2 (read_entries_checks sample_disk sample_gpt sample_primary
                           sample_world
                           ltac:(apply is_u32b_sound; reflexivity)
                           ltac:(apply is_u32b_sound; reflexivity)))).
    + vm_compute. split; [discriminate | reflexivity].
    + reflexivity.
Defined.

(** C8 as stated fails: for a primary header that passes validation and
    announces 65536 entries of 65536 bytes the product is 2^32, which a
    64-bit multiplication holds and the inverse division confirms, yet
    the read fails with OUT_OF_MEMORY: the product is formed in 32 bits. *)
Lemma read_entries_product_is_32_bit :
  fst (grub_gpt_check_primary (set_primary wide_header sample_gpt) sample_world)
  = GRUB_ERR_NONE
  /\ u64 (maxpart wide_header * partentry_size wide_header)
     = maxpart wide_header * partentry_size wide_header
  /\ u64 (maxpart wide_header * partentry_size wide_header)
     / partentry_size wide_header = maxpart wide_header
  /\ fst (fst (grub_gpt_read_entries sample_disk sample_gpt wide_header sample_world))
     = GRUB_ERR_OUT_OF_MEMORY.
Proof.
  vm_compute. repeat split.
Qed.

(** ** Mirror consistency *)

Lemma byte_val_of_Z x : byte_val (byte_of_Z x) = x mod 256.
Proof.
  unfold byte_val, byte_of_Z.
  pose proof (Z.mod_pos_bound x 256 ltac:(lia)) as Hb.
  destruct (Byte.of_N (Z.to_N (x mod 256))) as [b | ] eqn:E.
  - apply Byte.to_of_N in E. rewrite E. lia.
  - apply Byte.of_N_None_iff in E. lia.
Qed.

Lemma le_decode_encode n x :
  0 <= x < 256 ^ Z.of_nat n -> le_decode (le_encode n x) = x.
Proof.
  revert x. induction n as [| n IH]; intros x Hx.
  - simpl in *. lia.
  - cbn [le_encode le_decode]. rewrite byte_val_of_Z.
    rewrite Nat2Z.inj_succ, Z.pow_succ_r in Hx by lia.
    rewrite IH.
    + pose proof (Z.div_mod x 256 ltac:(lia)). lia.
    + split; [apply Z.div_pos; lia | apply Z.div_lt_upper_bound; lia].
Qed.



Lemma guid_bytes_length g : guid_wf g -> List.length (guid_bytes g) = 16%nat.
Proof.
  intros [_ [_ [_ H]]]. unfold guid_bytes.
  rewrite !length_app, !le_encode_length, firstn_all2 by lia.
  rewrite H. reflexivity.
Qed.




Lemma entries_sectors_ceil h ls :
  header_wf h -> 0 <= ls < 32 ->
  grub_gpt_entries_sectors h ls = ceil_div (maxpart h * partentry_size h) (2 ^ ls).
Proof.
  intros Hwf Hls. unfold grub_gpt_entries_sectors, ceil_div.
  rewrite (entries_size_exact h Hwf), shl64_one_pow by lia.
  assert (Hm : is_u32 (maxpart h)) by apply Hwf.
  assert (Hs : is_u32 (partentry_size h)) by apply Hwf.
  unfold is_u32 in *.
  assert (Hb : 0 < 2 ^ ls < 2 ^ 32).
  { split; [apply Z.pow_pos_nonneg; lia | apply Z.pow_lt_mono_r; lia]. }
  rewrite u64_small; [reflexivity | ].
  unfold is_u64. nia.
Qed.



Lemma read_entries_some disk g h w buf n :
  snd (fst (grub_gpt_read_entries disk g h w)) = Some (buf, n) ->
  fst (fst (grub_gpt_read_entries disk g h w)) = GRUB_ERR_NONE
  /\ Z.of_nat (List.length buf) = n
  /\ grub_crypto_hash_crc32 buf = partentry_crc32 h.
Proof.
  unfold grub_gpt_read_entries, bind, grub_error, get_errno, ret. cbv zeta.
  destruct (negb (partentry_size h =? 0)
            && negb (u32 (maxpart h * partentry_size h) / partentry_size h =? maxpart h));
    [simpl; discriminate | ].
  unfold GRUB_GPT_DEFAULT_ENTRIES_SIZE.
  destruct (Z.ltb_spec (u32 (maxpart h * partentry_size h)) 16384) as [Hs | Hs];
    [simpl; discriminate | ].
  unfold grub_malloc.
  destruct (alloc_ok w (u32 (maxpart h * partentry_size h))); [ | simpl; discriminate].
  simpl. unfold grub_disk_read.
  destruct (read_fault w (grub_gpt_sector_to_addr g (partitions h)) 0
                       (u32 (maxpart h * partentry_size h))) as [f | ].
  { destruct f; simpl; discriminate. }
  simpl. unfold grub_gpt_lecrc32.
  assert (Hlen : Z.of_nat (List.length
                   (medium_bytes (medium w) (grub_gpt_sector_to_addr g (partitions h))
                      0 (u32 (maxpart h * partentry_size h))))
                 = u32 (maxpart h * partentry_size h))
    by (apply medium_bytes_length; lia).
  rewrite firstn_all2 by lia.
  destruct (Z.eqb_spec
              (grub_crypto_hash_crc32
                 (medium_bytes (medium w) (grub_gpt_sector_to_addr g (partitions h))
                    0 (u32 (maxpart h * partentry_size h))))
              (partentry_crc32 h)) as [E | E]; simpl; [ | discriminate].
  intros H. injection H as H1 H2. subst buf n. auto.
Qed.

(** The comparison of the backup entries with the owned buffer is an
    equality of byte sequences. *)
Lemma entries_test_is_equality g buf n :
  Z.of_nat (List.length buf) = n ->
  Z.of_nat (List.length (entries g)) = entries_size g ->
  negb (n =? entries_size g) || negb (grub_memcmp_eq buf (entries g) n) = false
  <-> buf = entries g.
Proof.
  intros Hb Hg. rewrite orb_false_iff, !negb_false_iff, Z.eqb_eq.
  unfold grub_memcmp_eq. rewrite bytes_eqb_eq. split.
  - intros [En E]. rewrite !firstn_all2 in E by lia. exact E.
  - intros E. subst buf. split; [lia | reflexivity].
Qed.


Lemma passing_header_has_no_defect h ls w :
  header_wf h -> 0 <= ls < 32 ->
  fst (grub_gpt_header_check h ls w) = GRUB_ERR_NONE ->
  ~ spec_header_invalid h ls.
Proof.
  intros Hwf Hls Hok.
  destruct (header_check_cases h ls w Hwf Hls) as [[_ E] | [N _]];
    [rewrite Hok in E; discriminate | exact N].
Qed.



(** ** The reader *)

Lemma failed_code_is_true e : e <> GRUB_ERR_NONE -> failed e = true.
Proof. destruct e; simpl; intros H; try reflexivity; contradiction. Qed.

Lemma fault_is_failure f : failed (fst (fault_error f)) = true.
Proof. destruct f; reflexivity. Qed.

Lemma header_check_errno h ls w :
  failed (fst (grub_gpt_header_check h ls w)) = true ->
  grub_errno (snd (grub_gpt_header_check h ls w))
  = fst (grub_gpt_header_check h ls w).
Proof.
  unfold grub_gpt_header_check, grub_error, ret.
  repeat match goal with
         | |- context [if ?c then _ else _] => destruct c
         end; simpl; intros H; try reflexivity; discriminate.
Qed.

Lemma check_primary_errno g w :
  failed (fst (grub_gpt_check_primary g w)) = true ->
  grub_errno (snd (grub_gpt_check_primary g w))
  = fst (grub_gpt_check_primary g w).
Proof.
  unfold grub_gpt_check_primary, bind, grub_error, get_errno, ret. cbv zeta.
  destruct (grub_gpt_header_check (primary g) (log_sector_size g) w) as [e w1].
  repeat match goal with
         | |- context [if ?c then _ else _] => destruct c
         end; simpl; intros H; try reflexivity; discriminate.
Qed.

Lemma grub_disk_read_errno disk sector offset size w :
  failed (fst (fst (grub_disk_read disk sector offset size w))) = true ->
  grub_errno (snd (grub_disk_read disk sector offset size w))
  = fst (fst (grub_disk_read disk sector offset size w)).
Proof.
  unfold grub_disk_read.
  destruct (read_fault w sector offset size); simpl; intros H;
    [reflexivity | discriminate].
Qed.

Lemma read_entries_none disk g h w :
  snd (fst (grub_gpt_read_entries disk g h w)) = None ->
  failed (grub_errno (snd (grub_gpt_read_entries disk g h w))) = true.
Proof.
  unfold grub_gpt_read_entries, bind, grub_error, get_errno, ret. cbv zeta.
  destruct (negb (partentry_size h =? 0)
            && negb (u32 (maxpart h * partentry_size h) / partentry_size h =? maxpart h));
    [reflexivity | ].
  destruct (u32 (maxpart h * partentry_size h) <? GRUB_GPT_DEFAULT_ENTRIES_SIZE);
    [reflexivity | ].
  unfold grub_malloc.
  destruct (alloc_ok w (u32 (maxpart h * partentry_size h))); [ | reflexivity].
  simpl. unfold grub_disk_read.
  destruct (read_fault w (grub_gpt_sector_to_addr g (partitions h)) 0
                       (u32 (maxpart h * partentry_size h))) as [f | ].
  { simpl. rewrite fault_is_failure. simpl. intros _. apply fault_is_failure. }
  simpl.
  match goal with
  | |- context [if ?c then _ else _] => destruct c
  end; simpl; [reflexivity | discriminate].
Qed.

(** [grub_gpt_read_primary] either succeeds with both primary bits set,
    or fails and leaves its error in the slot. *)
Lemma read_primary_outcome disk g w :
  (failed (fst (fst (grub_gpt_read_primary disk g w))) = false ->
   grub_gpt_primary_valid (snd (fst (grub_gpt_read_primary disk g w))) = true)
  /\ (failed (fst (fst (grub_gpt_read_primary disk g w))) = true ->
      grub_errno (snd (grub_gpt_read_primary disk g w))
      = fst (fst (grub_gpt_read_primary disk g w))).
Proof.
  unfold grub_gpt_read_primary, bind, get_errno, ret. cbv zeta.
  match goal with
  | |- context [grub_disk_read disk ?a 0 ?n w] =>
      pose proof (grub_disk_read_errno disk a 0 n w) as Hr;
      destruct (grub_disk_read disk a 0 n w) as [r w0]
  end.
  cbn [fst snd] in *.
  destruct (failed (fst r)) eqn:Fr.
  { cbn [fst snd]. rewrite (Hr eq_refl), Fr.
    split; [discriminate | reflexivity]. }
  match goal with
  | |- context [grub_gpt_check_primary ?g1 w0] =>
      pose proof (check_primary_errno g1 w0) as Hc;
      destruct (grub_gpt_check_primary g1 w0) as [c w1]
  end.
  cbn [fst snd] in *.
  destruct (failed c) eqn:Fc.
  { cbn [fst snd]. rewrite (Hc eq_refl), Fc.
    split; [discriminate | reflexivity]. }
  match goal with
  | |- context [grub_gpt_read_entries disk ?g1 ?h1 w1] =>
      pose proof (read_entries_none disk g1 h1 w1) as He;
      destruct (grub_gpt_read_entries disk g1 h1 w1) as [[e o] w2]
  end.
  cbn [fst snd] in *.
  destruct o as [[buf n] | ]; cbn [fst snd].
  - split; [intros _ | discriminate].
    status_bits. cbn [status or_status set_status set_entries].
    rewrite !Z.lor_spec.
    change (Z.testbit GRUB_GPT_PRIMARY_HEADER_VALID 2) with true.
    change (Z.testbit GRUB_GPT_PRIMARY_ENTRIES_VALID 3) with true.
    rewrite !orb_true_r. reflexivity.
  - rewrite (He eq_refl). split; [discriminate | reflexivity].
Qed.

(** Reading the backup copy only ever adds status bits. *)
Lemma read_backup_at_keeps_bits disk g sector w k :
  Z.testbit (status g) k = true ->
  Z.testbit (status (snd (fst (grub_gpt_read_backup_at disk g sector w)))) k = true.
Proof.
  intros Hk.
  unfold grub_gpt_read_backup_at, bind, get_errno, grub_error, ret. cbv zeta.
  destruct (grub_disk_read disk (grub_gpt_sector_to_addr g sector) 0
                           sizeof_grub_gpt_header w) as [r w0].
  destruct (failed (fst r)); [exact Hk | ].
  match goal with
  | |- context [grub_gpt_check_backup ?g1 w0] =>
      destruct (grub_gpt_check_backup g1 w0) as [c w1]
  end.
  destruct (failed c); [exact Hk | ].
  match goal with
  | |- context [if negb (?x =? sector) then _ else _] =>
      destruct (negb (x =? sector)); [exact Hk | ]
  end.
  match goal with
  | |- context [grub_gpt_read_entries disk ?g1 ?h1 w1] =>
      destruct (grub_gpt_read_entries disk g1 h1 w1) as [[e o] w2]
  end.
  destruct o as [[buf n] | ];
    repeat match goal with
           | |- context [if ?c then _ else _] => destruct c
           end;
    cbn [fst snd status or_status set_status set_backup set_entries];
    rewrite ?Z.lor_spec, Hk; reflexivity.
Qed.

Lemma read_backup_keeps_bits disk g w k :
  Z.testbit (status g) k = true ->
  Z.testbit (status (snd (fst (grub_gpt_read_backup disk g w)))) k = true.
Proof.
  intros Hk. unfold grub_gpt_read_backup, bind, grub_error, ret.
  repeat match goal with
         | |- context [if ?c then _ else _] => destruct c
         end;
    try exact Hk; apply read_backup_at_keeps_bits; exact Hk.
Qed.

(** C6: once the handle is allocated and the MBR read, the reader tries
    the primary copy and then the backup copy.  If after both attempts
    one copy has both of its bits set, the reader returns the handle and
    the error slot is clear.  If neither has, the attempt on the primary
    had failed, the reader returns NULL, and the error slot holds the
    code and message the primary attempt left there, whatever the backup
    attempt reported in between; the error stack is as it was. *)
Theorem read_reports_primary_error disk w g0 w0 :
  grub_gpt_read_mbr disk w = (Some g0, w0) ->
  let p := grub_gpt_read_primary disk g0 w0 in
  let g2 := snd (fst (backup_attempt disk g0 w0)) in
  (grub_gpt_primary_valid g2 || grub_gpt_backup_valid g2 = true ->
   fst (grub_gpt_read disk w) = Some g2
   /\ grub_errno (snd (grub_gpt_read disk w)) = GRUB_ERR_NONE)
  /\ (grub_gpt_primary_valid g2 || grub_gpt_backup_valid g2 = false ->
      fst (grub_gpt_read disk w) = None
      /\ failed (fst (fst p)) = true
      /\ grub_errno (snd (grub_gpt_read disk w)) = fst (fst p)
      /\ grub_errno (snd (grub_gpt_read disk w)) = grub_errno (snd p)
      /\ grub_errmsg (snd (grub_gpt_read disk w)) = grub_errmsg (snd p)
      /\ grub_error_stack (snd (grub_gpt_read disk w)) = grub_error_stack w0).
Proof.
  intros Hmbr p g2. subst p g2.
  unfold grub_gpt_read, bind. rewrite Hmbr.
  unfold grub_gpt_read_copies, backup_attempt, bind. cbv zeta.
  destruct (read_primary_outcome disk g0 w0) as [Hok Herr].
  pose proof (read_primary_reads_only disk g0 w0) as [Hstack _].
  destruct (grub_gpt_read_primary disk g0 w0) as [[e g1] w1].
  cbn [fst snd] in *.
  destruct (failed e) eqn:Fe.
  - unfold grub_error_push, grub_error_pop, ret, clear_errno. cbn [fst snd].
    match goal with
    | |- context [grub_gpt_read_backup disk g1 ?wp] =>
        pose proof (read_backup_reads_only disk g1 wp) as [Hst2 _];
        destruct (grub_gpt_read_backup disk g1 wp) as [[eb gb] w2]
    end.
    cbn [fst snd grub_error_stack with_error with_stack] in *.
    rewrite Hst2. cbn [fst snd].
    split; intros Hv; rewrite Hv; cbn [fst snd grub_errno grub_errmsg
                                         grub_error_stack with_error with_stack].
    + split; reflexivity.
    + rewrite (Herr eq_refl).
      repeat match goal with |- _ /\ _ => split end; auto.
  - match goal with
    | |- context [grub_gpt_read_backup disk g1 w1] =>
        pose proof (read_backup_keeps_bits disk g1 w1 2) as K2;
        pose proof (read_backup_keeps_bits disk g1 w1 3) as K3;
        destruct (grub_gpt_read_backup disk g1 w1) as [[eb gb] w2]
    end.
    cbn [fst snd] in *.
    specialize (Hok eq_refl). rewrite primary_valid_bits in Hok.
    apply andb_true_iff in Hok. destruct Hok as [B2 B3].
    assert (Hpv : grub_gpt_primary_valid gb = true).
    { rewrite primary_valid_bits, (K2 B2), (K3 B3). reflexivity. }
    rewrite Hpv. simpl orb. cbv iota.
    split; intros Hv; [ | discriminate].
    unfold clear_errno, ret. split; reflexivity.
Qed.

Lemma read_reports_primary_error_witness :
  grub_errno (snd (grub_gpt_read sample_disk sample_world)) = GRUB_ERR_NONE
  /\ grub_errno (snd (grub_gpt_read sample_disk backup_only_world)) = GRUB_ERR_NONE
  /\ fst (grub_gpt_read sample_disk blank_world) = None
  /\ grub_errmsg (snd (grub_gpt_read sample_disk blank_world))
     = grub_errmsg
         (snd (grub_gpt_read_primary sample_disk sample_mbr_gpt
                 (snd (grub_gpt_read_mbr sample_disk blank_world)))).
Proof.
  assert (Hmbr : forall w,
             fst (grub_gpt_read_mbr sample_disk w) = Some sample_mbr_gpt ->
             grub_gpt_read_mbr sample_disk w
             = (Some sample_mbr_gpt, snd (grub_gpt_read_mbr sample_disk w))).
  { intros w H. rewrite <- H. apply surjective_pairing. }
  split; [ | split].
  - apply (proj1 (read_reports_primary_error sample_disk sample_world _ _
                    (Hmbr sample_world ltac:(vm_compute; reflexivity)))).
    vm_compute. reflexivity.
  - apply (proj1 (read_reports_primary_error sample_disk backup_only_world _ _
                    (Hmbr backup_only_world ltac:(vm_compute; reflexivity)))).
    vm_compute. reflexivity.
  - destruct (proj2 (read_reports_primary_error sample_disk blank_world _ _
                       (Hmbr blank_world ltac:(vm_compute; reflexivity))))
      as [Hnull [_ [_ [_ [Hmsg _]]]]].
    + vm_compute. reflexivity.
    + split; [exact Hnull | exact Hmsg].
Defined.

(** Before any copy is tried: a refused allocation or a failed read of
    sector 0 makes the reader return NULL at once. *)
Lemma read_without_mbr disk w w0 :
  grub_gpt_read_mbr disk w = (None, w0) -> grub_gpt_read disk w = (None, w0).
Proof.
  intros H. unfold grub_gpt_read, bind. rewrite H. reflexivity.
Qed.

(** A handle the reader returns always has a header to consult, so the
    BUG of [grub_gpt_get_header] is out of reach for [grub_gpt_disk_uuid]
    on its own handle. *)
Lemma read_handle_has_header disk w g w' :
  grub_gpt_read disk w = (Some g, w') ->
  status_has g GRUB_GPT_PRIMARY_HEADER_VALID = true
  \/ status_has g GRUB_GPT_BACKUP_HEADER_VALID = true.
Proof.
  unfold grub_gpt_read, bind.
  destruct (grub_gpt_read_mbr disk w) as [[g0 | ] w0]; [ | discriminate].
  unfold grub_gpt_read_copies, bind. cbv zeta.
  destruct (grub_gpt_read_primary disk g0 w0) as [p w1].
  match goal with
  | |- context [let (_, _) := ?c w1 in _] => destruct (c w1) as [b w2]
  end.
  destruct (grub_gpt_primary_valid (snd b) || grub_gpt_backup_valid (snd b)) eqn:V;
    [ | discriminate].
  unfold clear_errno, ret. intros H. injection H as Hg _. subst g.
  apply orb_true_iff in V. status_bits.
  destruct V as [V | V]; apply andb_true_iff in V; tauto.
Qed.

(** * Further properties of gpt.c *)

(** ** Arithmetic helpers *)

(** X1: on a 32-bit value [is_pow2] answers yes for the powers of two and
    for zero, and for nothing else; zero slips through the bit test, which
    is why its caller checks the lower bound first. *)
Theorem is_pow2_exact n :
  is_u32 n ->
  is_pow2 n = true <-> n = 0 \/ exists k, 0 <= k < 32 /\ n = 2 ^ k.
Proof.
  intros Hn. unfold is_u32 in Hn.
  destruct (Z.eq_dec n 0) as [Z0 | NZ].
  - subst n. split; [intros _; left; reflexivity | intros _; reflexivity].
  - assert (Hpos : 0 < n < 2 ^ 32) by lia.
    rewrite (is_pow2_spec n Hpos). split.
    + intros [k [Hk E]]. right. exists k. split; [ | exact E].
      split; [exact Hk | ].
      destruct (Z.lt_ge_cases k 32) as [Hlt | Hge]; [exact Hlt | exfalso].
      assert (2 ^ 32 <= 2 ^ k) by (apply Z.pow_le_mono_r; lia). lia.
    + intros [E | [k [[Hk _] E]]]; [contradiction | ].
      exists k. split; assumption.
Qed.

Lemma is_pow2_exact_witness :
  is_pow2 256 = true <-> 256 = 0 \/ exists k, 0 <= k < 32 /\ 256 = 2 ^ k.
Proof.
  apply (is_pow2_exact 256). unfold is_u32. lia.
Defined.

(** X2: [grub_gpt_size_to_sectors] gives the least number of sectors that
    hold [size] bytes. *)
Theorem size_to_sectors_least_cover g size :
  0 <= log_sector_size g < 32 -> is_u64 size ->
  size <= grub_gpt_size_to_sectors g size * 2 ^ log_sector_size g
       < size + 2 ^ log_sector_size g.
Proof.
  intros Hls Hsz. rewrite (size_to_sectors_ceil g size Hls Hsz).
  unfold ceil_div, is_u64 in *.
  set (b := 2 ^ log_sector_size g).
  assert (Hb : 0 < b) by (apply Z.pow_pos_nonneg; lia).
  pose proof (Z.div_mod (size + b - 1) b ltac:(lia)) as Hdm.
  pose proof (Z.mod_pos_bound (size + b - 1) b Hb) as Hr.
  nia.
Qed.

Lemma size_to_sectors_least_cover_witness :
  16385 <= grub_gpt_size_to_sectors sample_gpt 16385 * 2 ^ log_sector_size sample_gpt
        < 16385 + 2 ^ log_sector_size sample_gpt.
Proof.
  apply (size_to_sectors_least_cover sample_gpt 16385).
  - change (0 <= 9 < 32). lia.
  - unfold is_u64. lia.
Defined.

(** X3: a device that reports [GRUB_DISK_SIZE_UNKNOWN] is never taken to
    have a known size, whatever its sector size: the shifted sentinel
    stays above 2^51. *)
Theorem unknown_size_is_never_valid disk :
  disk_total_sectors disk = 2 ^ 64 - 1 ->
  9 <= disk_log_sector_size disk < 73 ->
  grub_gpt_disk_size_valid disk = false.
Proof.
  intros Ht Hls.
  unfold grub_gpt_disk_size_valid, shl64, u64, GRUB_DISK_SECTOR_BITS.
  rewrite Ht, Z.shiftl_1_l.
  set (s := disk_log_sector_size disk - 9).
  assert (Hs : 0 <= s < 64) by (unfold s; lia).
  rewrite Z.shiftl_mul_pow2 by lia.
  assert (Hp : 0 < 2 ^ s) by (apply Z.pow_pos_nonneg; lia).
  assert (Hle : 2 ^ s <= 2 ^ 63) by (apply Z.pow_le_mono_r; lia).
  assert (E : ((2 ^ 64 - 1) * 2 ^ s) mod 2 ^ 64 = 2 ^ 64 - 2 ^ s).
  { symmetry. apply Z.mod_unique with (q := 2 ^ s - 1); lia. }
  rewrite E.
  destruct (Z.gtb_spec (2 ^ 64 - 2 ^ s) (2 ^ 51)) as [G | G]; [reflexivity | ].
  exfalso. assert (2 ^ 51 < 2 ^ 63) by reflexivity. lia.
Qed.

Lemma unknown_size_is_never_valid_witness :
  grub_gpt_disk_size_valid sample_disk_unsized = false.
Proof.
  apply (unknown_size_is_never_valid sample_disk_unsized).
  - reflexivity.
  - change (9 <= 9 < 73). lia.
Defined.

(** ** The updater *)

(** X4: whatever its verdict, [grub_gpt_update] leaves both headers with
    the native size, with the CRC-32 of the entry buffer in
    [partentry_crc32] and with their own CRC-32 in [crc32]; the entry
    buffer itself is not touched. *)
Theorem update_seals_headers g w :
  let g' := snd (fst (grub_gpt_update g w)) in
  headersize (primary g') = sizeof_grub_gpt_header
  /\ headersize (backup g') = sizeof_grub_gpt_header
  /\ partentry_crc32 (primary g') = grub_gpt_lecrc32 (entries g') (entries_size g')
  /\ partentry_crc32 (backup g') = grub_gpt_lecrc32 (entries g') (entries_size g')
  /\ crc32 (primary g') = grub_gpt_header_lecrc32 (primary g')
  /\ crc32 (backup g') = grub_gpt_header_lecrc32 (backup g')
  /\ entries g' = entries g /\ entries_size g' = entries_size g.
Proof.
  rewrite update_unfold. cbv zeta.
  destruct (grub_gpt_check_primary (update_reseal g) w) as [c1 w1].
  destruct (failed c1); [repeat split | ].
  destruct (grub_gpt_check_backup (or_status primary_bits (update_reseal g)) w1)
    as [c2 w2].
  destruct (failed c2); repeat split.
Qed.

Lemma check_backup_same_headers g1 g2 w :
  primary g1 = primary g2 -> backup g1 = backup g2 ->
  log_sector_size g1 = log_sector_size g2 ->
  status_has g1 GRUB_GPT_PRIMARY_HEADER_VALID
  = status_has g2 GRUB_GPT_PRIMARY_HEADER_VALID ->
  grub_gpt_check_backup g1 w = grub_gpt_check_backup g2 w.
Proof.
  intros Hp Hb Hl Hs.
  unfold grub_gpt_check_backup, grub_gpt_headers_equal.
  rewrite Hp, Hb, Hl, Hs. reflexivity.
Qed.

Lemma check_primary_same_headers g1 g2 w :
  primary g1 = primary g2 -> log_sector_size g1 = log_sector_size g2 ->
  grub_gpt_check_primary g1 w = grub_gpt_check_primary g2 w.
Proof.
  intros Hp Hl. unfold grub_gpt_check_primary. rewrite Hp, Hl. reflexivity.
Qed.

(** The mirror test is the last thing [grub_gpt_check_backup] looks at. *)
Lemma check_backup_pass_mirror g w :
  failed (fst (grub_gpt_check_backup g w)) = false ->
  status_has g GRUB_GPT_PRIMARY_HEADER_VALID = true ->
  grub_gpt_headers_equal g = true.
Proof.
  unfold grub_gpt_check_backup, bind, grub_error, get_errno, ret. cbv zeta.
  destruct (header_check_shape (backup g) (log_sector_size g)) as [[m | ] Hh];
    rewrite Hh; simpl; [intros H; discriminate H | ].
  intros H Hp. rewrite Hp in H.
  destruct (grub_gpt_headers_equal g); [reflexivity | ].
  simpl in H.
  repeat match type of H with
         | context [if ?c then _ else _] => destruct c; simpl in H; try discriminate
         end.
Qed.

Lemma or_status_primary_bit bits g :
  Z.testbit bits 2 = true ->
  status_has (or_status bits g) GRUB_GPT_PRIMARY_HEADER_VALID = true.
Proof.
  intros H. status_bits. rewrite or_status_testbit, H. apply orb_true_r.
Qed.

(** X5: when [grub_gpt_update] succeeds, the handle it returns passes
    both validation routines again in every environment, and its two
    headers pass the mirror test of [grub_gpt_headers_equal]. *)
Theorem update_success_is_valid g w :
  fst (fst (grub_gpt_update g w)) = GRUB_ERR_NONE ->
  let g' := snd (fst (grub_gpt_update g w)) in
  grub_gpt_headers_equal g' = true
  /\ forall w', grub_gpt_check_primary g' w' = (GRUB_ERR_NONE, w')
                /\ grub_gpt_check_backup g' w' = (GRUB_ERR_NONE, w').
Proof.
  rewrite update_unfold. cbv zeta.
  destruct (check_primary_shape (update_reseal g)) as [r1 H1].
  destruct (check_backup_shape (or_status primary_bits (update_reseal g))) as [r2 H2].
  rewrite H1.
  destruct (check_result r1 w) as [c1 w1] eqn:E1.
  destruct (failed c1) eqn:F1; [simpl; discriminate | ].
  rewrite H2.
  destruct (check_result r2 w1) as [c2 w2] eqn:E2.
  destruct (failed c2) eqn:F2; [simpl; discriminate | ].
  cbn [fst snd]. intros _.
  assert (P1 : failed (fst (check_result r1 w)) = false) by (rewrite E1; exact F1).
  assert (P2 : failed (fst (check_result r2 w1)) = false) by (rewrite E2; exact F2).
  split.
  - change (grub_gpt_headers_equal (or_status primary_bits (update_reseal g)) = true).
    apply (check_backup_pass_mirror _ w1).
    + rewrite H2. exact P2.
    + apply or_status_primary_bit. reflexivity.
  - intros w'. split.
    + rewrite (check_primary_same_headers _ (update_reseal g) w');
        [ | reflexivity | reflexivity].
      rewrite H1. apply (check_result_pass r1 w P1).
    + rewrite (check_backup_same_headers _ (or_status primary_bits (update_reseal g)) w');
        [ | reflexivity | reflexivity | reflexivity | ].
      * rewrite H2. apply (check_result_pass r2 w1 P2).
      * status_bits. rewrite !or_status_testbit.
        change (Z.testbit backup_bits 2) with false.
        rewrite orb_false_r. reflexivity.
Qed.

Lemma update_success_is_valid_witness :
  grub_gpt_headers_equal (snd (fst (grub_gpt_update sample_gpt_primary_only
                                       sample_world))) = true.
Proof.
  apply (update_success_is_valid sample_gpt_primary_only sample_world).
  vm_compute. reflexivity.
Defined.

Lemma gpt_ext g1 g2 :
  status g1 = status g2 -> mbr g1 = mbr g2 ->
  primary g1 = primary g2 -> backup g1 = backup g2 ->
  entries g1 = entries g2 -> entries_size g1 = entries_size g2 ->
  log_sector_size g1 = log_sector_size g2 ->
  g1 = g2.
Proof.
  destruct g1, g2. simpl. intros. subst. reflexivity.
Qed.

Lemma land_clear_absorbs s c m :
  Z.land c m = c ->
  Z.land (Z.lor s c) (Z.lnot m) = Z.land s (Z.lnot m).
Proof.
  intros H. apply Z.bits_inj'. intros n Hn.
  rewrite !Z.land_spec, Z.lor_spec, Z.lnot_spec by exact Hn.
  assert (Hb : Z.testbit (Z.land c m) n = Z.testbit c n) by (rewrite H; reflexivity).
  rewrite Z.land_spec in Hb.
  destruct (Z.testbit s n), (Z.testbit c n), (Z.testbit m n); simpl in *; congruence.
Qed.

(** Resealing forgets the four status bits and the stored checksums, so
    it does not see what an earlier update left in them. *)
Lemma reseal_after_bits bits g :
  Z.land bits 60 = bits ->
  update_reseal (or_status bits (update_reseal g)) = update_reseal g.
Proof.
  intros Hb. apply gpt_ext; try reflexivity.
  unfold update_reseal, or_status, clear_status. cbn [status set_status set_primary set_backup].
  change (Z.lor (Z.lor (Z.lor GRUB_GPT_PRIMARY_HEADER_VALID
                              GRUB_GPT_PRIMARY_ENTRIES_VALID)
                       GRUB_GPT_BACKUP_HEADER_VALID)
                GRUB_GPT_BACKUP_ENTRIES_VALID) with 60.
  rewrite (land_clear_absorbs _ bits 60 Hb).
  rewrite <- Z.land_assoc, Z.land_diag. reflexivity.
Qed.

Lemma reseal_twice g : update_reseal (update_reseal g) = update_reseal g.
Proof.
  apply gpt_ext; try reflexivity.
  unfold update_reseal, clear_status. cbn [status set_status set_primary set_backup].
  rewrite <- Z.land_assoc, Z.land_diag. reflexivity.
Qed.

(** X6: [grub_gpt_update] is idempotent: run again on the handle it
    returned, in any environment, it gives the same verdict and the same
    handle. *)
Theorem update_idempotent g w w' :
  fst (grub_gpt_update (snd (fst (grub_gpt_update g w))) w')
  = fst (grub_gpt_update g w).
Proof.
  destruct (check_primary_shape (update_reseal g)) as [r1 H1].
  destruct (check_backup_shape (or_status primary_bits (update_reseal g))) as [r2 H2].
  assert (Hrun : forall x v,
             update_reseal x = update_reseal g ->
             fst (grub_gpt_update x v)
             = (if failed (fst (check_result r1 v))
                then (GRUB_ERR_BUG, update_reseal g)
                else if failed (fst (check_result r2 v))
                     then (GRUB_ERR_BUG, or_status primary_bits (update_reseal g))
                     else (GRUB_ERR_NONE,
                           or_status backup_bits
                             (or_status primary_bits (update_reseal g))))).
  { intros x v Hx. rewrite update_unfold. cbv zeta. rewrite Hx, H1.
    destruct r1 as [m1 | ]; [reflexivity | ]. cbn [check_result fst failed grub_err_eqb negb].
    rewrite H2.
    destruct r2 as [m2 | ]; reflexivity. }
  rewrite (Hrun g w eq_refl).
  assert (Hcode : forall r v, failed (fst (check_result r v))
                              = failed (fst (check_result r w'))).
  { intros r v. rewrite (check_result_code r v w'). reflexivity. }
  rewrite (Hcode r1 w), (Hcode r2 w).
  destruct (failed (fst (check_result r1 w'))) eqn:F1; cbn [fst snd].
  - rewrite (Hrun _ w' (reseal_twice g)), F1. reflexivity.
  - destruct (failed (fst (check_result r2 w'))) eqn:F2; cbn [fst snd].
    + rewrite (Hrun _ w' (reseal_after_bits primary_bits g eq_refl)), F1, F2.
      reflexivity.
    + assert (Hx : update_reseal
                     (or_status backup_bits (or_status primary_bits (update_reseal g)))
                   = update_reseal g).
      { replace (or_status backup_bits (or_status primary_bits (update_reseal g)))
          with (or_status 60 (update_reseal g)).
        - apply reseal_after_bits. reflexivity.
        - unfold or_status, set_status. cbn [status mbr primary backup entries
                                                entries_size log_sector_size].
          rewrite <- Z.lor_assoc. reflexivity. }
      rewrite (Hrun _ w' Hx), F1, F2. reflexivity.
Qed.

(** X7: [grub_gpt_update] never talks to the device: the log of requests
    and the medium are as before.  When it succeeds, the error slot and
    the error stack are as before too.  When it fails the error slot
    holds BUG and the diagnostic of the validation that failed, of kind
    BAD_PART_TABLE, sits on top of the error stack. *)
Theorem update_environment g w :
  let r := grub_gpt_update g w in
  io_log (snd r) = io_log w /\ medium (snd r) = medium w
  /\ (fst (fst r) = GRUB_ERR_NONE ->
      grub_errno (snd r) = grub_errno w
      /\ grub_errmsg (snd r) = grub_errmsg w
      /\ grub_error_stack (snd r) = grub_error_stack w)
  /\ (fst (fst r) <> GRUB_ERR_NONE ->
      fst (fst r) = GRUB_ERR_BUG
      /\ grub_errno (snd r) = GRUB_ERR_BUG
      /\ exists m, grub_error_stack (snd r)
                   = (GRUB_ERR_BAD_PART_TABLE, m) :: grub_error_stack w).
Proof.
  cbv zeta. rewrite update_unfold. cbv zeta.
  destruct (check_primary_shape (update_reseal g)) as [r1 H1].
  destruct (check_backup_shape (or_status primary_bits (update_reseal g))) as [r2 H2].
  rewrite H1.
  destruct r1 as [m1 | ]; cbn [check_result failed grub_err_eqb negb fst snd].
  { repeat match goal with |- _ /\ _ => split end; try reflexivity.
    - discriminate.
    - intros _. repeat split. exists m1. reflexivity. }
  rewrite H2.
  destruct r2 as [m2 | ]; cbn [check_result failed grub_err_eqb negb fst snd].
  { repeat match goal with |- _ /\ _ => split end; try reflexivity.
    - discriminate.
    - intros _. repeat split. exists m2. reflexivity. }
  repeat match goal with |- _ /\ _ => split end; try reflexivity.
  - intros _. repeat split.
  - intros H. contradiction.
Qed.

(** ** The writer *)

Lemma spares_refl w : spares_sector_zero w w.
Proof.
  split; [reflexivity | ]. exists []. split; [symmetry; apply app_nil_r | constructor].
Qed.

Lemma spares_trans w1 w2 w3 :
  spares_sector_zero w1 w2 -> spares_sector_zero w2 w3 -> spares_sector_zero w1 w3.
Proof.
  intros [M1 [t1 [L1 F1]]] [M2 [t2 [L2 F2]]]. split.
  - intros a Ha. rewrite (M2 a Ha). apply M1. exact Ha.
  - exists (t1 ++ t2). split.
    + rewrite L2, L1, app_assoc. reflexivity.
    + apply Forall_app. split; assumption.
Qed.

Lemma spares_error e m w w' :
  spares_sector_zero w w' -> spares_sector_zero w (with_error e m w').
Proof. intros H. exact H. Qed.

Lemma spares_console c w w' :
  spares_sector_zero w w' -> spares_sector_zero w (with_console c w').
Proof. intros H. exact H. Qed.

Lemma shl64_range x n : 0 <= shl64 x n < 2 ^ 64.
Proof. unfold shl64, u64. apply Z.mod_pos_bound. reflexivity. Qed.

Lemma disk_write_spares disk sector size buf w :
  1 <= sector ->
  spares_sector_zero w (snd (grub_disk_write disk sector 0 size buf w)).
Proof.
  intros Hs. unfold grub_disk_write.
  destruct (write_fault w sector 0 size) as [f | ]; cbn [snd].
  - split; [reflexivity | ].
    eexists [_]. split; [reflexivity | ].
    constructor; [ | constructor]. simpl. split; [exact Hs | reflexivity].
  - split.
    + intros a Ha. cbn [medium with_io]. unfold medium_store.
      destruct (Z.leb_spec 0 (a - (sector * 512 + 0))); [lia | reflexivity].
    + eexists [_]. split; [reflexivity | ].
      constructor; [ | constructor]. simpl. split; [exact Hs | reflexivity].
Qed.

Lemma write_table_spares disk g h w :
  spares_sector_zero w (snd (grub_gpt_write_table disk g h w)).
Proof.
  unfold grub_gpt_write_table, bind, grub_error, get_errno, ret.
  destruct (negb (headersize h =? sizeof_grub_gpt_header)); [exact (spares_refl w) | ].
  pose proof (shl64_range (header_lba h) (log_sector_size g - GRUB_DISK_SECTOR_BITS))
    as Rh.
  pose proof (shl64_range (partitions h) (log_sector_size g - GRUB_DISK_SECTOR_BITS))
    as Rp.
  fold (grub_gpt_sector_to_addr g (header_lba h)) in Rh.
  fold (grub_gpt_sector_to_addr g (partitions h)) in Rp.
  destruct (Z.eqb_spec (grub_gpt_sector_to_addr g (header_lba h)) 0) as [E | E];
    [exact (spares_refl w) | ].
  pose proof (disk_write_spares disk (grub_gpt_sector_to_addr g (header_lba h))
                sizeof_grub_gpt_header (header_bytes h) w ltac:(lia)) as S1.
  destruct (grub_disk_write disk (grub_gpt_sector_to_addr g (header_lba h)) 0
                            sizeof_grub_gpt_header (header_bytes h) w) as [e1 w1].
  cbn [snd] in S1.
  destruct (failed e1); [exact S1 | ].
  destruct (Z.ltb_spec (grub_gpt_sector_to_addr g (partitions h)) 2) as [L | L];
    [exact S1 | ].
  pose proof (disk_write_spares disk (grub_gpt_sector_to_addr g (partitions h))
                (entries_size g) (entries g) w1 ltac:(lia)) as S2.
  destruct (grub_disk_write disk (grub_gpt_sector_to_addr g (partitions h)) 0
                            (entries_size g) (entries g) w1) as [e2 w2].
  cbn [snd] in S2.
  destruct (failed e2); cbn [snd]; exact (spares_trans _ _ _ S1 S2).
Qed.

(** X8: [grub_gpt_write] never writes to sector 0, whatever handle it is
    given: every request it sends is a write that starts at block 1 or
    later, and the first 512 bytes of the medium, the protective MBR, are
    afterwards what they were. *)
Theorem write_spares_sector_zero disk g w :
  (forall a, a < 512 ->
             medium (snd (grub_gpt_write disk g w)) a = medium w a)
  /\ exists t, io_log (snd (grub_gpt_write disk g w)) = io_log w ++ t
               /\ Forall above_sector_zero t.
Proof.
  change (spares_sector_zero w (snd (grub_gpt_write disk g w))).
  unfold grub_gpt_write, bind, grub_error, grub_printf, get_errno, ret.
  destruct (negb (grub_gpt_both_valid g)); [exact (spares_refl w) | ].
  destruct (grub_gpt_disk_size_valid disk
            && (header_lba (backup g) >=? disk_total_sectors disk)).
  - cbn [fst snd].
    match goal with
    | |- context [grub_gpt_write_table disk g (primary g) ?w1] =>
        pose proof (write_table_spares disk g (primary g) w1) as S;
        destruct (grub_gpt_write_table disk g (primary g) w1) as [e1 w2]
    end.
    cbn [snd] in S. destruct (failed e1); exact S.
  - pose proof (write_table_spares disk g (backup g) w) as Sb.
    destruct (grub_gpt_write_table disk g (backup g) w) as [eb wb].
    cbn [snd] in Sb. destruct (failed eb); [exact Sb | ].
    pose proof (write_table_spares disk g (primary g) wb) as Sp.
    destruct (grub_gpt_write_table disk g (primary g) wb) as [ep wp].
    cbn [snd] in Sp.
    destruct (failed ep); cbn [snd]; exact (spares_trans _ _ _ Sb Sp).
Qed.

(** ** The repairer *)

Lemma update_outcome g w :
  (grub_gpt_update g w
   = ((GRUB_ERR_NONE,
       or_status backup_bits (or_status primary_bits (update_reseal g))), w))
  \/ (exists g' w', grub_gpt_update g w = ((GRUB_ERR_BUG, g'), w')
                    /\ grub_errno w' = GRUB_ERR_BUG
                    /\ io_log w' = io_log w /\ medium w' = medium w
                    /\ entries g' = entries g /\ entries_size g' = entries_size g
                    /\ log_sector_size g' = log_sector_size g).
Proof.
  rewrite update_unfold. cbv zeta.
  destruct (check_primary_shape (update_reseal g)) as [r1 H1].
  destruct (check_backup_shape (or_status primary_bits (update_reseal g))) as [r2 H2].
  rewrite H1.
  destruct r1 as [m1 | ]; cbn [check_result failed grub_err_eqb negb fst snd].
  { right. eexists _, _. split; [reflexivity | ]. repeat split. }
  rewrite H2.
  destruct r2 as [m2 | ]; cbn [check_result failed grub_err_eqb negb fst snd].
  { right. eexists _, _. split; [reflexivity | ]. repeat split. }
  left. reflexivity.
Qed.

Lemma all_bits_after_update g :
  grub_gpt_both_valid
    (or_status backup_bits (or_status primary_bits (update_reseal g))) = true.
Proof.
  status_bits. rewrite !or_status_testbit.
  change (Z.testbit primary_bits 2) with true.
  change (Z.testbit primary_bits 3) with true.
  change (Z.testbit backup_bits 4) with true.
  change (Z.testbit backup_bits 5) with true.
  rewrite !orb_true_r. reflexivity.
Qed.

(** X9: [grub_gpt_repair] reports success only for a handle with all four
    bits set, whichever way it got there; it never touches the entry
    buffer or the captured sector size, and never talks to the device. *)
Theorem repair_success_is_fully_valid disk g w :
  let r := grub_gpt_repair disk g w in
  (fst (fst r) = GRUB_ERR_NONE -> grub_gpt_both_valid (snd (fst r)) = true)
  /\ entries (snd (fst r)) = entries g
  /\ entries_size (snd (fst r)) = entries_size g
  /\ log_sector_size (snd (fst r)) = log_sector_size g
  /\ io_log (snd r) = io_log w /\ medium (snd r) = medium w.
Proof.
  cbv zeta. unfold grub_gpt_repair, bind, grub_error, get_errno, ret.
  destruct (grub_gpt_both_valid g) eqn:Hb.
  { cbn [fst snd]. repeat split. intros _. exact Hb. }
  destruct (negb (disk_log_sector_size disk =? log_sector_size g)).
  { cbn [fst snd]. repeat split. discriminate. }
  assert (Hupd : forall x,
             entries x = entries g -> entries_size x = entries_size g ->
             log_sector_size x = log_sector_size g ->
             let r := (let (a, w1) := grub_gpt_update x w in
                       (if failed (fst a)
                        then fun w2 : grub_world => (grub_errno w2, snd a, w2)
                        else fun w2 : grub_world => (GRUB_ERR_NONE, snd a, w2)) w1) in
             (fst (fst r) = GRUB_ERR_NONE -> grub_gpt_both_valid (snd (fst r)) = true)
             /\ entries (snd (fst r)) = entries g
             /\ entries_size (snd (fst r)) = entries_size g
             /\ log_sector_size (snd (fst r)) = log_sector_size g
             /\ io_log (snd r) = io_log w /\ medium (snd r) = medium w).
  { intros x He Hs Hl. cbv zeta.
    destruct (update_outcome x w) as [U | [g' [w' [U [Hno [Hio [Hm [E1 [E2 E3]]]]]]]]];
      rewrite U; cbn [fst snd failed grub_err_eqb negb].
    - repeat match goal with |- _ /\ _ => split end;
        [ intros _; apply all_bits_after_update
        | exact He | exact Hs | exact Hl | reflexivity | reflexivity ].
    - rewrite Hno. repeat match goal with |- _ /\ _ => split end;
        try congruence; discriminate. }
  destruct (grub_gpt_primary_valid g).
  { apply Hupd; unfold repair_from_primary; cbv zeta;
      destruct (grub_gpt_disk_size_valid disk
                && (u64 (disk_total_sectors disk - 1) >? alternate_lba (primary g)));
      reflexivity. }
  destruct (grub_gpt_backup_valid g).
  { apply Hupd; reflexivity. }
  cbn [fst snd]. repeat split. discriminate.
Qed.

Lemma repair_success_is_fully_valid_witness :
  grub_gpt_both_valid
    (snd (fst (grub_gpt_repair sample_disk_grown sample_gpt_primary_only sample_world)))
  = true.
Proof.
  apply (repair_success_is_fully_valid sample_disk_grown sample_gpt_primary_only
           sample_world).
  vm_compute. reflexivity.
Defined.

(** ** The reader and the environment *)

Lemma pmbr_check_reads_only m w : reads_only w (snd (grub_gpt_pmbr_check m w)).
Proof.
  unfold grub_gpt_pmbr_check, grub_error.
  repeat match goal with
         | |- context [if ?c then _ else _] => destruct c
         end; cbn [snd]; auto with frame.
Qed.

Lemma read_mbr_reads_only disk w : reads_only w (snd (grub_gpt_read_mbr disk w)).
Proof.
  unfold grub_gpt_read_mbr, bind, clear_errno, ret.
  run_call (grub_malloc_reads_only sizeof_grub_gpt w).
  destruct (negb r); [exact RO | ].
  run_call (grub_disk_read_reads_only disk 0 0 sizeof_mbr w0).
  assert (R1 : reads_only w w1) by eauto using reads_only_trans.
  destruct (failed (fst r0)); [exact R1 | ].
  match goal with
  | |- context [grub_gpt_pmbr_check ?m w1] =>
      run_call (pmbr_check_reads_only m w1)
  end.
  assert (R2 : reads_only w w2) by eauto using reads_only_trans.
  destruct (failed r1); cbn [snd]; auto with frame.
Qed.

(** A push, a reading call and a pop leave the error stack balanced. *)
Lemma read_copies_reads_only disk g w :
  reads_only w (snd (grub_gpt_read_copies disk g w)).
Proof.
  unfold grub_gpt_read_copies, bind, clear_errno, ret. cbv zeta.
  run_call (read_primary_reads_only disk g w).
  destruct (failed (fst r)).
  - unfold grub_error_push, grub_error_pop, ret. cbn [fst snd].
    match goal with
    | |- context [grub_gpt_read_backup disk ?g1 ?wp] =>
        pose proof (read_backup_reads_only disk g1 wp) as RB;
        destruct (grub_gpt_read_backup disk g1 wp) as [b w2]
    end.
    cbn [snd] in RB.
    destruct RB as [B1 [B2 [B3 [B4 [B5 [B6 [B7 [t B8]]]]]]]].
    cbn [grub_error_stack console medium read_fault write_fault alloc_ok
         stray_memory io_log with_error with_stack] in *.
    rewrite B1.
    assert (R : reads_only w0
                  (with_error (grub_errno w0) (grub_errmsg w0)
                     (with_stack (grub_error_stack w0) w2))).
    { unfold reads_only. cbn [grub_error_stack console medium read_fault
                                write_fault alloc_ok stray_memory io_log
                                with_error with_stack].
      repeat match goal with |- _ /\ _ => split end; try assumption; try reflexivity.
      exists t. exact B8. }
    destruct (grub_gpt_primary_valid (snd b) || grub_gpt_backup_valid (snd b));
      cbn [snd]; eauto using reads_only_trans with frame.
  - run_call (read_backup_reads_only disk (snd r) w0).
    assert (R : reads_only w w1) by eauto using reads_only_trans.
    destruct (grub_gpt_primary_valid (snd r0) || grub_gpt_backup_valid (snd r0));
      cbn [snd]; auto with frame.
Qed.

(** X10: [grub_gpt_read] does not write.  The bytes of the medium and the
    error stack are afterwards what they were (the push around the backup
    attempt is matched by its pop), and the log of requests has only
    grown. *)
Theorem read_leaves_medium_and_stack disk w :
  medium (snd (grub_gpt_read disk w)) = medium w
  /\ grub_error_stack (snd (grub_gpt_read disk w)) = grub_error_stack w
  /\ exists t, io_log (snd (grub_gpt_read disk w)) = io_log w ++ t.
Proof.
  assert (R : reads_only w (snd (grub_gpt_read disk w))).
  { unfold grub_gpt_read, bind, ret.
    run_call (read_mbr_reads_only disk w).
    destruct r as [g | ]; [ | exact RO].
    eapply reads_only_trans; [exact RO | apply read_copies_reads_only]. }
  destruct R as [A1 [A2 [A3 [_ [_ [_ [_ A8]]]]]]]. auto.
Qed.

(** ** Printing a GUID *)

Lemma string_length_app (a b : string) :
  String.length (a ++ b)%string = (String.length a + String.length b)%nat.
Proof.
  induction a as [| c a IH]; simpl; [reflexivity | ]. rewrite IH. reflexivity.
Qed.

Lemma string_app_inj (a c b d : string) :
  String.length a = String.length c ->
  (a ++ b)%string = (c ++ d)%string -> a = c /\ b = d.
Proof.
  revert c. induction a as [| x a IH]; intros [| y c] Hl E; simpl in *;
    try discriminate.
  - split; [reflexivity | exact E].
  - injection E as Exy E. injection Hl as Hl.
    destruct (IH c Hl E) as [E1 E2]. subst. split; reflexivity.
Qed.

Lemma hex_fixed_length n x : String.length (hex_fixed n x) = n.
Proof.
  revert x. induction n as [| n IH]; intros x; simpl; [reflexivity | ].
  rewrite string_length_app, IH. simpl. lia.
Qed.

Lemma hex_digit_value_digit d : 0 <= d < 16 -> hex_digit_value (hex_digit d) = d.
Proof.
  intros Hd.
  assert (C : d = 0 \/ d = 1 \/ d = 2 \/ d = 3 \/ d = 4 \/ d = 5 \/ d = 6 \/ d = 7
              \/ d = 8 \/ d = 9 \/ d = 10 \/ d = 11 \/ d = 12 \/ d = 13 \/ d = 14
              \/ d = 15) by lia.
  repeat (destruct C as [C | C]; [subst d; reflexivity | ]).
  subst d. reflexivity.
Qed.

Lemma hex_value_app a b acc :
  hex_value (a ++ b)%string acc = hex_value b (hex_value a acc).
Proof.
  revert acc. induction a as [| c a IH]; intros acc; simpl; [reflexivity | ].
  apply IH.
Qed.

Lemma hex_value_fixed n x acc :
  hex_value (hex_fixed n x) acc = acc * 16 ^ Z.of_nat n + x mod 16 ^ Z.of_nat n.
Proof.
  revert x acc. induction n as [| n IH]; intros x acc.
  - simpl. rewrite Z.mod_1_r. lia.
  - cbn [hex_fixed]. rewrite hex_value_app, IH. cbn [hex_value].
    rewrite hex_digit_value_digit by (apply Z.mod_pos_bound; lia).
    rewrite Nat2Z.inj_succ, Z.pow_succ_r by lia.
    assert (Hp : 0 < 16 ^ Z.of_nat n) by (apply Z.pow_pos_nonneg; lia).
    rewrite (Z.rem_mul_r x 16 (16 ^ Z.of_nat n)) by lia.
    ring.
Qed.

Lemma hex_fixed_inj n x y :
  0 <= x < 16 ^ Z.of_nat n -> 0 <= y < 16 ^ Z.of_nat n ->
  hex_fixed n x = hex_fixed n y -> x = y.
Proof.
  intros Hx Hy E.
  pose proof (hex_value_fixed n x 0) as Vx.
  pose proof (hex_value_fixed n y 0) as Vy.
  rewrite E, Vy in Vx.
  rewrite (Z.mod_small x), (Z.mod_small y) in Vx by assumption. lia.
Qed.

Lemma byte_val_range b : 0 <= byte_val b < 256.
Proof.
  unfold byte_val. pose proof (Byte.to_N_bounded b). lia.
Qed.

Lemma byte_val_inj a b : byte_val a = byte_val b -> a = b.
Proof.
  unfold byte_val. intros H. apply N2Z.inj in H.
  pose proof (Byte.of_to_N a) as Ha. rewrite H, Byte.of_to_N in Ha.
  congruence.
Qed.

Lemma hex_byte_at_inj l1 l2 i :
  hex_byte_at l1 i = hex_byte_at l2 i ->
  nth i l1 "000"%byte = nth i l2 "000"%byte.
Proof.
  unfold hex_byte_at. intros H. apply byte_val_inj.
  apply (hex_fixed_inj 2); [apply byte_val_range | apply byte_val_range | exact H].
Qed.

Lemma eight_bytes_ext (l1 l2 : list byte) :
  List.length l1 = 8%nat -> List.length l2 = 8%nat ->
  (forall i, (i < 8)%nat -> nth i l1 "000"%byte = nth i l2 "000"%byte) ->
  l1 = l2.
Proof.
  intros H1 H2 H.
  do 9 (destruct l1 as [| ? l1]; try discriminate).
  do 9 (destruct l2 as [| ? l2]; try discriminate).
  pose proof (H 0%nat ltac:(lia)). pose proof (H 1%nat ltac:(lia)).
  pose proof (H 2%nat ltac:(lia)). pose proof (H 3%nat ltac:(lia)).
  pose proof (H 4%nat ltac:(lia)). pose proof (H 5%nat ltac:(lia)).
  pose proof (H 6%nat ltac:(lia)). pose proof (H 7%nat ltac:(lia)).
  simpl in *. congruence.
Qed.

Lemma guid_to_str_text g w :
  grub_gpt_guid_to_str g w
  = if alloc_ok w (Z.of_nat (String.length (guid_text g)) + 1)
    then (Some (guid_text g), w)
    else (None, with_error GRUB_ERR_OUT_OF_MEMORY ("out of memory", []) w).
Proof.
  unfold grub_gpt_guid_to_str, bind, grub_malloc, ret. cbv zeta.
  fold (guid_text g).
  destruct (alloc_ok w (Z.of_nat (String.length (guid_text g)) + 1)); reflexivity.
Qed.

Lemma guid_text_length g : String.length (guid_text g) = 36%nat.
Proof.
  unfold guid_text, hex_byte_at.
  repeat rewrite string_length_app. repeat rewrite hex_fixed_length. reflexivity.
Qed.

Lemma guid_text_inj a b : guid_wf a -> guid_wf b -> guid_text a = guid_text b -> a = b.
Proof.
  intros [A1 [A2 [A3 A4]]] [B1 [B2 [B3 B4]]] E.
  unfold guid_text in E. unfold is_u32, is_u16 in *.
  repeat match type of E with
         | (?x ++ _)%string = (?y ++ _)%string =>
             let H := fresh "P" in
             apply string_app_inj in E;
             [ destruct E as [H E]
             | first [ unfold hex_byte_at; rewrite !hex_fixed_length; reflexivity
                     | reflexivity ] ]
         end.
  apply hex_fixed_inj in P; [ | simpl; lia | simpl; lia].
  apply hex_fixed_inj in P1; [ | simpl; lia | simpl; lia].
  apply hex_fixed_inj in P3; [ | simpl; lia | simpl; lia].
  assert (D : data4 a = data4 b).
  { apply eight_bytes_ext; [exact A4 | exact B4 | ].
    intros i Hi.
    assert (C : (i = 0 \/ i = 1 \/ i = 2 \/ i = 3 \/ i = 4 \/ i = 5 \/ i = 6
                 \/ i = 7)%nat) by lia.
    repeat (destruct C as [C | C]; [subst i; apply hex_byte_at_inj; assumption | ]).
    subst i. apply hex_byte_at_inj. assumption. }
  destruct a, b; simpl in *; subst; reflexivity.
Qed.

Lemma string_get_skip (a r : string) (n k : nat) :
  String.length a = k -> String.get (k + n) (a ++ r)%string = String.get n r.
Proof.
  intros H. subst k. rewrite Nat.add_comm. symmetry. apply String.append_correct2.
Qed.

Lemma guid_text_dashes g :
  String.get 8 (guid_text g) = Some "-"%char
  /\ String.get 13 (guid_text g) = Some "-"%char
  /\ String.get 18 (guid_text g) = Some "-"%char
  /\ String.get 23 (guid_text g) = Some "-"%char.
Proof.
  unfold guid_text, hex_byte_at.
  repeat match goal with |- _ /\ _ => split end.
  - change 8%nat with (8 + 0)%nat.
    rewrite (string_get_skip _ _ 0 8 (hex_fixed_length 8 _)). reflexivity.
  - change 13%nat with (8 + 5)%nat.
    rewrite (string_get_skip _ _ 5 8 (hex_fixed_length 8 _)). cbn [String.get append].
    change 4%nat with (4 + 0)%nat at 1.
    rewrite (string_get_skip _ _ 0 4 (hex_fixed_length 4 _)). reflexivity.
  - change 18%nat with (8 + 10)%nat.
    rewrite (string_get_skip _ _ 10 8 (hex_fixed_length 8 _)). cbn [String.get append].
    change 9%nat with (4 + 5)%nat.
    rewrite (string_get_skip _ _ 5 4 (hex_fixed_length 4 _)). cbn [String.get append].
    change 4%nat with (4 + 0)%nat at 1.
    rewrite (string_get_skip _ _ 0 4 (hex_fixed_length 4 _)). reflexivity.
  - change 23%nat with (8 + 15)%nat.
    rewrite (string_get_skip _ _ 15 8 (hex_fixed_length 8 _)). cbn [String.get append].
    change 14%nat with (4 + 10)%nat.
    rewrite (string_get_skip _ _ 10 4 (hex_fixed_length 4 _)). cbn [String.get append].
    change 9%nat with (4 + 5)%nat.
    rewrite (string_get_skip _ _ 5 4 (hex_fixed_length 4 _)). cbn [String.get append].
    change 4%nat with (2 + 2)%nat at 1.
    rewrite (string_get_skip _ _ 2 2 (hex_fixed_length 2 _)).
    change 2%nat with (2 + 0)%nat at 1.
    rewrite (string_get_skip _ _ 0 2 (hex_fixed_length 2 _)). reflexivity.
Qed.

(** X11: [grub_gpt_guid_to_str] either hands back a text of 36
    characters with hyphens after the 8th, 12th, 16th and 20th digit and
    leaves the environment alone, or, when the allocation is refused,
    hands back NULL with OUT_OF_MEMORY in the error slot. *)
Theorem guid_to_str_shape g w :
  (exists s, grub_gpt_guid_to_str g w = (Some s, w)
             /\ String.length s = 36%nat
             /\ String.get 8 s = Some "-"%char
             /\ String.get 13 s = Some "-"%char
             /\ String.get 18 s = Some "-"%char
             /\ String.get 23 s = Some "-"%char)
  \/ (alloc_ok w 37 = false
      /\ grub_gpt_guid_to_str g w
         = (None, with_error GRUB_ERR_OUT_OF_MEMORY ("out of memory", []) w)).
Proof.
  rewrite guid_to_str_text, guid_text_length.
  change (Z.of_nat 36 + 1) with 37.
  destruct (alloc_ok w 37).
  - left. exists (guid_text g). split; [reflexivity | ].
    split; [apply guid_text_length | apply guid_text_dashes].
  - right. split; reflexivity.
Qed.

(** X12: two well-formed GUIDs that [grub_gpt_guid_to_str] prints as the
    same text are the same GUID. *)
Theorem guid_to_str_injective a b w w' s :
  guid_wf a -> guid_wf b ->
  fst (grub_gpt_guid_to_str a w) = Some s ->
  fst (grub_gpt_guid_to_str b w') = Some s ->
  a = b.
Proof.
  intros Ha Hb. rewrite !guid_to_str_text.
  destruct (alloc_ok w _); [ | discriminate].
  destruct (alloc_ok w' _); [ | discriminate].
  cbn [fst]. intros E1 E2. apply guid_text_inj; congruence.
Qed.

Lemma guid_to_str_injective_witness :
  sample_guid = guid (primary sample_gpt).
Proof.
  apply (guid_to_str_injective sample_guid (guid (primary sample_gpt))
           sample_world sample_world "01234567-89ab-cdef-0102-030405060708").
  - apply guid_wfb_sound. reflexivity.
  - apply guid_wfb_sound. reflexivity.
  - vm_compute. reflexivity.
  - vm_compute. reflexivity.
Defined.

(** ** What a handle read from a disk holds *)

Lemma le_decode_range bs : 0 <= le_decode bs < 256 ^ Z.of_nat (List.length bs).
Proof.
  induction bs as [ | b bs IH]; cbn [le_decode List.length].
  - simpl. lia.
  - rewrite Nat2Z.inj_succ, Z.pow_succ_r by lia.
    pose proof (byte_val_range b). lia.
Qed.

Lemma le_decode_slice off len bs :
  0 <= le_decode (slice off len bs) < 256 ^ Z.of_nat len.
Proof.
  pose proof (le_decode_range (slice off len bs)) as R.
  assert (L : (List.length (slice off len bs) <= len)%nat).
  { unfold slice. rewrite length_firstn. lia. }
  assert (256 ^ Z.of_nat (List.length (slice off len bs)) <= 256 ^ Z.of_nat len).
  { apply Z.pow_le_mono_r; lia. }
  lia.
Qed.

Lemma header_of_bytes_counts bs :
  is_u32 (maxpart (header_of_bytes bs))
  /\ is_u32 (partentry_size (header_of_bytes bs)).
Proof.
  unfold header_of_bytes, is_u32. cbn [maxpart partentry_size].
  split.
  - apply (le_decode_slice 80 4 bs).
  - apply (le_decode_slice 84 4 bs).
Qed.

Lemma header_check_entry_size h ls w :
  failed (fst (grub_gpt_header_check h ls w)) = false -> 128 <= partentry_size h.
Proof.
  unfold grub_gpt_header_check.
  repeat match goal with
         | |- context [if ?c then _ else _] => destruct c eqn:?
         end; try (simpl; discriminate).
  intros _.
  repeat match goal with
         | H : (_ || _) = false |- _ => apply orb_false_iff in H; destruct H
         end.
  lia.
Qed.

Lemma check_primary_entry_size g w :
  failed (fst (grub_gpt_check_primary g w)) = false ->
  128 <= partentry_size (primary g).
Proof.
  unfold grub_gpt_check_primary, bind, get_errno. cbv zeta.
  pose proof (header_check_entry_size (primary g) (log_sector_size g) w) as S.
  pose proof (header_check_errno (primary g) (log_sector_size g) w) as E.
  destruct (grub_gpt_header_check (primary g) (log_sector_size g) w) as [e w1].
  cbn [fst snd] in *.
  destruct (failed e) eqn:Fe.
  - cbn [fst]. rewrite (E eq_refl), Fe. discriminate.
  - intros _. apply S. reflexivity.
Qed.

Lemma check_backup_entry_size g w :
  failed (fst (grub_gpt_check_backup g w)) = false ->
  128 <= partentry_size (backup g).
Proof.
  unfold grub_gpt_check_backup, bind, get_errno. cbv zeta.
  pose proof (header_check_entry_size (backup g) (log_sector_size g) w) as S.
  pose proof (header_check_errno (backup g) (log_sector_size g) w) as E.
  destruct (grub_gpt_header_check (backup g) (log_sector_size g) w) as [e w1].
  cbn [fst snd] in *.
  destruct (failed e) eqn:Fe.
  - cbn [fst]. rewrite (E eq_refl), Fe. discriminate.
  - intros _. apply S. reflexivity.
Qed.

Lemma read_entries_size disk g h w buf n :
  is_u32 (maxpart h) -> is_u32 (partentry_size h) -> partentry_size h <> 0 ->
  snd (fst (grub_gpt_read_entries disk g h w)) = Some (buf, n) ->
  n = maxpart h * partentry_size h /\ n < 2 ^ 32.
Proof.
  intros Hc Hs Hz.
  unfold grub_gpt_read_entries, bind, grub_error, get_errno, ret. cbv zeta.
  destruct (negb (partentry_size h =? 0)
            && negb (u32 (maxpart h * partentry_size h) / partentry_size h =? maxpart h))
    eqn:T; [simpl; discriminate | ].
  assert (U : u32 (maxpart h * partentry_size h) = maxpart h * partentry_size h).
  { apply andb_false_iff in T. destruct T as [T | T].
    - apply negb_false_iff, Z.eqb_eq in T. contradiction.
    - apply negb_false_iff in T.
      rewrite (overflow_test_exact _ _ Hc Hs Hz) in T.
      apply Z.ltb_lt in T. apply u32_small. unfold is_u32 in *. nia. }
  destruct (u32 (maxpart h * partentry_size h) <? GRUB_GPT_DEFAULT_ENTRIES_SIZE);
    [simpl; discriminate | ].
  unfold grub_malloc.
  destruct (alloc_ok w (u32 (maxpart h * partentry_size h))); [ | simpl; discriminate].
  simpl. unfold grub_disk_read.
  destruct (read_fault w (grub_gpt_sector_to_addr g (partitions h)) 0
                       (u32 (maxpart h * partentry_size h))) as [f | ].
  { destruct f; simpl; discriminate. }
  simpl.
  match goal with
  | |- context [if ?c then _ else _] => destruct c
  end; simpl; [discriminate | ].
  intros H. injection H as H1 H2. subst n. split; [exact U | ].
  unfold u32. apply Z.mod_pos_bound. lia.
Qed.

Lemma entries_fit_same h g g' :
  entries g' = entries g -> entries_size g' = entries_size g ->
  entries_fit h g -> entries_fit h g'.
Proof.
  unfold entries_fit. intros E1 E2. rewrite E1, E2. auto.
Qed.

Lemma entries_fit_read disk g0 h w buf n g :
  snd (fst (grub_gpt_read_entries disk g0 h w)) = Some (buf, n) ->
  is_u32 (maxpart h) -> is_u32 (partentry_size h) -> 128 <= partentry_size h ->
  entries g = buf -> entries_size g = n ->
  entries_fit h g.
Proof.
  intros R Hc Hs Hp E1 E2.
  destruct (read_entries_some _ _ _ _ _ _ R) as (_ & L & C).
  destruct (read_entries_size _ _ _ _ _ _ Hc Hs ltac:(lia) R) as [N N32].
  unfold entries_fit. rewrite E1, E2.
  repeat match goal with |- _ /\ _ => split end; try assumption.
  apply Hc.
Qed.

Lemma headers_equal_counts g :
  grub_gpt_headers_equal g = true ->
  maxpart (primary g) = maxpart (backup g)
  /\ partentry_size (primary g) = partentry_size (backup g)
  /\ partentry_crc32 (primary g) = partentry_crc32 (backup g).
Proof.
  unfold grub_gpt_headers_equal.
  destruct (Z.eqb_spec (maxpart (primary g)) (maxpart (backup g)));
    destruct (Z.eqb_spec (partentry_size (primary g)) (partentry_size (backup g)));
    destruct (Z.eqb_spec (partentry_crc32 (primary g)) (partentry_crc32 (backup g)));
    cbn [negb]; rewrite ?orb_true_r; cbn [orb]; try discriminate; auto.
Qed.

Ltac known_bits :=
  repeat match goal with
         | |- context [Z.testbit GRUB_GPT_PRIMARY_HEADER_VALID ?k] =>
             let v := eval vm_compute in (Z.testbit GRUB_GPT_PRIMARY_HEADER_VALID k) in
             change (Z.testbit GRUB_GPT_PRIMARY_HEADER_VALID k) with v
         | |- context [Z.testbit GRUB_GPT_PRIMARY_ENTRIES_VALID ?k] =>
             let v := eval vm_compute in (Z.testbit GRUB_GPT_PRIMARY_ENTRIES_VALID k) in
             change (Z.testbit GRUB_GPT_PRIMARY_ENTRIES_VALID k) with v
         | |- context [Z.testbit GRUB_GPT_BACKUP_HEADER_VALID ?k] =>
             let v := eval vm_compute in (Z.testbit GRUB_GPT_BACKUP_HEADER_VALID k) in
             change (Z.testbit GRUB_GPT_BACKUP_HEADER_VALID k) with v
         | |- context [Z.testbit GRUB_GPT_BACKUP_ENTRIES_VALID ?k] =>
             let v := eval vm_compute in (Z.testbit GRUB_GPT_BACKUP_ENTRIES_VALID k) in
             change (Z.testbit GRUB_GPT_BACKUP_ENTRIES_VALID k) with v
         end.

Ltac handle_bits :=
  unfold handle_sound, no_copy_read in *; status_bits;
  cbn [status primary backup entries entries_size log_sector_size
       or_status set_status set_primary set_backup set_entries
       set_log_sector_size] in *;
  rewrite ?Z.lor_spec; known_bits;
  rewrite ?orb_false_r, ?orb_true_r.

Lemma read_primary_sound disk g w :
  no_copy_read g ->
  let g1 := snd (fst (grub_gpt_read_primary disk g w)) in
  handle_sound g1
  /\ status_has g1 GRUB_GPT_BACKUP_HEADER_VALID = false
  /\ status_has g1 GRUB_GPT_BACKUP_ENTRIES_VALID = false.
Proof.
  intros F. cbv zeta.
  unfold grub_gpt_read_primary, bind, get_errno, ret. cbv zeta.
  match goal with
  | |- context [grub_disk_read disk ?a 0 ?n w] =>
      destruct (grub_disk_read disk a 0 n w) as [r w0]
  end.
  cbn [fst snd].
  destruct (failed (fst r)).
  { cbn [fst snd]. handle_bits. destruct F as (F2 & F3 & F4 & F5).
    rewrite F2, F3, F4, F5. repeat split; discriminate. }
  match goal with
  | |- context [grub_gpt_check_primary ?g1 w0] =>
      pose proof (check_primary_entry_size g1 w0) as Hc;
      destruct (grub_gpt_check_primary g1 w0) as [c w1]
  end.
  cbn [fst snd] in Hc.
  destruct (failed c).
  { cbn [fst snd]. handle_bits. destruct F as (F2 & F3 & F4 & F5).
    rewrite F2, F3, F4, F5. repeat split; discriminate. }
  specialize (Hc eq_refl). cbn [primary set_primary] in Hc.
  match goal with
  | |- context [grub_gpt_read_entries disk ?g1 ?h1 w1] =>
      pose proof (fun buf n => entries_fit_read disk g1 h1 w1 buf n) as He;
      destruct (grub_gpt_read_entries disk g1 h1 w1) as [[e o] w2]
  end.
  cbn [fst snd] in He.
  destruct o as [[buf n] | ]; cbn [fst snd].
  - pose proof (header_of_bytes_counts (snd r)) as [C1 C2].
    assert (Fit := fun g' => He buf n g' eq_refl).
    cbn [primary or_status set_status set_primary set_log_sector_size] in Fit.
    specialize (fun g' => Fit g' C1 C2 Hc).
    clear He.
    handle_bits. destruct F as (F2 & F3 & F4 & F5).
    rewrite ?F4, ?F5. cbn [orb].
    repeat match goal with |- _ /\ _ => split end;
      try reflexivity; try discriminate;
      try (intros; discriminate);
      try (intros; split; [reflexivity | apply Fit; reflexivity]).
  - clear He. handle_bits. destruct F as (F2 & F3 & F4 & F5).
    rewrite ?F2, ?F3, ?F4, ?F5. cbn [orb].
    repeat match goal with |- _ /\ _ => split end;
      try reflexivity; try discriminate; try (intros; discriminate).
Qed.

Lemma read_backup_at_sound disk g sector w :
  handle_sound g ->
  status_has g GRUB_GPT_BACKUP_HEADER_VALID = false ->
  status_has g GRUB_GPT_BACKUP_ENTRIES_VALID = false ->
  handle_sound (snd (fst (grub_gpt_read_backup_at disk g sector w))).
Proof.
  intros S F4 F5.
  unfold grub_gpt_read_backup_at, bind, get_errno, grub_error, ret. cbv zeta.
  destruct (grub_disk_read disk (grub_gpt_sector_to_addr g sector) 0
                           sizeof_grub_gpt_header w) as [r w0].
  cbn [fst snd].
  destruct (failed (fst r)); [exact S | ].
  pose proof (header_of_bytes_counts (snd r)) as [C1 C2].
  match goal with
  | |- context [grub_gpt_check_backup ?g1 w0] =>
      pose proof (check_backup_entry_size g1 w0) as Hc;
      pose proof (check_backup_pass_mirror g1 w0) as Hm;
      destruct (grub_gpt_check_backup g1 w0) as [c w1]
  end.
  cbn [fst snd] in Hc, Hm.
  assert (Sb : handle_sound (set_backup (header_of_bytes (snd r)) g)).
  { destruct S as (S1 & S2 & S3). unfold handle_sound.
    status_bits. cbn [status set_backup] in *. rewrite F4, F5.
    repeat match goal with |- _ /\ _ => split end;
      try (intros; discriminate).
    intros A. destruct (S1 A) as [B Fit]. split; [exact B | ].
    revert Fit. apply entries_fit_same; reflexivity. }
  destruct (failed c); [exact Sb | ].
  specialize (Hc eq_refl). specialize (Hm eq_refl).
  cbn [backup set_backup] in Hc.
  match goal with
  | |- context [if negb (?x =? sector) then _ else _] =>
      destruct (negb (x =? sector)); [exact Sb | ]
  end.
  assert (Sh : handle_sound (or_status GRUB_GPT_BACKUP_HEADER_VALID
                               (set_backup (header_of_bytes (snd r)) g))).
  { destruct S as (S1 & S2 & S3). unfold handle_sound.
    status_bits. cbn [status set_backup or_status set_status] in *.
    rewrite ?Z.lor_spec. known_bits. rewrite ?orb_false_r, ?orb_true_r, ?F5.
    repeat match goal with |- _ /\ _ => split end;
      try (intros; discriminate).
    - intros A. destruct (S1 A) as [B Fit]. split; [exact B | ].
      revert Fit. apply entries_fit_same; reflexivity.
    - intros A _. exact (Hm A). }
  match goal with
  | |- context [grub_gpt_read_entries disk ?g1 ?h1 w1] =>
      pose proof (fun buf n => entries_fit_read disk g1 h1 w1 buf n) as He;
      pose proof (fun buf n => read_entries_some disk g1 h1 w1 buf n) as Hl;
      destruct (grub_gpt_read_entries disk g1 h1 w1) as [[e o] w2]
  end.
  cbn [fst snd] in He, Hl.
  destruct o as [[buf n] | ]; [ | exact Sh].
  assert (Fit := fun g' => He buf n g' eq_refl).
  cbn [backup or_status set_status set_backup] in Fit.
  specialize (fun g' => Fit g' C1 C2 Hc).
  destruct (Hl buf n eq_refl) as (_ & Ln & _). clear He Hl.
  match goal with
  | |- context [if status_has ?g1 GRUB_GPT_PRIMARY_ENTRIES_VALID then _ else _] =>
      destruct (status_has g1 GRUB_GPT_PRIMARY_ENTRIES_VALID) eqn:P3
  end.
  - match goal with
    | |- context [if ?c then _ else _] => destruct c eqn:T
    end; [exact Sh | ].
    cbn [fst snd].
    destruct Sh as (S1 & S2 & S3).
    destruct (S1 P3) as [B FitP].
    assert (Lg : Z.of_nat (List.length (entries g)) = entries_size g).
    { destruct FitP as (_ & _ & _ & L & _). exact L. }
    cbn [entries entries_size or_status set_status set_backup] in T.
    apply (entries_test_is_equality g buf n Ln Lg) in T.
    unfold handle_sound.
    status_bits. cbn [status set_backup or_status set_status] in *.
    rewrite ?Z.lor_spec in *. known_bits. rewrite ?orb_false_r, ?orb_true_r in *.
    repeat match goal with |- _ /\ _ => split end;
      try (intros; discriminate); try reflexivity.
    + intros A. split; [exact B | ].
      revert FitP. apply entries_fit_same; reflexivity.
    + intros _. split; [reflexivity | ].
      apply Fit; [symmetry; exact T | ].
      cbn [entries_size or_status set_status set_backup].
      destruct FitP as (_ & _ & _ & L & _).
      cbn [entries entries_size or_status set_status set_backup] in L.
      subst buf. lia.
    + intros A _. exact (S3 A eq_refl).
  - cbn [fst snd].
    destruct Sh as (S1 & S2 & S3).
    unfold handle_sound.
    status_bits. cbn [status set_backup or_status set_status set_entries] in *.
    rewrite ?Z.lor_spec in *. known_bits. rewrite ?orb_false_r, ?orb_true_r in *.
    repeat match goal with |- _ /\ _ => split end;
      try (intros; discriminate); try reflexivity.
    + intros A. rewrite A in P3. discriminate.
    + intros _. split; [reflexivity | ]. apply Fit; reflexivity.
    + intros A _. exact (S3 A eq_refl).
Qed.

Lemma read_backup_sound disk g w :
  handle_sound g ->
  status_has g GRUB_GPT_BACKUP_HEADER_VALID = false ->
  status_has g GRUB_GPT_BACKUP_ENTRIES_VALID = false ->
  handle_sound (snd (fst (grub_gpt_read_backup disk g w))).
Proof.
  intros S F4 F5.
  unfold grub_gpt_read_backup, bind, grub_error, ret.
  repeat match goal with
         | |- context [if ?c then _ else _] => destruct c
         end;
    try exact S; apply read_backup_at_sound; assumption.
Qed.

Lemma read_mbr_no_copy disk w g w' :
  grub_gpt_read_mbr disk w = (Some g, w') -> no_copy_read g.
Proof.
  unfold grub_gpt_read_mbr, bind, ret, clear_errno.
  destruct (grub_malloc sizeof_grub_gpt w) as [ok w0].
  destruct ok; cbn [negb]; [ | discriminate].
  destruct (grub_disk_read disk 0 0 sizeof_mbr w0) as [r w1].
  destruct (failed (fst r)); [discriminate | ].
  match goal with
  | |- context [grub_gpt_pmbr_check ?m w1] =>
      destruct (grub_gpt_pmbr_check m w1) as [c w2]
  end.
  destruct (failed c); intros H; injection H as H _; subst g;
    unfold no_copy_read; repeat split; reflexivity.
Qed.

Lemma read_copies_sound disk g w g' w' :
  no_copy_read g ->
  grub_gpt_read_copies disk g w = (Some g', w') ->
  handle_sound g'
  /\ grub_gpt_primary_valid g' || grub_gpt_backup_valid g' = true
  /\ grub_errno w' = GRUB_ERR_NONE.
Proof.
  intros F.
  unfold grub_gpt_read_copies, bind, grub_error_push, grub_error_pop,
    clear_errno, ret. cbv zeta.
  destruct (read_primary_sound disk g w F) as (S & F4 & F5).
  destruct (grub_gpt_read_primary disk g w) as [[e g1] w1].
  cbn [fst snd] in *.
  destruct (failed e).
  - match goal with
    | |- context [grub_gpt_read_backup disk g1 ?wp] =>
        pose proof (read_backup_sound disk g1 wp S F4 F5) as Sb;
        destruct (grub_gpt_read_backup disk g1 wp) as [[eb gb] w2]
    end.
    cbn [fst snd] in *.
    destruct (grub_error_stack w2) as [ | [e0 m0] rest]; cbn [fst snd];
      destruct (grub_gpt_primary_valid gb || grub_gpt_backup_valid gb) eqn:V;
      intros H; try discriminate; injection H as H1 H2; subst g' w';
      (split; [exact Sb | split; [exact V | reflexivity]]).
  - pose proof (read_backup_sound disk g1 w1 S F4 F5) as Sb.
    destruct (grub_gpt_read_backup disk g1 w1) as [[eb gb] w2].
    cbn [fst snd] in *.
    destruct (grub_gpt_primary_valid gb || grub_gpt_backup_valid gb) eqn:V;
      intros H; try discriminate; injection H as H1 H2; subst g' w';
      (split; [exact Sb | split; [exact V | reflexivity]]).
Qed.

Lemma read_sound disk w g w' :
  grub_gpt_read disk w = (Some g, w') ->
  handle_sound g
  /\ grub_gpt_primary_valid g || grub_gpt_backup_valid g = true
  /\ grub_errno w' = GRUB_ERR_NONE.
Proof.
  unfold grub_gpt_read, bind, ret.
  pose proof (read_mbr_no_copy disk w) as F.
  destruct (grub_gpt_read_mbr disk w) as [[g0 | ] w0]; [ | discriminate].
  apply read_copies_sound. apply (F g0 w0). reflexivity.
Qed.

(** The header [grub_gpt_get_header] picks for a sound handle with a
    valid copy, and the fit of the entry array to it. *)
Lemma sound_handle_fits g :
  handle_sound g ->
  grub_gpt_primary_valid g || grub_gpt_backup_valid g = true ->
  exists r,
    (forall w, grub_gpt_get_header g w = (Some r, w))
    /\ entries_fit (header_at g r) g.
Proof.
  intros (S1 & S2 & S3) V.
  unfold grub_gpt_get_header, ret.
  destruct (status_has g GRUB_GPT_PRIMARY_HEADER_VALID) eqn:P2.
  - exists PrimaryHeader. split; [reflexivity | ]. cbn [header_at].
    destruct (status_has g GRUB_GPT_PRIMARY_ENTRIES_VALID) eqn:P3.
    + apply S1. reflexivity.
    + assert (B : grub_gpt_backup_valid g = true).
      { revert V P2 P3. status_bits. intros V P2 P3. rewrite P2, P3 in V. exact V. }
      revert B. status_bits. intros B. apply andb_true_iff in B.
      destruct B as [B4 B5].
      revert S2 S3. status_bits. intros S2 S3.
      destruct (S2 B5) as [_ Fit].
      destruct (headers_equal_counts g (S3 eq_refl B4)) as (E1 & E2 & E3).
      unfold entries_fit in *. rewrite E1, E2, E3. exact Fit.
  - assert (B : grub_gpt_backup_valid g = true).
    { revert V P2. status_bits. intros V P2. rewrite P2 in V. exact V. }
    revert B. status_bits. intros B. apply andb_true_iff in B.
    destruct B as [B4 B5].
    revert S2. status_bits. intros S2.
    rewrite B4.
    exists BackupHeader. split; [reflexivity | ]. cbn [header_at].
    apply S2. exact B5.
Qed.

(** ** Failure of the reader *)

Lemma read_mbr_none_errno disk w w0 :
  grub_gpt_read_mbr disk w = (None, w0) -> failed (grub_errno w0) = true.
Proof.
  unfold grub_gpt_read_mbr, bind, ret, clear_errno, grub_malloc.
  destruct (alloc_ok w sizeof_grub_gpt); cbn [negb].
  - pose proof (grub_disk_read_errno disk 0 0 sizeof_mbr w) as Hr.
    destruct (grub_disk_read disk 0 0 sizeof_mbr w) as [r w1].
    cbn [fst snd] in Hr.
    destruct (failed (fst r)) eqn:Fr.
    + intros H. injection H as H. subst w0. rewrite (Hr eq_refl). exact Fr.
    + match goal with
      | |- context [grub_gpt_pmbr_check ?m w1] =>
          destruct (grub_gpt_pmbr_check m w1) as [c w2]
      end.
      destruct (failed c); discriminate.
  - intros H. injection H as H. subst w0. reflexivity.
Qed.

Lemma read_copies_none_errno disk g w w' :
  grub_gpt_read_copies disk g w = (None, w') -> failed (grub_errno w') = true.
Proof.
  unfold grub_gpt_read_copies, bind, grub_error_push, grub_error_pop,
    clear_errno, ret. cbv zeta.
  destruct (read_primary_outcome disk g w) as [Hok Herr].
  destruct (grub_gpt_read_primary disk g w) as [[e g1] w1].
  cbn [fst snd] in *.
  destruct (failed e) eqn:Fe.
  - match goal with
    | |- context [grub_gpt_read_backup disk g1 ?wp] =>
        pose proof (read_backup_reads_only disk g1 wp) as [Hst _];
        destruct (grub_gpt_read_backup disk g1 wp) as [[eb gb] w2]
    end.
    cbn [fst snd grub_error_stack with_error with_stack] in *.
    rewrite Hst. cbn [fst snd].
    destruct (grub_gpt_primary_valid gb || grub_gpt_backup_valid gb);
      [discriminate | ].
    intros H. injection H as H. subst w'.
    cbn [grub_errno with_error]. rewrite (Herr eq_refl). exact Fe.
  - pose proof (read_backup_keeps_bits disk g1 w1 2) as K2.
    pose proof (read_backup_keeps_bits disk g1 w1 3) as K3.
    destruct (grub_gpt_read_backup disk g1 w1) as [[eb gb] w2].
    cbn [fst snd] in *.
    specialize (Hok eq_refl). rewrite primary_valid_bits in Hok.
    apply andb_true_iff in Hok. destruct Hok as [B2 B3].
    assert (Hpv : grub_gpt_primary_valid gb = true).
    { rewrite primary_valid_bits, (K2 B2), (K3 B3). reflexivity. }
    rewrite Hpv. discriminate.
Qed.

Lemma read_none_errno disk w w' :
  grub_gpt_read disk w = (None, w') -> failed (grub_errno w') = true.
Proof.
  unfold grub_gpt_read, bind, ret.
  pose proof (read_mbr_none_errno disk w) as M.
  destruct (grub_gpt_read_mbr disk w) as [[g0 | ] w0].
  - apply read_copies_none_errno.
  - intros H. injection H as H. subst w'. apply M. reflexivity.
Qed.

(** X13: in a handle that [grub_gpt_read] returns, the entry array
    belongs to the header that [grub_gpt_get_header] picks: its length is
    the recorded size and is the product of that header's entry count and
    entry size, the entry size is at least 128, and the array's CRC-32 is
    the one the header records. *)
Theorem read_entries_fit_header disk w g :
  fst (grub_gpt_read disk w) = Some g ->
  exists r,
    (forall w1, grub_gpt_get_header g w1 = (Some r, w1))
    /\ 128 <= partentry_size (header_at g r)
    /\ Z.of_nat (List.length (entries g))
       = maxpart (header_at g r) * partentry_size (header_at g r)
    /\ entries_size g = Z.of_nat (List.length (entries g))
    /\ grub_crypto_hash_crc32 (entries g) = partentry_crc32 (header_at g r).
Proof.
  intros H.
  destruct (grub_gpt_read disk w) as [og w'] eqn:E. cbn [fst] in H. subst og.
  destruct (read_sound _ _ _ _ E) as (S & V & _).
  destruct (sound_handle_fits g S V) as (r & Hr & F1 & F2 & F3 & F4 & F5 & F6).
  exists r. repeat match goal with |- _ /\ _ => split end; try assumption; lia.
Qed.

Lemma read_entries_fit_header_witness :
  exists r,
    (forall w1, grub_gpt_get_header sample_gpt w1 = (Some r, w1))
    /\ 128 <= partentry_size (header_at sample_gpt r)
    /\ Z.of_nat (List.length (entries sample_gpt))
       = maxpart (header_at sample_gpt r) * partentry_size (header_at sample_gpt r)
    /\ entries_size sample_gpt = Z.of_nat (List.length (entries sample_gpt))
    /\ grub_crypto_hash_crc32 (entries sample_gpt)
       = partentry_crc32 (header_at sample_gpt r).
Proof.
  apply (read_entries_fit_header sample_disk sample_world sample_gpt).
  vm_compute. reflexivity.
Defined.

(** X14: every entry that [grub_gpt_get_partentry] hands out of a handle
    returned by [grub_gpt_read] lies inside the entry array: the offset
    is the index times an entry size of at least 128 bytes, and the whole
    entry ends at or before the end of the array. *)
Theorem partentry_within_entries disk w g n w1 off :
  fst (grub_gpt_read disk w) = Some g ->
  is_u32 n ->
  fst (grub_gpt_get_partentry g n w1) = Some off ->
  exists sz,
    128 <= sz /\ off = sz * n
    /\ off + sz <= Z.of_nat (List.length (entries g)).
Proof.
  intros H Hn.
  destruct (grub_gpt_read disk w) as [og w'] eqn:E. cbn [fst] in H. subst og.
  destruct (read_sound _ _ _ _ E) as (S & V & _).
  destruct (sound_handle_fits g S V) as (r & Hr & F1 & F2 & F3 & F4 & F5 & F6).
  unfold grub_gpt_get_partentry, bind, ret. rewrite Hr.
  destruct (Z.geb_spec n (maxpart (header_at g r))) as [G | G]; [discriminate | ].
  cbn [fst]. intros O. injection O as O.
  exists (partentry_size (header_at g r)).
  unfold is_u32 in Hn.
  assert (B : partentry_size (header_at g r) * n + partentry_size (header_at g r)
              <= maxpart (header_at g r) * partentry_size (header_at g r)) by nia.
  assert (U : u64 (partentry_size (header_at g r) * n)
              = partentry_size (header_at g r) * n).
  { apply u64_small. unfold is_u64. split; [nia | lia]. }
  rewrite U in O. subst off.
  repeat match goal with |- _ /\ _ => split end; try lia.
Qed.

Lemma partentry_within_entries_witness :
  exists sz,
    128 <= sz /\ 128 = sz * 1
    /\ 128 + sz <= Z.of_nat (List.length (entries sample_gpt)).
Proof.
  apply (partentry_within_entries sample_disk sample_world sample_gpt 1
           sample_world 128).
  - vm_compute. reflexivity.
  - unfold is_u32. lia.
  - vm_compute. reflexivity.
Defined.

(** ** The disk UUID *)

(** X15: [grub_gpt_disk_uuid] returns the code it leaves in the error
    slot, and that code is NONE exactly when a text is handed back; the
    text is then what [grub_gpt_guid_to_str] prints for the GUID of the
    header that [grub_gpt_get_header] picks in the handle
    [grub_gpt_read] returned. *)
Theorem disk_uuid_text_or_error disk w :
  let r := grub_gpt_disk_uuid disk w in
  fst (fst r) = grub_errno (snd r)
  /\ (fst (fst r) = GRUB_ERR_NONE <-> exists s, snd (fst r) = Some s)
  /\ (forall s, snd (fst r) = Some s ->
      exists g hr,
        fst (grub_gpt_read disk w) = Some g
        /\ fst (grub_gpt_get_header g (snd (grub_gpt_read disk w))) = Some hr
        /\ fst (grub_gpt_guid_to_str (guid (header_at g hr))
                  (snd (grub_gpt_read disk w))) = Some s).
Proof.
  cbv zeta. unfold grub_gpt_disk_uuid, bind.
  pose proof (read_sound disk w) as S.
  pose proof (read_none_errno disk w) as N.
  destruct (grub_gpt_read disk w) as [[g | ] w'].
  - destruct (S g w' eq_refl) as (Sg & V & E0). clear S N.
    destruct (sound_handle_fits g Sg V) as (hr & Hr & _).
    unfold grub_gpt_disk_uuid_of, bind, get_errno, ret.
    rewrite Hr, guid_to_str_text, guid_text_length.
    cbn [fst snd].
    destruct (alloc_ok w' (Z.of_nat 36 + 1)) eqn:A;
      cbn [fst snd grub_errno with_error].
    + split; [reflexivity | ]. split.
      * split; [intros _; eexists; reflexivity | intros _; exact E0].
      * intros s Hs. exists g, hr.
        split; [reflexivity | ]. rewrite Hr. split; [reflexivity | ].
        rewrite guid_to_str_text, guid_text_length, A. exact Hs.
    + split; [reflexivity | ]. split.
      * split; [discriminate | intros [s Hs]; discriminate].
      * intros s Hs. discriminate.
  - specialize (N w' eq_refl). clear S.
    unfold grub_gpt_disk_uuid_of, bind, get_errno, ret. cbn [fst snd].
    split; [reflexivity | ]. split.
    + split.
      * intros E. rewrite E in N. discriminate.
      * intros [s Hs]. discriminate.
    + intros s Hs. discriminate.
Qed.

(** ** Writing a table and reading it back *)

Lemma medium_range_ext m1 m2 a n :
  (forall x, a <= x < a + Z.of_nat n -> m1 x = m2 x) ->
  medium_range m1 a n = medium_range m2 a n.
Proof.
  revert a. induction n as [ | n IH]; intros a H; cbn [medium_range].
  - reflexivity.
  - rewrite (H a) by lia. f_equal. apply IH. intros x Hx. apply H. lia.
Qed.

Lemma medium_range_nth f a data :
  (forall i, (i < List.length data)%nat -> f (a + Z.of_nat i) = nth i data "000"%byte) ->
  medium_range f a (List.length data) = data.
Proof.
  revert a. induction data as [ | b data IH]; intros a H; cbn [medium_range List.length].
  - reflexivity.
  - f_equal.
    + specialize (H 0%nat). cbn [nth List.length] in H.
      rewrite Z.add_0_r in H. apply H. lia.
    + apply IH. intros i Hi.
      specialize (H (S i)). cbn [nth List.length] in H.
      rewrite <- H by lia. f_equal. lia.
Qed.

Lemma medium_bytes_store_same m s data :
  medium_bytes (medium_store m s 0 data) s 0 (Z.of_nat (List.length data)) = data.
Proof.
  unfold medium_bytes. rewrite Nat2Z.id.
  apply medium_range_nth. intros i Hi. unfold medium_store.
  replace (s * 512 + 0 + Z.of_nat i - (s * 512 + 0)) with (Z.of_nat i) by lia.
  destruct (Z.leb_spec 0 (Z.of_nat i)); [ | lia].
  destruct (Z.ltb_spec (Z.of_nat i) (Z.of_nat (List.length data))); [ | lia].
  cbn [andb]. rewrite Nat2Z.id. reflexivity.
Qed.

Lemma medium_bytes_store_other m s data s' size :
  0 <= size ->
  s' * 512 + size <= s * 512 \/ s * 512 + Z.of_nat (List.length data) <= s' * 512 ->
  medium_bytes (medium_store m s 0 data) s' 0 size = medium_bytes m s' 0 size.
Proof.
  intros Hs D. unfold medium_bytes. apply medium_range_ext.
  intros x Hx. rewrite Z2Nat.id in Hx by lia. unfold medium_store.
  destruct (Z.leb_spec 0 (x - (s * 512 + 0)));
    destruct (Z.ltb_spec (x - (s * 512 + 0)) (Z.of_nat (List.length data)));
    cbn [andb]; try reflexivity.
  lia.
Qed.

Lemma slice_here (a b : list byte) n :
  List.length a = n -> slice 0 n (a ++ b) = a.
Proof.
  intros H. unfold slice. cbn [skipn]. subst n.
  rewrite firstn_app, Nat.sub_diag, firstn_all. cbn [firstn]. apply app_nil_r.
Qed.

Lemma slice_all (a : list byte) n :
  List.length a = n -> slice 0 n a = a.
Proof.
  intros H. unfold slice. cbn [skipn]. subst n. apply firstn_all.
Qed.

Lemma slice_skip (a b : list byte) off n k :
  List.length a = k -> (k <= off)%nat ->
  slice off n (a ++ b) = slice (off - k) n b.
Proof.
  intros H L. unfold slice. subst k.
  rewrite skipn_app, (skipn_all2 a) by lia. reflexivity.
Qed.

Ltac chunks :=
  repeat first
    [ rewrite slice_here by assumption
    | rewrite slice_all by assumption
    | erewrite slice_skip; [ | eassumption | simpl; lia ]; simpl Nat.sub ].

Lemma guid_of_chunks (a b c d : list byte) :
  List.length a = 4%nat -> List.length b = 2%nat -> List.length c = 2%nat ->
  List.length d = 8%nat ->
  guid_of_bytes (a ++ b ++ c ++ d)
  = {| data1 := le_decode a; data2 := le_decode b; data3 := le_decode c;
       data4 := d |}.
Proof.
  intros. unfold guid_of_bytes. chunks. reflexivity.
Qed.

Lemma guid_of_guid_bytes g : guid_wf g -> guid_of_bytes (guid_bytes g) = g.
Proof.
  intros (W1 & W2 & W3 & W4). unfold guid_bytes.
  rewrite guid_of_chunks;
    try apply le_encode_length; [ | rewrite firstn_all2 by lia; exact W4].
  rewrite !le_decode_encode, firstn_all2 by
    (first [lia | unfold is_u32, is_u16 in *; simpl; lia]).
  destruct g; reflexivity.
Qed.

Lemma header_of_chunks (m v hs c u hl al st en gd pt mp ps pc : list byte) :
  List.length m = 8%nat -> List.length v = 4%nat -> List.length hs = 4%nat ->
  List.length c = 4%nat -> List.length u = 4%nat ->
  List.length hl = 8%nat -> List.length al = 8%nat ->
  List.length st = 8%nat -> List.length en = 8%nat ->
  List.length gd = 16%nat -> List.length pt = 8%nat ->
  List.length mp = 4%nat -> List.length ps = 4%nat -> List.length pc = 4%nat ->
  header_of_bytes (m ++ v ++ hs ++ c ++ u ++ hl ++ al ++ st ++ en ++ gd
                     ++ pt ++ mp ++ ps ++ pc)
  = {| magic := m; version := le_decode v; headersize := le_decode hs;
       crc32 := le_decode c; unused1 := le_decode u;
       header_lba := le_decode hl; alternate_lba := le_decode al;
       start := le_decode st; end_ := le_decode en;
       guid := guid_of_bytes gd; partitions := le_decode pt;
       maxpart := le_decode mp; partentry_size := le_decode ps;
       partentry_crc32 := le_decode pc |}.
Proof.
  intros. unfold header_of_bytes. chunks. reflexivity.
Qed.

(** Decoding the 92 bytes of a header gives the header back. *)
Lemma header_of_header_bytes h :
  header_wf h -> header_of_bytes (header_bytes h) = h.
Proof.
  intros W. pose proof W as (W1 & W2 & W3 & W4 & W5 & W6 & W7 & W8 & W9
                             & W10 & W11 & W12 & W13 & W14).
  unfold header_bytes.
  rewrite header_of_chunks;
    try apply le_encode_length;
    [ | rewrite firstn_all2 by lia; exact W1 | apply guid_bytes_length; exact W10].
  rewrite guid_of_guid_bytes by exact W10.
  rewrite !le_decode_encode, firstn_all2 by
    (first [lia | unfold is_u32, is_u64 in *; simpl; lia]).
  destruct h; reflexivity.
Qed.

Lemma disk_write_quiet disk s size buf w :
  quiet w ->
  fst (grub_disk_write disk s 0 size buf w) = GRUB_ERR_NONE
  /\ quiet (snd (grub_disk_write disk s 0 size buf w))
  /\ medium (snd (grub_disk_write disk s 0 size buf w))
     = medium_store (medium w) s 0 (firstn (Z.to_nat size) buf).
Proof.
  intros Q. unfold grub_disk_write. cbv zeta.
  destruct Q as (Q1 & Q2 & Q3). rewrite Q2. cbn [fst snd].
  repeat split; assumption.
Qed.

Lemma disk_read_quiet disk s size w :
  quiet w ->
  exists w',
    grub_disk_read disk s 0 size w
    = ((GRUB_ERR_NONE, medium_bytes (medium w) s 0 size), w')
    /\ quiet w' /\ medium w' = medium w /\ grub_errno w' = grub_errno w.
Proof.
  intros Q. unfold grub_disk_read. cbv zeta.
  pose proof Q as (Q1 & Q2 & Q3). rewrite Q1.
  eexists. split; [reflexivity | ]. split; [exact Q | split; reflexivity].
Qed.

(** A successful [grub_gpt_write_table] on a willing device: the header
    went to its sector first, the entry array to its sector after it. *)
Lemma write_table_stores disk g h w :
  quiet w ->
  fst (grub_gpt_write_table disk g h w) = GRUB_ERR_NONE ->
  quiet (snd (grub_gpt_write_table disk g h w))
  /\ medium (snd (grub_gpt_write_table disk g h w))
     = medium_store
         (medium_store (medium w) (grub_gpt_sector_to_addr g (header_lba h)) 0
            (firstn (Z.to_nat sizeof_grub_gpt_header) (header_bytes h)))
         (grub_gpt_sector_to_addr g (partitions h)) 0
         (firstn (Z.to_nat (entries_size g)) (entries g)).
Proof.
  intros Q. unfold grub_gpt_write_table, bind, grub_error, get_errno, ret. cbv zeta.
  destruct (negb (headersize h =? sizeof_grub_gpt_header)); [simpl; discriminate | ].
  destruct (grub_gpt_sector_to_addr g (header_lba h) =? 0); [simpl; discriminate | ].
  destruct (disk_write_quiet disk (grub_gpt_sector_to_addr g (header_lba h))
              sizeof_grub_gpt_header (header_bytes h) w Q) as (E1 & Q1 & M1).
  destruct (grub_disk_write disk (grub_gpt_sector_to_addr g (header_lba h)) 0
              sizeof_grub_gpt_header (header_bytes h) w) as [e1 w1].
  cbn [fst snd] in *. subst e1.
  change (failed GRUB_ERR_NONE) with false. cbv iota.
  destruct (grub_gpt_sector_to_addr g (partitions h) <? 2); [simpl; discriminate | ].
  destruct (disk_write_quiet disk (grub_gpt_sector_to_addr g (partitions h))
              (entries_size g) (entries g) w1 Q1) as (E2 & Q2 & M2).
  destruct (grub_disk_write disk (grub_gpt_sector_to_addr g (partitions h)) 0
              (entries_size g) (entries g) w1) as [e2 w2].
  cbn [fst snd] in *. subst e2.
  change (failed GRUB_ERR_NONE) with false. cbv iota. cbn [fst snd].
  intros _. split; [exact Q2 | ]. rewrite M2, M1. reflexivity.
Qed.

Lemma write_table_failure_errno disk g h w :
  failed (fst (grub_gpt_write_table disk g h w)) = true ->
  failed (grub_errno (snd (grub_gpt_write_table disk g h w))) = true.
Proof.
  intros F.
  destruct (write_table_effect disk g h w) as (t & _ & _ & _ & _ & E).
  rewrite E; [exact F | ].
  intros N. rewrite N in F. discriminate.
Qed.

(** A successful [grub_gpt_write] that does not skip the backup copy
    leaves four stores on the medium: backup header, backup entries,
    primary header, primary entries, in this order. *)
Lemma write_stores disk g w :
  quiet w ->
  fst (grub_gpt_write disk g w) = GRUB_ERR_NONE ->
  grub_gpt_disk_size_valid disk
  && (header_lba (backup g) >=? disk_total_sectors disk) = false ->
  let A := grub_gpt_sector_to_addr g in
  let ents := firstn (Z.to_nat (entries_size g)) (entries g) in
  quiet (snd (grub_gpt_write disk g w))
  /\ grub_gpt_both_valid g = true
  /\ medium (snd (grub_gpt_write disk g w))
     = medium_store
         (medium_store
            (medium_store
               (medium_store (medium w) (A (header_lba (backup g))) 0
                  (firstn (Z.to_nat sizeof_grub_gpt_header) (header_bytes (backup g))))
               (A (partitions (backup g))) 0 ents)
            (A (header_lba (primary g))) 0
            (firstn (Z.to_nat sizeof_grub_gpt_header) (header_bytes (primary g))))
         (A (partitions (primary g))) 0 ents.
Proof.
  intros Q. cbv zeta.
  unfold grub_gpt_write, bind, grub_error, get_errno, ret. cbv zeta.
  destruct (grub_gpt_both_valid g); cbn [negb]; [ | simpl; discriminate].
  intros S K. rewrite K in *.
  pose proof (write_table_stores disk g (backup g) w Q) as T1.
  pose proof (write_table_failure_errno disk g (backup g) w) as N1.
  destruct (grub_gpt_write_table disk g (backup g) w) as [e1 w1].
  cbn [fst snd] in *.
  destruct (failed e1) eqn:F1.
  { cbn [fst] in S. rewrite S in N1. specialize (N1 eq_refl). discriminate. }
  assert (e1 = GRUB_ERR_NONE) by (destruct e1; try reflexivity; discriminate).
  subst e1.
  destruct (T1 eq_refl) as [Q1 M1]. clear T1 N1.
  pose proof (write_table_stores disk g (primary g) w1 Q1) as T2.
  pose proof (write_table_failure_errno disk g (primary g) w1) as N2.
  destruct (grub_gpt_write_table disk g (primary g) w1) as [e2 w2].
  cbn [fst snd] in *.
  destruct (failed e2) eqn:F2.
  { cbn [fst] in S. rewrite S in N2. specialize (N2 eq_refl). discriminate. }
  assert (e2 = GRUB_ERR_NONE) by (destruct e2; try reflexivity; discriminate).
  subst e2.
  destruct (T2 eq_refl) as [Q2 M2]. clear T2 N2.
  cbn [fst snd].
  split; [exact Q2 | ]. split; [reflexivity | ].
  rewrite M2, M1. reflexivity.
Qed.

Lemma read_entries_of_stored disk g h w :
  quiet w ->
  is_u32 (maxpart h) -> is_u32 (partentry_size h) -> partentry_size h <> 0 ->
  16384 <= maxpart h * partentry_size h < 2 ^ 32 ->
  grub_crypto_hash_crc32
    (medium_bytes (medium w) (grub_gpt_sector_to_addr g (partitions h)) 0
       (maxpart h * partentry_size h))
  = partentry_crc32 h ->
  exists w',
    grub_gpt_read_entries disk g h w
    = ((GRUB_ERR_NONE,
        Some (medium_bytes (medium w) (grub_gpt_sector_to_addr g (partitions h)) 0
                (maxpart h * partentry_size h),
              maxpart h * partentry_size h)), w')
    /\ quiet w' /\ medium w' = medium w /\ grub_errno w' = grub_errno w.
Proof.
  intros Q Hc Hs Hz [Hlo Hhi] Hcrc.
  unfold grub_gpt_read_entries, bind, grub_error, get_errno, ret. cbv zeta.
  rewrite (u32_small (maxpart h * partentry_size h)) by (unfold is_u32; lia).
  rewrite Z.div_mul by exact Hz. rewrite Z.eqb_refl.
  cbn [negb]. rewrite andb_false_r.
  unfold GRUB_GPT_DEFAULT_ENTRIES_SIZE.
  destruct (Z.ltb_spec (maxpart h * partentry_size h) 16384) as [L | L]; [lia | ].
  unfold grub_malloc. pose proof Q as (_ & _ & Qa). rewrite Qa. cbn [negb].
  destruct (disk_read_quiet disk (grub_gpt_sector_to_addr g (partitions h))
              (maxpart h * partentry_size h) w Q) as (w' & E & Q' & M' & E').
  rewrite E. cbn [fst snd].
  change (failed GRUB_ERR_NONE) with false. cbv beta iota.
  unfold grub_gpt_lecrc32.
  rewrite firstn_all2
    by (pose proof (medium_bytes_length (medium w)
                      (grub_gpt_sector_to_addr g (partitions h)) 0
                      (maxpart h * partentry_size h)); lia).
  rewrite Hcrc, Z.eqb_refl. cbn [negb].
  exists w'. split; [reflexivity | ]. split; [exact Q' | split; assumption].
Qed.

Ltac handle_fields :=
  cbn [status mbr primary backup entries entries_size log_sector_size
       or_status set_status set_mbr set_primary set_backup set_entries
       set_log_sector_size].

Lemma read_primary_of_stored disk g0 w h :
  quiet w ->
  header_wf h ->
  let A := fun s => shl64 s (disk_log_sector_size disk - GRUB_DISK_SECTOR_BITS) in
  let g1 := set_primary h (set_log_sector_size (disk_log_sector_size disk) g0) in
  let n := maxpart h * partentry_size h in
  medium_bytes (medium w) (A 1) 0 sizeof_grub_gpt_header = header_bytes h ->
  (forall w', grub_gpt_check_primary g1 w' = (GRUB_ERR_NONE, w')) ->
  16384 <= n < 2 ^ 32 -> partentry_size h <> 0 ->
  grub_crypto_hash_crc32 (medium_bytes (medium w) (A (partitions h)) 0 n)
  = partentry_crc32 h ->
  exists w',
    grub_gpt_read_primary disk g0 w
    = ((GRUB_ERR_NONE,
        or_status GRUB_GPT_PRIMARY_ENTRIES_VALID
          (set_entries (medium_bytes (medium w) (A (partitions h)) 0 n) n
             (or_status GRUB_GPT_PRIMARY_HEADER_VALID g1))), w')
    /\ quiet w' /\ medium w' = medium w /\ grub_errno w' = grub_errno w.
Proof.
  intros Q W A g1 n Hh Hc Hn Hz Hcrc.
  unfold grub_gpt_read_primary, bind, get_errno, ret. cbv zeta.
  unfold grub_gpt_sector_to_addr at 1. handle_fields.
  destruct (disk_read_quiet disk (A 1) sizeof_grub_gpt_header w Q)
    as (w1 & E1 & Q1 & M1 & N1).
  fold (A 1). rewrite E1. cbn [fst snd].
  change (failed GRUB_ERR_NONE) with false. cbv beta iota.
  rewrite Hh, (header_of_header_bytes h W).
  fold g1. rewrite Hc.
  change (failed GRUB_ERR_NONE) with false. cbv beta iota.
  handle_fields.
  destruct W as (_ & _ & _ & _ & _ & _ & _ & _ & _ & _ & _ & Wm & Ws & _).
  destruct (read_entries_of_stored disk
              (or_status GRUB_GPT_PRIMARY_HEADER_VALID g1) h w1 Q1 Wm Ws Hz Hn)
    as (w2 & E2 & Q2 & M2 & N2).
  { rewrite M1. exact Hcrc. }
  rewrite E2. rewrite M1.
  exists w2. split; [reflexivity | ].
  split; [exact Q2 | ]. split; congruence.
Qed.

Lemma read_backup_of_stored disk g w hb :
  quiet w ->
  header_wf hb ->
  status_has g GRUB_GPT_PRIMARY_HEADER_VALID = true ->
  status_has g GRUB_GPT_PRIMARY_ENTRIES_VALID = true ->
  log_sector_size g = disk_log_sector_size disk ->
  alternate_lba (primary g) = header_lba hb ->
  grub_gpt_disk_size_valid disk
  && (header_lba hb >=? disk_total_sectors disk) = false ->
  let A := fun s => shl64 s (disk_log_sector_size disk - GRUB_DISK_SECTOR_BITS) in
  let n := maxpart hb * partentry_size hb in
  medium_bytes (medium w) (A (header_lba hb)) 0 sizeof_grub_gpt_header
  = header_bytes hb ->
  (forall w', grub_gpt_check_backup (set_backup hb g) w' = (GRUB_ERR_NONE, w')) ->
  16384 <= n < 2 ^ 32 -> partentry_size hb <> 0 ->
  medium_bytes (medium w) (A (partitions hb)) 0 n = entries g ->
  entries_size g = n ->
  grub_crypto_hash_crc32 (entries g) = partentry_crc32 hb ->
  exists w',
    grub_gpt_read_backup disk g w
    = ((GRUB_ERR_NONE,
        or_status GRUB_GPT_BACKUP_ENTRIES_VALID
          (or_status GRUB_GPT_BACKUP_HEADER_VALID (set_backup hb g))), w')
    /\ quiet w' /\ medium w' = medium w /\ grub_errno w' = grub_errno w.
Proof.
  intros Q W P2 P3 Els Ealt K A n Hh Hc Hn Hz Hents Hsize Hcrc.
  unfold grub_gpt_read_backup, bind, grub_error, ret. cbv zeta.
  rewrite P2, Ealt, K.
  unfold grub_gpt_read_backup_at, bind, grub_error, get_errno, ret. cbv zeta.
  unfold grub_gpt_sector_to_addr at 1. rewrite Els. fold (A (header_lba hb)).
  destruct (disk_read_quiet disk (A (header_lba hb)) sizeof_grub_gpt_header w Q)
    as (w1 & E1 & Q1 & M1 & N1).
  rewrite E1. cbn [fst snd].
  change (failed GRUB_ERR_NONE) with false. cbv beta iota.
  rewrite Hh, (header_of_header_bytes hb W), Hc.
  change (failed GRUB_ERR_NONE) with false. cbv beta iota.
  handle_fields. rewrite Z.eqb_refl. cbn [negb].
  pose proof W as (_ & _ & _ & _ & _ & _ & _ & _ & _ & _ & _ & Wm & Ws & _).
  destruct (read_entries_of_stored disk
              (or_status GRUB_GPT_BACKUP_HEADER_VALID (set_backup hb g))
              hb w1 Q1 Wm Ws Hz Hn)
    as (w2 & E2 & Q2 & M2 & N2).
  { unfold grub_gpt_sector_to_addr. handle_fields. rewrite Els, M1.
    fold (A (partitions hb)). fold n. rewrite Hents. exact Hcrc. }
  rewrite E2.
  assert (P3' : status_has (or_status GRUB_GPT_BACKUP_HEADER_VALID (set_backup hb g))
                  GRUB_GPT_PRIMARY_ENTRIES_VALID = true).
  { revert P3. status_bits. rewrite or_status_testbit. handle_fields.
    intros ->. reflexivity. }
  rewrite P3'.
  unfold grub_gpt_sector_to_addr. handle_fields. rewrite Els, M1.
  fold (A (partitions hb)). fold n. rewrite Hents, Hsize, Z.eqb_refl.
  unfold grub_memcmp_eq.
  rewrite (proj2 (bytes_eqb_eq _ _) eq_refl). cbn [negb orb].
  exists w2. split; [reflexivity | ].
  split; [exact Q2 | ]. split; congruence.
Qed.

Lemma read_mbr_quiet disk w :
  quiet w ->
  exists g0 w0,
    grub_gpt_read_mbr disk w = (Some g0, w0)
    /\ quiet w0 /\ medium w0 = medium w.
Proof.
  intros Q. unfold grub_gpt_read_mbr, bind, ret, clear_errno, grub_malloc.
  pose proof Q as (_ & _ & Qa). rewrite Qa. cbn [negb].
  destruct (disk_read_quiet disk 0 sizeof_mbr w Q) as (w1 & E1 & Q1 & M1 & N1).
  rewrite E1. cbn [fst snd].
  change (failed GRUB_ERR_NONE) with false. cbv beta iota.
  unfold grub_gpt_pmbr_check, grub_error.
  repeat match goal with
         | |- context [if ?c then _ else _] => destruct c
         end; cbn [fst snd];
    eexists; eexists; (split; [reflexivity | split; [exact Q1 | exact M1]]).
Qed.

Lemma read_copies_of_stored disk g0 w hp hb ents :
  quiet w ->
  header_wf hp -> header_wf hb ->
  let A := fun s => shl64 s (disk_log_sector_size disk - GRUB_DISK_SECTOR_BITS) in
  let n := maxpart hp * partentry_size hp in
  medium_bytes (medium w) (A 1) 0 sizeof_grub_gpt_header = header_bytes hp ->
  medium_bytes (medium w) (A (partitions hp)) 0 n = ents ->
  medium_bytes (medium w) (A (header_lba hb)) 0 sizeof_grub_gpt_header
  = header_bytes hb ->
  medium_bytes (medium w) (A (partitions hb)) 0 n = ents ->
  16384 <= n < 2 ^ 32 -> partentry_size hp <> 0 ->
  maxpart hb = maxpart hp -> partentry_size hb = partentry_size hp ->
  grub_crypto_hash_crc32 ents = partentry_crc32 hp ->
  partentry_crc32 hb = partentry_crc32 hp ->
  alternate_lba hp = header_lba hb ->
  grub_gpt_disk_size_valid disk
  && (header_lba hb >=? disk_total_sectors disk) = false ->
  (forall x w', primary x = hp ->
                log_sector_size x = disk_log_sector_size disk ->
                grub_gpt_check_primary x w' = (GRUB_ERR_NONE, w')) ->
  (forall x w', primary x = hp -> backup x = hb ->
                log_sector_size x = disk_log_sector_size disk ->
                status_has x GRUB_GPT_PRIMARY_HEADER_VALID = true ->
                grub_gpt_check_backup x w' = (GRUB_ERR_NONE, w')) ->
  exists g' w',
    grub_gpt_read_copies disk g0 w = (Some g', w')
    /\ primary g' = hp /\ backup g' = hb
    /\ entries g' = ents /\ entries_size g' = n
    /\ log_sector_size g' = disk_log_sector_size disk
    /\ grub_gpt_both_valid g' = true
    /\ quiet w' /\ medium w' = medium w.
Proof.
  intros Q Wp Wb A n H1 H2 H3 H4 Hn Hz Em Es Hcrc Ec Ealt K Cp Cb.
  subst ents.
  unfold grub_gpt_read_copies, bind, grub_error_push, grub_error_pop,
    clear_errno, ret. cbv zeta.
  destruct (read_primary_of_stored disk g0 w hp Q Wp) as (w1 & E1 & Q1 & M1 & N1);
    try assumption.
  { intros w'. apply Cp; reflexivity. }
  rewrite E1. cbn [fst snd].
  change (failed GRUB_ERR_NONE) with false. cbv beta iota.
  match goal with
  | |- context [grub_gpt_read_backup disk ?g1 w1] => set (g1' := g1)
  end.
  assert (P2 : status_has g1' GRUB_GPT_PRIMARY_HEADER_VALID = true).
  { subst g1'. status_bits. rewrite !or_status_testbit. handle_fields.
    rewrite Z.lor_spec. known_bits. rewrite !orb_true_r. reflexivity. }
  assert (P3 : status_has g1' GRUB_GPT_PRIMARY_ENTRIES_VALID = true).
  { subst g1'. status_bits. rewrite !or_status_testbit. known_bits.
    rewrite !orb_true_r. reflexivity. }
  destruct (read_backup_of_stored disk g1' w1 hb Q1 Wb P2 P3)
    as (w2 & E2 & Q2 & M2 & N2); try assumption; try reflexivity.
  { rewrite M1. exact H3. }
  { intros w'. apply Cb; try reflexivity.
    revert P2. status_bits. handle_fields. intros P2. exact P2. }
  { rewrite Em, Es. fold n. lia. }
  { rewrite Es. exact Hz. }
  { rewrite M1, Em, Es. exact H4. }
  { rewrite Em, Es. reflexivity. }
  { rewrite Ec. exact Hcrc. }
  rewrite E2. cbn [fst snd].
  match goal with
  | |- context [grub_gpt_primary_valid ?gf] => set (gf' := gf)
  end.
  assert (B : grub_gpt_both_valid gf' = true).
  { subst gf' g1'. status_bits. handle_fields. rewrite !Z.lor_spec. known_bits.
    rewrite ?orb_true_r. reflexivity. }
  assert (V : grub_gpt_primary_valid gf' = true).
  { revert B. status_bits. intros B.
    repeat (apply andb_true_iff in B; destruct B as [B ?]).
    apply andb_true_iff. split; assumption. }
  rewrite V. cbn [orb].
  eexists. eexists. split; [reflexivity | ].
  repeat match goal with |- _ /\ _ => split end;
    try reflexivity; try assumption.
  cbn [medium with_error]. rewrite M2. exact M1.
Qed.

Lemma failed_none e : failed e = false -> e = GRUB_ERR_NONE.
Proof. destruct e; try reflexivity; discriminate. Qed.

Lemma check_primary_facts g w :
  fst (grub_gpt_check_primary g w) = GRUB_ERR_NONE ->
  fst (grub_gpt_header_check (primary g) (log_sector_size g) w) = GRUB_ERR_NONE
  /\ header_lba (primary g) = 1
  /\ 1 < partitions (primary g)
  /\ u64 (partitions (primary g)
          + grub_gpt_entries_sectors (primary g) (log_sector_size g))
     <= start (primary g)
  /\ end_ (primary g) < alternate_lba (primary g).
Proof.
  unfold grub_gpt_check_primary, bind, get_errno, grub_error, ret. cbv zeta.
  pose proof (header_check_errno (primary g) (log_sector_size g) w) as E.
  destruct (grub_gpt_header_check (primary g) (log_sector_size g) w) as [e w1].
  cbn [fst snd] in *.
  destruct (failed e) eqn:Fe.
  { cbn [fst]. intros H. rewrite (E eq_refl) in H. subst e. discriminate. }
  apply failed_none in Fe. subst e.
  destruct (Z.eqb_spec (header_lba (primary g)) 1) as [H1 | H1];
    cbn [negb]; [ | simpl; discriminate].
  destruct (Z.leb_spec (partitions (primary g)) 1) as [H2 | H2];
    cbn [orb]; [simpl; discriminate | ].
  match goal with
  | |- context [?a >? ?b] => destruct (Z.gtb_spec a b) as [H3 | H3]
  end; [simpl; discriminate | ].
  destruct (Z.leb_spec (alternate_lba (primary g)) (end_ (primary g))) as [H4 | H4];
    [simpl; discriminate | ].
  intros _. repeat split; assumption.
Qed.

Lemma check_backup_facts g w :
  fst (grub_gpt_check_backup g w) = GRUB_ERR_NONE ->
  fst (grub_gpt_header_check (backup g) (log_sector_size g) w) = GRUB_ERR_NONE
  /\ alternate_lba (backup g) = 1
  /\ end_ (backup g) < partitions (backup g)
  /\ u64 (partitions (backup g)
          + grub_gpt_entries_sectors (backup g) (log_sector_size g))
     <= header_lba (backup g)
  /\ end_ (backup g) < header_lba (backup g).
Proof.
  unfold grub_gpt_check_backup, bind, get_errno, grub_error, ret. cbv zeta.
  pose proof (header_check_errno (backup g) (log_sector_size g) w) as E.
  destruct (grub_gpt_header_check (backup g) (log_sector_size g) w) as [e w1].
  cbn [fst snd] in *.
  destruct (failed e) eqn:Fe.
  { cbn [fst]. intros H. rewrite (E eq_refl) in H. subst e. discriminate. }
  apply failed_none in Fe. subst e.
  destruct (Z.eqb_spec (alternate_lba (backup g)) 1) as [H1 | H1];
    cbn [negb]; [ | simpl; discriminate].
  destruct (Z.leb_spec (partitions (backup g)) (end_ (backup g))) as [H2 | H2];
    cbn [orb]; [simpl; discriminate | ].
  match goal with
  | |- context [?a >? ?b] => destruct (Z.gtb_spec a b) as [H3 | H3]
  end; [simpl; discriminate | ].
  destruct (Z.leb_spec (header_lba (backup g)) (end_ (backup g))) as [H4 | H4];
    [simpl; discriminate | ].
  intros _. repeat split; assumption.
Qed.

Lemma header_check_facts h ls w :
  header_wf h -> 0 <= ls < 32 ->
  fst (grub_gpt_header_check h ls w) = GRUB_ERR_NONE ->
  92 <= headersize h <= 2 ^ ls
  /\ 128 <= partentry_size h
  /\ 16384 <= maxpart h * partentry_size h
  /\ start h <= end_ h.
Proof.
  intros W L H.
  pose proof (passing_header_has_no_defect h ls w W L H) as N.
  unfold spec_header_invalid in N.
  repeat match goal with |- _ /\ _ => split end.
  - destruct (Z.lt_ge_cases (headersize h) 92); [exfalso; apply N; tauto | lia].
  - destruct (Z.lt_ge_cases (2 ^ ls) (headersize h)); [exfalso; apply N | lia].
    right. right. right. left. right. lia.
  - destruct (Z.lt_ge_cases (partentry_size h) 128); [exfalso; apply N; tauto | lia].
  - destruct (Z.lt_ge_cases (maxpart h * partentry_size h) 16384);
      [exfalso; apply N; tauto | lia].
  - destruct (Z.lt_ge_cases (end_ h) (start h)); [exfalso; apply N | lia].
    right. right. right. right. right. right. lia.
Qed.

Lemma sector_addr_scale ls s :
  9 <= ls < 32 -> 0 <= s < 2 ^ 40 ->
  shl64 s (ls - GRUB_DISK_SECTOR_BITS) * 512 = s * 2 ^ ls.
Proof.
  intros L S. unfold shl64, GRUB_DISK_SECTOR_BITS.
  rewrite Z.shiftl_mul_pow2 by lia.
  assert (P : 2 ^ ls = 2 ^ (ls - 9) * 512).
  { replace ls with ((ls - 9) + 9) at 1 by lia.
    rewrite Z.pow_add_r by lia. reflexivity. }
  assert (B : 0 < 2 ^ (ls - 9) <= 2 ^ 22).
  { split; [apply Z.pow_pos_nonneg; lia | apply Z.pow_le_mono_r; lia]. }
  rewrite u64_small.
  - rewrite P. ring.
  - unfold is_u64. split; [nia | ].
    assert (s * 2 ^ (ls - 9) <= 2 ^ 40 * 2 ^ 22) by nia.
    change (2 ^ 40 * 2 ^ 22) with (2 ^ 62) in *. 
    assert (2 ^ 62 < 2 ^ 64) by (vm_compute; reflexivity). lia.
Qed.

Lemma four_stores_read m a1 a2 a3 a4 (h1 h2 ents : list byte) n :
  List.length h1 = 92%nat -> List.length h2 = 92%nat ->
  Z.of_nat (List.length ents) = n ->
  a3 * 512 + 92 <= a4 * 512 ->
  a4 * 512 + n <= a2 * 512 ->
  a2 * 512 + n <= a1 * 512 ->
  let m4 := medium_store
              (medium_store (medium_store (medium_store m a1 0 h1) a2 0 ents)
                 a3 0 h2) a4 0 ents in
  medium_bytes m4 a3 0 92 = h2
  /\ medium_bytes m4 a4 0 n = ents
  /\ medium_bytes m4 a1 0 92 = h1
  /\ medium_bytes m4 a2 0 n = ents.
Proof.
  intros L1 L2 Ln O1 O2 O3. cbv zeta.
  assert (Z.of_nat (List.length h1) = 92) by lia.
  assert (Z.of_nat (List.length h2) = 92) by lia.
  repeat match goal with |- _ /\ _ => split end.
  - rewrite medium_bytes_store_other by lia.
    change 92 with (Z.of_nat 92). rewrite <- L2.
    apply medium_bytes_store_same.
  - rewrite <- Ln. apply medium_bytes_store_same.
  - rewrite !medium_bytes_store_other by lia.
    change 92 with (Z.of_nat 92). rewrite <- L1.
    apply medium_bytes_store_same.
  - rewrite !medium_bytes_store_other by lia.
    rewrite <- Ln. apply medium_bytes_store_same.
Qed.

Lemma headers_equal_lbas g :
  grub_gpt_headers_equal g = true ->
  header_lba (primary g) = alternate_lba (backup g)
  /\ alternate_lba (primary g) = header_lba (backup g)
  /\ start (primary g) = start (backup g)
  /\ end_ (primary g) = end_ (backup g).
Proof.
  unfold grub_gpt_headers_equal.
  destruct (Z.eqb_spec (header_lba (primary g)) (alternate_lba (backup g)));
    destruct (Z.eqb_spec (alternate_lba (primary g)) (header_lba (backup g)));
    destruct (Z.eqb_spec (start (primary g)) (start (backup g)));
    destruct (Z.eqb_spec (end_ (primary g)) (end_ (backup g)));
    cbn [negb]; rewrite ?orb_true_r; cbn [orb]; try discriminate; auto.
Qed.

Lemma ceil_div_covers n s :
  0 <= n -> 0 < s -> n <= ceil_div n s * s /\ 0 <= ceil_div n s <= n.
Proof.
  intros Hn Hs. unfold ceil_div.
  pose proof (Z.div_mod (n + s - 1) s ltac:(lia)) as D.
  pose proof (Z.mod_pos_bound (n + s - 1) s Hs) as B.
  split; [nia | ]. split.
  - apply Z.div_pos; lia.
  - destruct (Z.eq_dec n 0) as [-> | N].
    + rewrite Z.div_small by lia. lia.
    + assert ((n + s - 1) / s * s <= n + s - 1) by nia.
      assert ((n + s - 1) / s <= n) by nia. lia.
Qed.

Lemma pass_everywhere_primary g w :
  fst (grub_gpt_check_primary g w) = GRUB_ERR_NONE ->
  forall x w', primary x = primary g -> log_sector_size x = log_sector_size g ->
               grub_gpt_check_primary x w' = (GRUB_ERR_NONE, w').
Proof.
  intros H x w' E1 E2.
  rewrite (check_primary_same_headers x g w' E1 E2).
  destruct (check_primary_shape g) as [r Hr].
  rewrite Hr in *. apply (check_result_pass r w). rewrite H. reflexivity.
Qed.

Lemma pass_everywhere_backup g w :
  fst (grub_gpt_check_backup g w) = GRUB_ERR_NONE ->
  forall x w', primary x = primary g -> backup x = backup g ->
               log_sector_size x = log_sector_size g ->
               status_has x GRUB_GPT_PRIMARY_HEADER_VALID
               = status_has g GRUB_GPT_PRIMARY_HEADER_VALID ->
               grub_gpt_check_backup x w' = (GRUB_ERR_NONE, w').
Proof.
  intros H x w' E1 E2 E3 E4.
  rewrite (check_backup_same_headers x g w' E1 E2 E3 E4).
  destruct (check_backup_shape g) as [r Hr].
  rewrite Hr in *. apply (check_result_pass r w). rewrite H. reflexivity.
Qed.

(** X16: a table that [grub_gpt_write] has put on a willing device in
    full is what [grub_gpt_read] finds there afterwards: for a handle
    whose two copies pass their checks, whose entry array fits the primary
    header and whose sectors lie below 2^40, a successful write that did
    not skip the backup copy is followed by a read that returns both
    headers and the entry array unchanged, with both copies valid. *)
Theorem write_then_read_round_trip disk g w :
  quiet w ->
  log_sector_size g = disk_log_sector_size disk ->
  9 <= log_sector_size g < 32 ->
  header_wf (primary g) -> header_wf (backup g) ->
  fst (grub_gpt_check_primary g w) = GRUB_ERR_NONE ->
  fst (grub_gpt_check_backup g w) = GRUB_ERR_NONE ->
  entries_fit (primary g) g ->
  table_below g (2 ^ 40) ->
  grub_gpt_disk_size_valid disk
  && (header_lba (backup g) >=? disk_total_sectors disk) = false ->
  fst (grub_gpt_write disk g w) = GRUB_ERR_NONE ->
  exists g',
    fst (grub_gpt_read disk (snd (grub_gpt_write disk g w))) = Some g'
    /\ primary g' = primary g /\ backup g' = backup g
    /\ entries g' = entries g /\ entries_size g' = entries_size g
    /\ log_sector_size g' = log_sector_size g
    /\ grub_gpt_both_valid g' = true.
Proof.
  intros Q Els Lls Wp Wb Cp Cb Fit Below K Wr.
  destruct (write_stores disk g w Q Wr K) as (Q4 & Both & M4).
  destruct Fit as (F1 & F2 & F3 & F4 & F5 & F6).
  destruct Below as (B1 & B2 & B3).
  assert (P2 : status_has g GRUB_GPT_PRIMARY_HEADER_VALID = true).
  { revert Both. status_bits. intros Both.
    repeat (apply andb_true_iff in Both; destruct Both as [Both ?]).
    assumption. }
  assert (Mir : grub_gpt_headers_equal g = true).
  { apply (check_backup_pass_mirror g w); [rewrite Cb; reflexivity | exact P2]. }
  destruct (headers_equal_counts g Mir) as (Em & Es & Ec).
  destruct (headers_equal_lbas g Mir) as (_ & Ealt & Est & Een).
  destruct (check_primary_facts g w Cp) as (Hp & P1 & P3 & P4 & P5).
  destruct (check_backup_facts g w Cb) as (Hb & K1 & K3 & K4 & K5).
  assert (L32 : 0 <= log_sector_size g < 32) by lia.
  destruct (header_check_facts _ _ w Wp L32 Hp) as (S1 & S2 & S3 & S4).
  rewrite (entries_sectors_ceil _ _ Wp L32) in P4.
  rewrite (entries_sectors_ceil _ _ Wb L32), <- Em, <- Es in K4.
  set (n := maxpart (primary g) * partentry_size (primary g)) in *.
  set (S := 2 ^ log_sector_size g) in *.
  assert (S512 : 512 <= S).
  { subst S. change 512 with (2 ^ 9). apply Z.pow_le_mono_r; lia. }
  destruct (ceil_div_covers n S ltac:(lia) ltac:(lia)) as (Cv & Cl).
  set (len := ceil_div n S) in *.
  pose proof Wp as (_ & _ & _ & _ & _ & _ & _ & _ & _ & _ & Wpp & _).
  pose proof Wb as (_ & _ & _ & _ & _ & Wbh & _ & _ & _ & _ & Wbp & _).
  unfold is_u64 in Wpp, Wbh, Wbp.
  assert (T64 : 2 ^ 40 + 2 ^ 32 < 2 ^ 64) by (vm_compute; reflexivity).
  rewrite u64_small in P4 by (unfold is_u64; lia).
  rewrite u64_small in K4 by (unfold is_u64; lia).
  assert (A1 : shl64 1 (log_sector_size g - GRUB_DISK_SECTOR_BITS) * 512 = 1 * S).
  { apply sector_addr_scale; [lia | ]. split; [lia | vm_compute; reflexivity]. }
  pose proof (sector_addr_scale (log_sector_size g) (partitions (primary g))
                ltac:(lia) ltac:(lia)) as A2.
  pose proof (sector_addr_scale (log_sector_size g) (partitions (backup g))
                ltac:(lia) ltac:(lia)) as A3.
  pose proof (sector_addr_scale (log_sector_size g) (header_lba (backup g))
                ltac:(lia) ltac:(lia)) as A4.
  fold S in A2, A3, A4.
  assert (Lents : firstn (Z.to_nat (entries_size g)) (entries g) = entries g)
    by (apply firstn_all2; lia).
  assert (Lhp : firstn (Z.to_nat sizeof_grub_gpt_header) (header_bytes (primary g))
                = header_bytes (primary g)).
  { apply firstn_all2. rewrite (header_bytes_length _ Wp). unfold sizeof_grub_gpt_header. lia. }
  assert (Lhb : firstn (Z.to_nat sizeof_grub_gpt_header) (header_bytes (backup g))
                = header_bytes (backup g)).
  { apply firstn_all2. rewrite (header_bytes_length _ Wb). unfold sizeof_grub_gpt_header. lia. }
  rewrite Lents, Lhp, Lhb in M4.
  unfold grub_gpt_sector_to_addr in M4. rewrite P1 in M4.
  destruct (four_stores_read (medium w)
              (shl64 (header_lba (backup g)) (log_sector_size g - GRUB_DISK_SECTOR_BITS))
              (shl64 (partitions (backup g)) (log_sector_size g - GRUB_DISK_SECTOR_BITS))
              (shl64 1 (log_sector_size g - GRUB_DISK_SECTOR_BITS))
              (shl64 (partitions (primary g)) (log_sector_size g - GRUB_DISK_SECTOR_BITS))
              (header_bytes (backup g)) (header_bytes (primary g)) (entries g) n
              (header_bytes_length _ Wb) (header_bytes_length _ Wp))
    as (R1 & R2 & R3 & R4).
  { lia. }
  { rewrite A1, A2. nia. }
  { rewrite A2, A3. nia. }
  { rewrite A3, A4. nia. }
  rewrite <- M4 in R1, R2, R3, R4.
  destruct (read_mbr_quiet disk _ Q4) as (g0 & w0 & E0 & Q0 & M0).
  rewrite <- M0 in R1, R2, R3, R4. rewrite Els in R1, R2, R3, R4.
  destruct (read_copies_of_stored disk g0 w0 (primary g) (backup g) (entries g)
              Q0 Wp Wb R1 R2)
    as (g' & w' & E' & G1 & G2 & G3 & G4 & G5 & G6 & _).
  - exact R3.
  - exact R4.
  - fold n. lia.
  - lia.
  - symmetry. exact Em.
  - symmetry. exact Es.
  - exact F5.
  - symmetry. exact Ec.
  - exact Ealt.
  - exact K.
  - intros x w1 X1 X2. apply (pass_everywhere_primary g w Cp); congruence.
  - intros x w1 X1 X2 X3 X4.
    apply (pass_everywhere_backup g w Cb); congruence.
  - exists g'. unfold grub_gpt_read, bind. rewrite E0, E'. cbn [fst].
    repeat match goal with |- _ /\ _ => split end; try assumption; try reflexivity.
    + rewrite G4. fold n. lia.
    + congruence.
Qed.

Lemma write_then_read_round_trip_witness :
  exists g',
    fst (grub_gpt_read sample_disk
           (snd (grub_gpt_write sample_disk sample_gpt sample_world))) = Some g'
    /\ primary g' = primary sample_gpt /\ backup g' = backup sample_gpt
    /\ entries g' = entries sample_gpt
    /\ entries_size g' = entries_size sample_gpt
    /\ log_sector_size g' = log_sector_size sample_gpt
    /\ grub_gpt_both_valid g' = true.
Proof.
  apply (write_then_read_round_trip sample_disk sample_gpt sample_world).
  - unfold quiet. repeat split; intros; reflexivity.
  - reflexivity.
  - vm_compute. split; [discriminate | reflexivity].
  - apply header_wfb_sound. vm_compute. reflexivity.
  - apply header_wfb_sound. vm_compute. reflexivity.
  - vm_compute. reflexivity.
  - vm_compute. reflexivity.
  - unfold entries_fit. repeat match goal with |- _ /\ _ => split end.
    + vm_compute. discriminate.
    + vm_compute. discriminate.
    + vm_compute. reflexivity.
    + vm_compute. reflexivity.
    + vm_compute. reflexivity.
    + vm_compute. reflexivity.
  - unfold table_below. repeat split; vm_compute; reflexivity.
  - vm_compute. reflexivity.
  - vm_compute. reflexivity.
Defined.

(** ** The protective MBR *)

(** X17: [grub_gpt_pmbr_check] accepts an MBR with the boot signature and
    the GPT type byte 0xEE in one of its four entries, whatever lies in
    memory after the table, and leaves the environment as it was. *)
Theorem pmbr_check_accepts m w i :
  mbr_signature m = GRUB_PC_PARTITION_SIGNATURE ->
  (i < 4)%nat ->
  byte_val (nth (446 + 16 * i + 4) m "000"%byte) = GRUB_PC_PARTITION_TYPE_GPT_DISK ->
  grub_gpt_pmbr_check m w = (GRUB_ERR_NONE, w).
Proof.
  intros Hs Hi Ht. unfold grub_gpt_pmbr_check.
  rewrite Hs, Z.eqb_refl. cbn [negb].
  match goal with
  | |- context [existsb ?f ?l] =>
      assert (E : existsb f l = true)
  end.
  { apply existsb_exists. exists i. split.
    - apply in_seq. lia.
    - unfold mbr_entry_type.
      destruct (Nat.ltb_spec i 4) as [L | L]; [ | lia].
      rewrite Ht. apply Z.eqb_refl. }
  rewrite E. reflexivity.
Qed.

Lemma pmbr_check_accepts_witness :
  grub_gpt_pmbr_check (mbr sample_gpt) sample_world = (GRUB_ERR_NONE, sample_world).
Proof.
  apply (pmbr_check_accepts (mbr sample_gpt) sample_world 0).
  - vm_compute. reflexivity.
  - lia.
  - vm_compute. reflexivity.
Defined.

Lemma pmbr_check_stray m w w' :
  stray_memory w' = stray_memory w ->
  fst (grub_gpt_pmbr_check m w') = fst (grub_gpt_pmbr_check m w).
Proof.
  intros E. unfold grub_gpt_pmbr_check, mbr_entry_type, grub_error. rewrite E.
  repeat match goal with
         | |- context [if ?c then _ else _] => destruct c
         end; reflexivity.
Qed.

Lemma read_primary_keeps_mbr disk g w :
  mbr (snd (fst (grub_gpt_read_primary disk g w))) = mbr g
  /\ Z.testbit (status (snd (fst (grub_gpt_read_primary disk g w)))) 0
     = Z.testbit (status g) 0.
Proof.
  unfold grub_gpt_read_primary, bind, get_errno, ret. cbv zeta.
  match goal with
  | |- context [grub_disk_read disk ?a 0 ?n w] =>
      destruct (grub_disk_read disk a 0 n w) as [r w0]
  end.
  destruct (failed (fst r)); [split; reflexivity | ].
  match goal with
  | |- context [grub_gpt_check_primary ?g1 w0] =>
      destruct (grub_gpt_check_primary g1 w0) as [c w1]
  end.
  destruct (failed c); [split; reflexivity | ].
  match goal with
  | |- context [grub_gpt_read_entries disk ?g1 ?h1 w1] =>
      destruct (grub_gpt_read_entries disk g1 h1 w1) as [[e o] w2]
  end.
  destruct o as [[buf n] | ]; cbn [fst snd]; handle_fields;
    rewrite ?Z.lor_spec; known_bits; rewrite ?orb_false_r; split; reflexivity.
Qed.

Lemma read_backup_at_keeps_mbr disk g sector w :
  mbr (snd (fst (grub_gpt_read_backup_at disk g sector w))) = mbr g
  /\ Z.testbit (status (snd (fst (grub_gpt_read_backup_at disk g sector w)))) 0
     = Z.testbit (status g) 0.
Proof.
  unfold grub_gpt_read_backup_at, bind, get_errno, grub_error, ret. cbv zeta.
  destruct (grub_disk_read disk (grub_gpt_sector_to_addr g sector) 0
                           sizeof_grub_gpt_header w) as [r w0].
  destruct (failed (fst r)); [split; reflexivity | ].
  match goal with
  | |- context [grub_gpt_check_backup ?g1 w0] =>
      destruct (grub_gpt_check_backup g1 w0) as [c w1]
  end.
  destruct (failed c); [split; reflexivity | ].
  match goal with
  | |- context [if negb (?x =? sector) then _ else _] =>
      destruct (negb (x =? sector)); [split; reflexivity | ]
  end.
  match goal with
  | |- context [grub_gpt_read_entries disk ?g1 ?h1 w1] =>
      destruct (grub_gpt_read_entries disk g1 h1 w1) as [[e o] w2]
  end.
  destruct o as [[buf n] | ];
    repeat match goal with
           | |- context [if ?c then _ else _] => destruct c
           end;
    cbn [fst snd]; handle_fields;
    rewrite ?Z.lor_spec; known_bits; rewrite ?orb_false_r; split; reflexivity.
Qed.

Lemma read_backup_keeps_mbr disk g w :
  mbr (snd (fst (grub_gpt_read_backup disk g w))) = mbr g
  /\ Z.testbit (status (snd (fst (grub_gpt_read_backup disk g w)))) 0
     = Z.testbit (status g) 0.
Proof.
  unfold grub_gpt_read_backup, bind, grub_error, ret.
  repeat match goal with
         | |- context [if ?c then _ else _] => destruct c
         end;
    try (split; reflexivity); apply read_backup_at_keeps_mbr.
Qed.

Lemma read_copies_keeps_mbr disk g w g' w' :
  grub_gpt_read_copies disk g w = (Some g', w') ->
  mbr g' = mbr g /\ Z.testbit (status g') 0 = Z.testbit (status g) 0.
Proof.
  unfold grub_gpt_read_copies, bind, grub_error_push, grub_error_pop,
    clear_errno, ret. cbv zeta.
  destruct (read_primary_keeps_mbr disk g w) as [A1 A2].
  destruct (grub_gpt_read_primary disk g w) as [[e g1] w1].
  cbn [fst snd] in *.
  destruct (failed e).
  - match goal with
    | |- context [grub_gpt_read_backup disk g1 ?wp] =>
        destruct (read_backup_keeps_mbr disk g1 wp) as [B1 B2];
        destruct (grub_gpt_read_backup disk g1 wp) as [[eb gb] w2]
    end.
    cbn [fst snd] in *.
    destruct (grub_error_stack w2) as [ | [e0 m0] rest]; cbn [fst snd];
      destruct (grub_gpt_primary_valid gb || grub_gpt_backup_valid gb);
      intros H; try discriminate; injection H as H1 H2; subst g' w';
      split; congruence.
  - destruct (read_backup_keeps_mbr disk g1 w1) as [B1 B2].
    destruct (grub_gpt_read_backup disk g1 w1) as [[eb gb] w2].
    cbn [fst snd] in *.
    destruct (grub_gpt_primary_valid gb || grub_gpt_backup_valid gb);
      intros H; try discriminate; injection H as H1 H2; subst g' w';
      split; congruence.
Qed.

Lemma read_copies_verdict disk g w :
  fst (grub_gpt_read_copies disk g w)
  = if grub_gpt_primary_valid (snd (fst (backup_attempt disk g w)))
       || grub_gpt_backup_valid (snd (fst (backup_attempt disk g w)))
    then Some (snd (fst (backup_attempt disk g w)))
    else None.
Proof.
  unfold grub_gpt_read_copies, backup_attempt, bind, grub_error_push,
    grub_error_pop, clear_errno, ret. cbv zeta.
  destruct (grub_gpt_read_primary disk g w) as [[e g1] w1].
  cbn [fst snd].
  destruct (failed e); cbn [fst snd].
  - match goal with
    | |- context [grub_gpt_read_backup disk g1 ?wp] =>
        destruct (grub_gpt_read_backup disk g1 wp) as [[eb gb] w2]
    end.
    cbn [fst snd].
    destruct (grub_error_stack w2) as [ | [e0 m0] rest]; cbn [fst snd];
      destruct (grub_gpt_primary_valid gb || grub_gpt_backup_valid gb);
      reflexivity.
  - destruct (grub_gpt_read_backup disk g1 w1) as [[eb gb] w2].
    cbn [fst snd].
    destruct (grub_gpt_primary_valid gb || grub_gpt_backup_valid gb);
      reflexivity.
Qed.

(** X18: once the handle is allocated and sector 0 read,
    [grub_gpt_read] goes on to the two copies whatever
    [grub_gpt_pmbr_check] says about sector 0.  After an accepted MBR it
    returns what [grub_gpt_read_copies] returns for the handle with the
    PROTECTIVE_MBR bit set; after a rejected one it returns what
    [grub_gpt_read_copies] returns for the handle without the bit, in an
    environment whose error slot has been cleared, so that a copy that
    validates gives a handle all the same.  A handle that is returned
    holds the first 512 bytes of the medium as its MBR, and its
    PROTECTIVE_MBR bit is set exactly when the check accepted them. *)
Theorem read_protective_mbr_bit disk w :
  alloc_ok w sizeof_grub_gpt = true ->
  read_fault w 0 0 sizeof_mbr = None ->
  let m := medium_bytes (medium w) 0 0 sizeof_mbr in
  let g0 := set_mbr m zero_gpt in
  let w1 := snd (grub_disk_read disk 0 0 sizeof_mbr w) in
  let w2 := snd (clear_errno (snd (grub_gpt_pmbr_check m w1))) in
  let g2 := snd (fst (backup_attempt disk g0 w2)) in
  (fst (grub_gpt_pmbr_check m w) = GRUB_ERR_NONE ->
   fst (grub_gpt_read disk w)
   = fst (grub_gpt_read_copies disk (or_status GRUB_GPT_PROTECTIVE_MBR g0) w1))
  /\ (fst (grub_gpt_pmbr_check m w) <> GRUB_ERR_NONE ->
      fst (grub_gpt_read disk w) = fst (grub_gpt_read_copies disk g0 w2)
      /\ grub_errno w2 = GRUB_ERR_NONE
      /\ (grub_gpt_primary_valid g2 || grub_gpt_backup_valid g2 = true ->
          fst (grub_gpt_read disk w) = Some g2
          /\ status_has g2 GRUB_GPT_PROTECTIVE_MBR = false))
  /\ (forall g, fst (grub_gpt_read disk w) = Some g ->
      mbr g = m
      /\ (status_has g GRUB_GPT_PROTECTIVE_MBR = true
          <-> fst (grub_gpt_pmbr_check m w) = GRUB_ERR_NONE)).
Proof.
  intros Ha Hf. cbv zeta.
  assert (Hread : grub_disk_read disk 0 0 sizeof_mbr w
                  = ((GRUB_ERR_NONE, medium_bytes (medium w) 0 0 sizeof_mbr),
                     snd (grub_disk_read disk 0 0 sizeof_mbr w))).
  { unfold grub_disk_read. cbv zeta. rewrite Hf. reflexivity. }
  set (m := medium_bytes (medium w) 0 0 sizeof_mbr) in *.
  set (w1 := snd (grub_disk_read disk 0 0 sizeof_mbr w)) in *.
  assert (Hstray : stray_memory w1 = stray_memory w).
  { subst w1. unfold grub_disk_read. cbv zeta. rewrite Hf. reflexivity. }
  pose proof (pmbr_check_stray m w w1 Hstray) as P.
  assert (Hmbr : grub_gpt_read_mbr disk w
                 = if failed (fst (grub_gpt_pmbr_check m w1))
                   then (Some (set_mbr m zero_gpt),
                         snd (clear_errno (snd (grub_gpt_pmbr_check m w1))))
                   else (Some (or_status GRUB_GPT_PROTECTIVE_MBR (set_mbr m zero_gpt)),
                         snd (grub_gpt_pmbr_check m w1))).
  { unfold grub_gpt_read_mbr, bind, ret, grub_malloc.
    rewrite Ha. cbn [negb]. rewrite Hread. cbn [fst snd].
    change (failed GRUB_ERR_NONE) with false. cbv beta iota.
    cbn [mbr set_mbr].
    destruct (grub_gpt_pmbr_check m w1) as [c wc]. cbn [fst snd].
    destruct (failed c); reflexivity. }
  assert (Hacc : fst (grub_gpt_pmbr_check m w1) = GRUB_ERR_NONE ->
                 snd (grub_gpt_pmbr_check m w1) = w1).
  { unfold grub_gpt_pmbr_check, grub_error.
    repeat match goal with
           | |- context [if ?c then _ else _] => destruct c
           end; cbn [fst snd]; intros D; try discriminate; reflexivity. }
  assert (Hread' : grub_gpt_read disk w
                   = let (og, w0) := grub_gpt_read_mbr disk w in
                     match og with
                     | Some g => grub_gpt_read_copies disk g w0
                     | None => (None, w0)
                     end).
  { unfold grub_gpt_read, bind, ret.
    destruct (grub_gpt_read_mbr disk w) as [[g | ] w0]; reflexivity. }
  split; [ | split].
  - intros Acc. rewrite <- P in Acc.
    rewrite Hread', Hmbr, Acc.
    change (failed GRUB_ERR_NONE) with false. cbv iota.
    rewrite (Hacc Acc). reflexivity.
  - intros Rej. rewrite <- P in Rej.
    assert (F : failed (fst (grub_gpt_pmbr_check m w1)) = true).
    { destruct (fst (grub_gpt_pmbr_check m w1)); try reflexivity. contradiction. }
    assert (E : fst (grub_gpt_read disk w)
                = fst (grub_gpt_read_copies disk (set_mbr m zero_gpt)
                         (snd (clear_errno (snd (grub_gpt_pmbr_check m w1)))))).
    { rewrite Hread', Hmbr, F. reflexivity. }
    split; [exact E | ]. split; [reflexivity | ].
    intros V. rewrite E, read_copies_verdict, V.
    split; [reflexivity | ].
    match goal with
    | |- context [backup_attempt disk ?g ?wx] =>
        destruct (read_copies_keeps_mbr disk g wx
                    (snd (fst (backup_attempt disk g wx)))
                    (snd (grub_gpt_read_copies disk g wx))) as [_ K]
    end.
    { rewrite (surjective_pairing (grub_gpt_read_copies _ _ _)).
      rewrite read_copies_verdict, V. reflexivity. }
    rewrite has_protective_mbr, K. reflexivity.
  - intros g Hg. rewrite Hread', Hmbr in Hg.
    destruct (failed (fst (grub_gpt_pmbr_check m w1))) eqn:F.
    + match type of Hg with
      | fst (grub_gpt_read_copies disk ?g0 ?wx) = _ =>
          destruct (read_copies_keeps_mbr disk g0 wx g
                      (snd (grub_gpt_read_copies disk g0 wx))) as [K1 K2]
      end.
      { rewrite (surjective_pairing (grub_gpt_read_copies _ _ _)), Hg. reflexivity. }
      rewrite has_protective_mbr, K1, K2, <- P.
      split; [reflexivity | ]. cbn [status set_mbr zero_gpt].
      change (Z.testbit 0 0) with false. split; [discriminate | ].
      intros C. rewrite C in F. discriminate.
    + match type of Hg with
      | fst (grub_gpt_read_copies disk ?g0 ?wx) = _ =>
          destruct (read_copies_keeps_mbr disk g0 wx g
                      (snd (grub_gpt_read_copies disk g0 wx))) as [K1 K2]
      end.
      { rewrite (surjective_pairing (grub_gpt_read_copies _ _ _)), Hg. reflexivity. }
      rewrite has_protective_mbr, K1, K2, <- P.
      split; [reflexivity | ].
      cbn [status set_mbr zero_gpt or_status set_status].
      rewrite Z.lor_spec. change (Z.testbit GRUB_GPT_PROTECTIVE_MBR 0) with true.
      rewrite orb_true_r. split; [intros _; apply failed_none; exact F | reflexivity].
Qed.

Lemma read_protective_mbr_bit_witness :
  fst (grub_gpt_pmbr_check (medium_bytes (medium no_mbr_world) 0 0 sizeof_mbr)
         no_mbr_world) <> GRUB_ERR_NONE
  /\ exists g,
       fst (grub_gpt_read sample_disk no_mbr_world) = Some g
       /\ status_has g GRUB_GPT_PROTECTIVE_MBR = false
       /\ grub_gpt_both_valid g = true.
Proof.
  assert (R : fst (grub_gpt_pmbr_check
                     (medium_bytes (medium no_mbr_world) 0 0 sizeof_mbr)
                     no_mbr_world) <> GRUB_ERR_NONE)
    by (vm_compute; discriminate).
  split; [exact R | ].
  destruct (proj1 (proj2 (read_protective_mbr_bit sample_disk no_mbr_world
                            eq_refl eq_refl)) R) as (_ & _ & V).
  destruct V as [E B].
  - vm_compute. reflexivity.
  - eexists. split; [exact E | ]. split; [exact B | ].
    vm_compute. reflexivity.
Defined.

(** ** The layout the checks enforce *)

(** X19: [grub_gpt_entries_sectors] is the least number of sectors that
    holds the entry array: the sectors cover [maxpart * partentry_size]
    bytes and one sector fewer would not. *)
Theorem entries_sectors_least_cover h ls :
  header_wf h -> 0 <= ls < 32 ->
  maxpart h * partentry_size h
  <= grub_gpt_entries_sectors h ls * 2 ^ ls
  < maxpart h * partentry_size h + 2 ^ ls.
Proof.
  intros W L. rewrite (entries_sectors_ceil h ls W L). unfold ceil_div.
  assert (S : 0 < 2 ^ ls) by (apply Z.pow_pos_nonneg; lia).
  pose proof (Z.div_mod (maxpart h * partentry_size h + 2 ^ ls - 1) (2 ^ ls)
                ltac:(lia)) as D.
  pose proof (Z.mod_pos_bound (maxpart h * partentry_size h + 2 ^ ls - 1)
                (2 ^ ls) S) as B.
  nia.
Qed.

Lemma entries_sectors_least_cover_witness :
  maxpart sample_primary * partentry_size sample_primary
  <= grub_gpt_entries_sectors sample_primary 12 * 2 ^ 12
  < maxpart sample_primary * partentry_size sample_primary + 2 ^ 12.
Proof.
  apply (entries_sectors_least_cover sample_primary 12).
  - apply header_wfb_sound. vm_compute. reflexivity.
  - lia.
Defined.

(** X20: a primary header that [grub_gpt_check_primary] accepts sits at
    sector 1 and fits in it; when the end of its entry array does not wrap
    around 64 bits, the array starts after sector 1 and ends, in bytes, at
    or before the first usable sector, the usable range is not empty and
    the backup header lies after it. *)
Theorem checked_primary_layout g w :
  header_wf (primary g) -> 0 <= log_sector_size g < 32 ->
  partitions (primary g)
  + grub_gpt_entries_sectors (primary g) (log_sector_size g) < 2 ^ 64 ->
  fst (grub_gpt_check_primary g w) = GRUB_ERR_NONE ->
  header_lba (primary g) = 1
  /\ 92 <= headersize (primary g) <= 2 ^ log_sector_size g
  /\ 2 <= partitions (primary g)
  /\ partitions (primary g) * 2 ^ log_sector_size g
     + maxpart (primary g) * partentry_size (primary g)
     <= start (primary g) * 2 ^ log_sector_size g
  /\ start (primary g) <= end_ (primary g)
  /\ end_ (primary g) < alternate_lba (primary g).
Proof.
  intros W L NW C.
  destruct (check_primary_facts g w C) as (Hh & P1 & P3 & P4 & P5).
  destruct (header_check_facts _ _ w W L Hh) as (S1 & S2 & S3 & S4).
  pose proof W as (_ & _ & _ & _ & _ & _ & _ & _ & _ & _ & Wpp & Wm & Ws & _).
  unfold is_u64 in Wpp. unfold is_u32 in Wm, Ws.
  assert (S : 0 < 2 ^ log_sector_size g) by (apply Z.pow_pos_nonneg; lia).
  rewrite (entries_sectors_ceil _ _ W L) in *.
  destruct (ceil_div_covers (maxpart (primary g) * partentry_size (primary g))
              (2 ^ log_sector_size g) ltac:(nia) S) as (Cv & Cl).
  rewrite u64_small in P4 by (unfold is_u64; lia).
  repeat match goal with |- _ /\ _ => split end; try lia.
  nia.
Qed.

Lemma checked_primary_layout_witness :
  header_lba (primary sample_gpt) = 1
  /\ 92 <= headersize (primary sample_gpt) <= 2 ^ log_sector_size sample_gpt
  /\ 2 <= partitions (primary sample_gpt)
  /\ partitions (primary sample_gpt) * 2 ^ log_sector_size sample_gpt
     + maxpart (primary sample_gpt) * partentry_size (primary sample_gpt)
     <= start (primary sample_gpt) * 2 ^ log_sector_size sample_gpt
  /\ start (primary sample_gpt) <= end_ (primary sample_gpt)
  /\ end_ (primary sample_gpt) < alternate_lba (primary sample_gpt).
Proof.
  apply (checked_primary_layout sample_gpt sample_world).
  - apply header_wfb_sound. vm_compute. reflexivity.
  - vm_compute. split; [discriminate | reflexivity].
  - vm_compute. reflexivity.
  - vm_compute. reflexivity.
Defined.

(** X21: a backup header that [grub_gpt_check_backup] accepts names
    sector 1 as the other copy; when the end of its entry array does not
    wrap around 64 bits, the array starts after the last usable sector and
    ends, in bytes, at or before the backup header's own sector. *)
Theorem checked_backup_layout g w :
  header_wf (backup g) -> 0 <= log_sector_size g < 32 ->
  partitions (backup g)
  + grub_gpt_entries_sectors (backup g) (log_sector_size g) < 2 ^ 64 ->
  fst (grub_gpt_check_backup g w) = GRUB_ERR_NONE ->
  alternate_lba (backup g) = 1
  /\ 92 <= headersize (backup g) <= 2 ^ log_sector_size g
  /\ start (backup g) <= end_ (backup g)
  /\ end_ (backup g) < partitions (backup g)
  /\ partitions (backup g) * 2 ^ log_sector_size g
     + maxpart (backup g) * partentry_size (backup g)
     <= header_lba (backup g) * 2 ^ log_sector_size g.
Proof.
  intros W L NW C.
  destruct (check_backup_facts g w C) as (Hh & K1 & K3 & K4 & K5).
  destruct (header_check_facts _ _ w W L Hh) as (S1 & S2 & S3 & S4).
  pose proof W as (_ & _ & _ & _ & _ & _ & _ & _ & _ & _ & Wpp & Wm & Ws & _).
  unfold is_u64 in Wpp. unfold is_u32 in Wm, Ws.
  assert (S : 0 < 2 ^ log_sector_size g) by (apply Z.pow_pos_nonneg; lia).
  rewrite (entries_sectors_ceil _ _ W L) in *.
  destruct (ceil_div_covers (maxpart (backup g) * partentry_size (backup g))
              (2 ^ log_sector_size g) ltac:(nia) S) as (Cv & Cl).
  rewrite u64_small in K4 by (unfold is_u64; lia).
  repeat match goal with |- _ /\ _ => split end; try lia.
  nia.
Qed.

Lemma checked_backup_layout_witness :
  alternate_lba (backup sample_gpt) = 1
  /\ 92 <= headersize (backup sample_gpt) <= 2 ^ log_sector_size sample_gpt
  /\ start (backup sample_gpt) <= end_ (backup sample_gpt)
  /\ end_ (backup sample_gpt) < partitions (backup sample_gpt)
  /\ partitions (backup sample_gpt) * 2 ^ log_sector_size sample_gpt
     + maxpart (backup sample_gpt) * partentry_size (backup sample_gpt)
     <= header_lba (backup sample_gpt) * 2 ^ log_sector_size sample_gpt.
Proof.
  apply (checked_backup_layout sample_gpt sample_world).
  - apply header_wfb_sound. vm_compute. reflexivity.
  - vm_compute. split; [discriminate | reflexivity].
  - vm_compute. reflexivity.
  - vm_compute. reflexivity.
Defined.
